(** * rtc-engine: forwarding plane, layer selection, frame reassembly,
      audio mixing, pacing, ICE, RTP and STUN

    A shallow embedding of the parts of the engine that the specification
    makes testable promises about, with the promises stated and decided
    against the embedded code.

    Conventions.
    - Fixed-width C++ integers are [Z] with the wrap-around written out
      ([to_uint64], [to_uint16], [to_int16], [to_int32]); [size_t] is the
      64-bit one of the LP64 targets the engine builds for.
    - [std::vector<uint8_t>] and [std::span<const uint8_t>] are [list Z]
      (one byte per element).
    - [std::unordered_map] / [std::map] / [std::set] are stdpp's [gmap] /
      [gset]; where the source iterates a map, the embedding iterates
      [map_to_list], a fixed but arbitrary order, like the hash order.
    - A [std::function] callback is a flag saying whether one is installed
      plus the list of calls made, in order.
    - [steady_clock::now()] is an explicit argument, in nanoseconds. *)

From Stdlib Require Import ZArith Lia Floats.SpecFloat Sorting.Sorted.
From stdpp Require Import gmap strings list fin_maps.

Local Open Scope Z_scope.

(** ** Fixed-width integers *)

Definition to_uint8 (x : Z) : Z := x mod 2 ^ 8.
Definition to_uint16 (x : Z) : Z := x mod 2 ^ 16.
Definition to_uint32 (x : Z) : Z := x mod 2 ^ 32.
Definition to_uint64 (x : Z) : Z := x mod 2 ^ 64.
Definition to_int16 (x : Z) : Z := (x + 2 ^ 15) mod 2 ^ 16 - 2 ^ 15.
Definition to_int32 (x : Z) : Z := (x + 2 ^ 31) mod 2 ^ 32 - 2 ^ 31.

(** [rtc::SocketAddress] (udp_socket.h). *)
Record SocketAddress := mkSocketAddress {
  sa_ip : string;
  sa_port : Z
}.

(** Big-endian reading of a byte list, used to say "network order". *)
Fixpoint be_combine (bs : list Z) : Z :=
  match bs with
  | [] => 0
  | b :: rest => b * 2 ^ (8 * Z.of_nat (length rest)) + be_combine rest
  end.

(** ** RTP forwarder (server/src/rtp_forwarder.cpp) *)

Module Forwarder.

Record RtpStreamInfo := mkRtpStreamInfo {
  ssrc : Z;                (* uint32_t *)
  payload_type : Z;        (* uint8_t *)
  is_audio : bool;
  simulcast_layer : Z;     (* int, -1 if not simulcast *)
  codec_name : string
}.

Record ForwardingRule := mkForwardingRule {
  subscriber_id : string;
  destination : SocketAddress;
  rewritten_ssrc : Z;             (* uint32_t *)
  preferred_simulcast_layer : Z;  (* int *)
  is_active : bool
}.

Record ForwarderStats := mkForwarderStats {
  packets_received : Z;
  packets_forwarded : Z;
  bytes_received : Z;
  bytes_forwarded : Z;
  packets_dropped : Z;
  active_publishers : Z;
  active_subscribers : Z
}.

Record PublisherStream := mkPublisherStream {
  publisher_id : string;
  stream_id : string;
  info : RtpStreamInfo;
  subscribers : list ForwardingRule
}.

(** One invocation of the forward callback. *)
Record SinkCall := mkSinkCall {
  sc_subscriber : string;
  sc_bytes : list Z;
  sc_destination : SocketAddress
}.

(** [RtpForwarder::Impl].  [forward_callback] says whether a callback is
    installed; [sent] is the trace of its invocations. *)
Record Impl := mkImpl {
  forward_callback : bool;
  ssrc_to_stream : gmap Z PublisherStream;
  publisher_ssrcs : gmap string (list Z);
  stats : ForwarderStats;
  forward_buffer : list Z;
  sent : list SinkCall
}.

Definition initial : Impl :=
  mkImpl false ∅ ∅ (mkForwarderStats 0 0 0 0 0 0 0) [] [].

Definition set_forward_callback (s : Impl) : Impl :=
  mkImpl true (ssrc_to_stream s) (publisher_ssrcs s) (stats s)
         (forward_buffer s) (sent s).

(** Lines 68-75: copy the packet into the scratch buffer and, when it
    holds at least 12 bytes, overwrite bytes 8..11. *)
Definition rewrite_ssrc (packet : list Z) (new_ssrc : Z) : list Z :=
  let buf := packet in
  if (12 <=? Z.of_nat (length buf)) then
    <[11%nat := Z.land new_ssrc 255]>
      (<[10%nat := Z.land (Z.shiftr new_ssrc 8) 255]>
        (<[9%nat := Z.land (Z.shiftr new_ssrc 16) 255]>
          (<[8%nat := Z.land (Z.shiftr new_ssrc 24) 255]> buf)))
  else buf.

Definition count_forwarded (st : ForwarderStats) (size : Z) : ForwarderStats :=
  mkForwarderStats (packets_received st)
                   (to_uint64 (packets_forwarded st + 1))
                   (bytes_received st)
                   (to_uint64 (bytes_forwarded st + size))
                   (packets_dropped st) (active_publishers st)
                   (active_subscribers st).

(** The body of the loop of [forward_packet] for one rule. *)
Definition forward_rule (stream : PublisherStream) (packet : list Z)
    (s : Impl) (rule : ForwardingRule) : Impl :=
  if negb (is_active rule) then s
  else if (0 <=? preferred_simulcast_layer rule)
          && (0 <=? simulcast_layer (info stream))
          && negb (simulcast_layer (info stream) =? preferred_simulcast_layer rule)
  then s
  else if forward_callback s then
    if negb (rewritten_ssrc rule =? 0)
       && negb (rewritten_ssrc rule =? ssrc (info stream))
    then
      let buf := rewrite_ssrc packet (rewritten_ssrc rule) in
      mkImpl (forward_callback s) (ssrc_to_stream s) (publisher_ssrcs s)
             (count_forwarded (stats s) (Z.of_nat (length packet)))
             buf
             (sent s ++ [mkSinkCall (subscriber_id rule) buf (destination rule)])
    else
      mkImpl (forward_callback s) (ssrc_to_stream s) (publisher_ssrcs s)
             (count_forwarded (stats s) (Z.of_nat (length packet)))
             (forward_buffer s)
             (sent s ++ [mkSinkCall (subscriber_id rule) packet (destination rule)])
  else s.

Definition forward_packet (stream : PublisherStream) (packet : list Z)
    (s : Impl) : Impl :=
  fold_left (forward_rule stream packet) (subscribers stream) s.

Definition set_stats (s : Impl) (st : ForwarderStats) : Impl :=
  mkImpl (forward_callback s) (ssrc_to_stream s) (publisher_ssrcs s) st
         (forward_buffer s) (sent s).

Definition on_rtp_packet (ssrc0 : Z) (packet : list Z) (s : Impl) : Impl :=
  let st := stats s in
  let s1 := set_stats s
    (mkForwarderStats (to_uint64 (packets_received st + 1))
                      (packets_forwarded st)
                      (to_uint64 (bytes_received st + Z.of_nat (length packet)))
                      (bytes_forwarded st) (packets_dropped st)
                      (active_publishers st) (active_subscribers st)) in
  match ssrc_to_stream s1 !! ssrc0 with
  | Some stream => forward_packet stream packet s1
  | None =>
      let st1 := stats s1 in
      set_stats s1
        (mkForwarderStats (packets_received st1) (packets_forwarded st1)
                          (bytes_received st1) (bytes_forwarded st1)
                          (to_uint64 (packets_dropped st1 + 1))
                          (active_publishers st1) (active_subscribers st1))
  end.

Definition set_active_publishers (st : ForwarderStats) (n : Z) : ForwarderStats :=
  mkForwarderStats (packets_received st) (packets_forwarded st)
                   (bytes_received st) (bytes_forwarded st)
                   (packets_dropped st) n (active_subscribers st).

Definition set_active_subscribers (st : ForwarderStats) (n : Z) : ForwarderStats :=
  mkForwarderStats (packets_received st) (packets_forwarded st)
                   (bytes_received st) (bytes_forwarded st)
                   (packets_dropped st) (active_publishers st) n.

(** [add_publisher] returns [void]: the result is the new state only.
    [ssrc_to_stream[info.ssrc] = stream] is an insert that replaces;
    [publisher_ssrcs[publisher_id].push_back] creates the list if absent. *)
Definition add_publisher (pid sid : string) (i : RtpStreamInfo) (s : Impl) : Impl :=
  let stream := mkPublisherStream pid sid i [] in
  let streams := <[ssrc i := stream]> (ssrc_to_stream s) in
  let pubs := <[pid := default [] (publisher_ssrcs s !! pid) ++ [ssrc i]]>
                (publisher_ssrcs s) in
  mkImpl (forward_callback s) streams pubs
         (set_active_publishers (stats s) (Z.of_nat (size pubs)))
         (forward_buffer s) (sent s).

Definition push_rule (rule : ForwardingRule) (st : PublisherStream) : PublisherStream :=
  mkPublisherStream (publisher_id st) (stream_id st) (info st)
                    (subscribers st ++ [rule]).

Definition add_subscription (pid sub : string) (rule0 : ForwardingRule)
    (s : Impl) : Impl :=
  let rule := mkForwardingRule sub (destination rule0) (rewritten_ssrc rule0)
                (preferred_simulcast_layer rule0) (is_active rule0) in
  match publisher_ssrcs s !! pid with
  | None => s
  | Some ssrcs =>
      let streams :=
        fold_left (fun m x => alter (push_rule rule) x m) ssrcs (ssrc_to_stream s) in
      mkImpl (forward_callback s) streams (publisher_ssrcs s)
             (set_active_subscribers (stats s)
                (to_uint64 (active_subscribers (stats s) + 1)))
             (forward_buffer s) (sent s)
  end.

Definition drop_rules (sub : string) (st : PublisherStream) : PublisherStream :=
  mkPublisherStream (publisher_id st) (stream_id st) (info st)
    (filter (fun r => subscriber_id r ≠ sub) (subscribers st)).

Definition remove_subscription (pid sub : string) (s : Impl) : Impl :=
  match publisher_ssrcs s !! pid with
  | None => s
  | Some ssrcs =>
      let streams :=
        fold_left (fun m x => alter (drop_rules sub) x m) ssrcs (ssrc_to_stream s) in
      mkImpl (forward_callback s) streams (publisher_ssrcs s)
             (set_active_subscribers (stats s)
                (to_uint64 (active_subscribers (stats s) - 1)))
             (forward_buffer s) (sent s)
  end.

(** [remove_publisher]: the loop walks the publisher's SSRC list, erasing
    from the stream table and from the list every SSRC whose table entry
    carries [stream_id]; the accumulator is (table, SSRCs kept so far). *)
Definition remove_publisher_step (sid : string)
    (acc : gmap Z PublisherStream * list Z) (x : Z)
  : gmap Z PublisherStream * list Z :=
  match fst acc !! x with
  | Some st =>
      if bool_decide (stream_id st = sid) then (delete x (fst acc), snd acc)
      else (fst acc, snd acc ++ [x])
  | None => (fst acc, snd acc ++ [x])
  end.

Definition remove_publisher (pid sid : string) (s : Impl) : Impl :=
  match publisher_ssrcs s !! pid with
  | None => s
  | Some ssrcs =>
      let '(streams, kept) :=
        fold_left (remove_publisher_step sid) ssrcs (ssrc_to_stream s, []) in
      let pubs :=
        match kept with
        | [] => delete pid (publisher_ssrcs s)
        | _ => <[pid := kept]> (publisher_ssrcs s)
        end in
      mkImpl (forward_callback s) streams pubs
             (set_active_publishers (stats s) (Z.of_nat (size pubs)))
             (forward_buffer s) (sent s)
  end.

Definition set_layer (sub : string) (layer : Z) (st : PublisherStream) : PublisherStream :=
  mkPublisherStream (publisher_id st) (stream_id st) (info st)
    (map (fun r =>
            if bool_decide (subscriber_id r = sub)
            then mkForwardingRule (subscriber_id r) (destination r)
                                  (rewritten_ssrc r) layer (is_active r)
            else r)
         (subscribers st)).

Definition set_simulcast_layer (pid sub : string) (layer : Z) (s : Impl) : Impl :=
  match publisher_ssrcs s !! pid with
  | None => s
  | Some ssrcs =>
      mkImpl (forward_callback s)
             (fold_left (fun m x => alter (set_layer sub layer) x m) ssrcs
                        (ssrc_to_stream s))
             (publisher_ssrcs s) (stats s) (forward_buffer s) (sent s)
  end.

Definition get_publishers (s : Impl) : list string :=
  map fst (map_to_list (publisher_ssrcs s)).

(** [get_subscribers]: subscriber ids of the publisher's streams, each
    once, in order of first appearance. *)
Definition get_subscribers (pid : string) (s : Impl) : list string :=
  match publisher_ssrcs s !! pid with
  | None => []
  | Some ssrcs =>
      fold_left
        (fun result x =>
           match ssrc_to_stream s !! x with
           | Some st =>
               fold_left
                 (fun res r =>
                    if bool_decide (subscriber_id r ∈ res) then res
                    else res ++ [subscriber_id r])
                 (subscribers st) result
           | None => result
           end)
        ssrcs []
  end.

End Forwarder.

(** ** IEEE binary32

    C++ [float] values are [spec_float]s of the Standard Library read at
    precision 24 and exponent bound 128. *)

Definition float32 : Type := spec_float.
Definition f32_prec : Z := 24.
Definition f32_emax : Z := 128.

Definition f32_zero : float32 := S754_zero false.
Definition f32_mul (x y : float32) : float32 := SFmul f32_prec f32_emax x y.
Definition f32_add (x y : float32) : float32 := SFadd f32_prec f32_emax x y.
Definition f32_sub (x y : float32) : float32 := SFsub f32_prec f32_emax x y.
Definition f32_div (x y : float32) : float32 := SFdiv f32_prec f32_emax x y.
Definition f32_sqrt (x : float32) : float32 := SFsqrt f32_prec f32_emax x.
Definition f32_ltb (x y : float32) : bool := SFltb x y.

(** Conversion of an [int] to [float] (round to nearest even). *)
Definition f32_of_Z (z : Z) : float32 :=
  binary_normalize f32_prec f32_emax z 0 false.

(** [static_cast<int32_t>(float)]: truncation toward zero.  A value that
    does not fit (or NaN, or an infinity) is undefined in C++; the
    embedding gives what the x86-64 conversion instruction gives,
    [INT32_MIN]. *)
Definition f32_to_int32 (x : float32) : Z :=
  match x with
  | S754_zero _ => 0
  | S754_finite sign m e =>
      let mag := if 0 <=? e then Zpos m * 2 ^ e else Zpos m / 2 ^ (- e) in
      let v := if sign then - mag else mag in
      if (- 2 ^ 31 <=? v) && (v <? 2 ^ 31) then v else - 2 ^ 31
  | _ => - 2 ^ 31
  end.

Definition f32_one : float32 := f32_of_Z 1.
Definition f32_two : float32 := f32_of_Z 2.

(** ** Subscription manager (subscription_manager.cpp, unnamed/part_002) *)

Module Subscriptions.

Record SimulcastLayerInfo := mkLayer {
  layer_index : Z;
  width : Z;
  height : Z;
  fps : Z;
  bitrate_kbps : Z;   (* int *)
  is_active : bool
}.

Record Subscription := mkSubscription {
  publisher_id : string;
  stream_id : string;
  target_layer : Z;    (* -1: automatic *)
  current_layer : Z;
  is_paused : bool;
  bytes_received : Z
}.

Record BandwidthInfo := mkBandwidthInfo {
  estimated_bps : Z;   (* uint64_t *)
  packet_loss : float32;
  rtt_ms : float32
}.

(** One invocation of the layer-switch callback. *)
Record LayerSwitch := mkLayerSwitch {
  ls_subscriber : string;
  ls_publisher : string;
  ls_old_layer : Z;
  ls_new_layer : Z
}.

(** Keys: [SubscriptionKey] is (subscriber, publisher, stream) and
    [StreamKey] is (publisher, stream). *)
Record Impl := mkImpl {
  layer_switch_callback : bool;
  subscriptions : gmap (string * string * string) Subscription;
  stream_layers : gmap (string * string) (list SimulcastLayerInfo);
  bandwidth_info : gmap string BandwidthInfo;
  switches : list LayerSwitch
}.

Definition initial : Impl := mkImpl false ∅ ∅ ∅ [].

(** [layer.is_active && static_cast<uint64_t>(layer.bitrate_kbps * 1000)
    <= available_bps]; the product is an [int] product. *)
Definition layer_fits (available_bps : Z) (layer : SimulcastLayerInfo) : bool :=
  is_active layer
  && (to_uint64 (to_int32 (bitrate_kbps layer * 1000)) <=? available_bps).

Definition select_best_layer (s : Impl) (subscriber : string)
    (stream_key : string * string) : Z :=
  match bandwidth_info s !! subscriber with
  | None => 2
  | Some bw =>
      match stream_layers s !! stream_key with
      | None => 0
      | Some layers =>
          fold_left
            (fun best layer =>
               if layer_fits (estimated_bps bw) layer then layer_index layer
               else best)
            layers 0
      end
  end.

Definition set_layer_switch_callback (s : Impl) : Impl :=
  mkImpl true (subscriptions s) (stream_layers s) (bandwidth_info s) (switches s).

Definition set_available_layers (pid sid : string)
    (layers : list SimulcastLayerInfo) (s : Impl) : Impl :=
  mkImpl (layer_switch_callback s) (subscriptions s)
         (<[(pid, sid) := layers]> (stream_layers s))
         (bandwidth_info s) (switches s).

Definition subscribe (sub pid sid : string) (target : Z) (s : Impl) : Impl :=
  let v := mkSubscription pid sid target
             (if 0 <=? target then target else 2) false 0 in
  mkImpl (layer_switch_callback s)
         (<[(sub, pid, sid) := v]> (subscriptions s))
         (stream_layers s) (bandwidth_info s) (switches s).

Definition update_bandwidth (sub : string) (bw : BandwidthInfo) (s : Impl) : Impl :=
  mkImpl (layer_switch_callback s) (subscriptions s) (stream_layers s)
         (<[sub := bw]> (bandwidth_info s)) (switches s).

Definition set_current_layer (v : Subscription) (l : Z) : Subscription :=
  mkSubscription (publisher_id v) (stream_id v) (target_layer v) l
                 (is_paused v) (bytes_received v).

(** The body of the loop of [process] for one entry: the updated
    subscription and the callback invocations it makes. *)
Definition process_entry (s : Impl) (key : string * string * string)
    (v : Subscription) : Subscription * list LayerSwitch :=
  if is_paused v || (0 <=? target_layer v) then (v, [])
  else
    let '(subscriber, publisher, stream) := key in
    let best_layer := select_best_layer s subscriber (publisher, stream) in
    if negb (best_layer =? current_layer v) then
      (set_current_layer v best_layer,
       if layer_switch_callback s
       then [mkLayerSwitch subscriber publisher (current_layer v) best_layer]
       else [])
    else (v, []).

(** [process] visits every entry once and updates it in place; the
    tables [select_best_layer] reads are not written by the loop. *)
Definition process (s : Impl) : Impl :=
  mkImpl (layer_switch_callback s)
         (map_imap (fun key v => Some (fst (process_entry s key v)))
                   (subscriptions s))
         (stream_layers s) (bandwidth_info s)
         (switches s ++
          flat_map (fun kv => snd (process_entry s (fst kv) (snd kv)))
                   (map_to_list (subscriptions s))).

Definition unsubscribe (sub pid sid : string) (s : Impl) : Impl :=
  mkImpl (layer_switch_callback s)
         (delete (sub, pid, sid) (subscriptions s))
         (stream_layers s) (bandwidth_info s) (switches s).

(** The key test of the loops of [set_paused], [set_target_layer] and
    [get_current_layer]. *)
Definition of_pair (sub pid : string) (key : string * string * string) : bool :=
  bool_decide (fst (fst key) = sub) && bool_decide (snd (fst key) = pid).

Definition set_is_paused (v : Subscription) (paused : bool) : Subscription :=
  mkSubscription (publisher_id v) (stream_id v) (target_layer v) (current_layer v)
                 paused (bytes_received v).

Definition set_target (v : Subscription) (layer : Z) : Subscription :=
  mkSubscription (publisher_id v) (stream_id v) layer (current_layer v)
                 (is_paused v) (bytes_received v).

Definition set_paused (sub pid : string) (paused : bool) (s : Impl) : Impl :=
  mkImpl (layer_switch_callback s)
         (map_imap (fun key v =>
                      Some (if of_pair sub pid key then set_is_paused v paused else v))
                   (subscriptions s))
         (stream_layers s) (bandwidth_info s) (switches s).

Definition set_target_layer (sub pid : string) (layer : Z) (s : Impl) : Impl :=
  mkImpl (layer_switch_callback s)
         (map_imap (fun key v =>
                      Some (if of_pair sub pid key then set_target v layer else v))
                   (subscriptions s))
         (stream_layers s) (bandwidth_info s) (switches s).

Definition subscription_count (s : Impl) : Z :=
  Z.of_nat (size (subscriptions s)).


End Subscriptions.

(** ** Video frame buffer (frame_buffer.cpp, unnamed/part_013) *)

Module FrameBuffer.

(** [duration_cast<milliseconds>(now - t)]: truncation toward zero of a
    nanosecond difference. *)
Definition age_ms (now t : Z) : Z := Z.quot (now - t) 1000000.

Record BufferedFrame := mkBufferedFrame {
  data : list Z;
  rtp_timestamp : Z;
  sequence_start : Z;
  sequence_end : Z;
  arrival_time : Z;
  bf_is_keyframe : bool;
  bf_is_complete : bool
}.

Record FrameBufferStats := mkFrameBufferStats {
  frames_buffered : Z;
  frames_decoded : Z;
  frames_dropped : Z;
  packets_lost : Z;
  packet_loss_rate : float32;
  current_delay_ms : float32
}.

Record FrameBufferConfig := mkFrameBufferConfig {
  max_frames : Z;
  max_delay : Z;       (* milliseconds *)
  target_delay : Z;    (* milliseconds *)
  enable_nack : bool;
  wait_for_keyframe : bool
}.

Record FrameAssembler := mkFrameAssembler {
  timestamp : Z;                 (* uint32_t *)
  packets : gmap Z (list Z);     (* std::map<uint16_t, vector<uint8_t>> *)
  first_sequence : Z;            (* uint16_t *)
  last_sequence : Z;             (* uint16_t *)
  has_first : bool;
  has_last : bool;
  is_keyframe : bool;
  first_arrival : Z
}.

(** A default-constructed assembler, as [assemblers[timestamp]] creates. *)
Definition new_assembler : FrameAssembler :=
  mkFrameAssembler 0 ∅ 0 0 false false false 0.

(** The gap-check loop of [is_complete]:
    [for (uint16_t seq = first_sequence; seq != last_sequence + 1; ++seq)].
    The bound [last_sequence + 1] is computed in [int] and is not reduced
    to 16 bits; [++seq] wraps.  [None] is a loop that has not returned
    after [fuel] tests of its condition. *)
Fixpoint is_complete_loop (fuel : nat) (a : FrameAssembler) (seq : Z) : option bool :=
  match fuel with
  | O => None
  | S fuel' =>
      if seq =? last_sequence a + 1 then Some true
      else
        match packets a !! seq with
        | None => Some false
        | Some _ => is_complete_loop fuel' a (to_uint16 (seq + 1))
        end
  end.

(** A 16-bit counter takes at most 65536 values, so a loop that has not
    left after 65537 tests never leaves. *)
Definition is_complete_fuel : nat := Z.to_nat 65537.

Definition is_complete (a : FrameAssembler) : option bool :=
  if negb (has_first a) || negb (has_last a) then Some false
  else is_complete_loop is_complete_fuel a (first_sequence a).

(** The concatenation loop of [assemble]:
    [for (uint16_t seq = first_sequence;; ++seq) { ...; if (seq == last_sequence) break; }] *)
Fixpoint assemble_loop (fuel : nat) (a : FrameAssembler) (seq : Z)
    (acc : list Z) : option (list Z) :=
  match fuel with
  | O => None
  | S fuel' =>
      let acc' :=
        match packets a !! seq with
        | Some payload => acc ++ payload
        | None => acc
        end in
      if seq =? last_sequence a then Some acc'
      else assemble_loop fuel' a (to_uint16 (seq + 1)) acc'
  end.

Definition assemble_fuel : nat := Z.to_nat 65536.

Definition assemble_data (a : FrameAssembler) : option (list Z) :=
  assemble_loop assemble_fuel a (first_sequence a) [].

Definition assemble (a : FrameAssembler) : option BufferedFrame :=
  match assemble_data a with
  | Some bytes =>
      Some (mkBufferedFrame bytes (timestamp a) (first_sequence a)
              (last_sequence a) (first_arrival a) (is_keyframe a) true)
  | None => None
  end.

Record Impl := mkImpl {
  config : FrameBufferConfig;
  assemblers : gmap Z FrameAssembler;
  complete_frames : list BufferedFrame;
  received_sequences : gset Z;
  highest_sequence : Z;
  has_keyframe : bool;
  stats : FrameBufferStats
}.

Definition empty_stats : FrameBufferStats :=
  mkFrameBufferStats 0 0 0 0 f32_zero f32_zero.

Definition initial (cfg : FrameBufferConfig) : Impl :=
  mkImpl cfg ∅ [] ∅ 0 false empty_stats.

(** First loop of [cleanup_old_frames]: pop frames older than
    [max_delay] off the front, counting them. *)
Fixpoint drop_old_frames (now limit : Z) (q : list BufferedFrame)
    (dropped : Z) : list BufferedFrame * Z :=
  match q with
  | [] => ([], dropped)
  | f :: rest =>
      if limit <? age_ms now (arrival_time f)
      then drop_old_frames now limit rest (to_uint64 (dropped + 1))
      else (q, dropped)
  end.

Definition cleanup_old_frames (now : Z) (s : Impl) : Impl :=
  let '(q, dropped) :=
    drop_old_frames now (max_delay (config s)) (complete_frames s)
                    (frames_dropped (stats s)) in
  let st := stats s in
  mkImpl (config s)
         (filter (fun kv => ¬ (max_delay (config s) * 2 < age_ms now (first_arrival (snd kv))))
                 (assemblers s))
         q (received_sequences s) (highest_sequence s) (has_keyframe s)
         (mkFrameBufferStats (frames_buffered st) (frames_decoded st) dropped
                             (packets_lost st) (packet_loss_rate st)
                             (current_delay_ms st)).

(** Lines 148-175 of [insert_packet]: the assembler for the timestamp
    after the packet has been stored and the bounds updated. *)
Definition store_packet (a0 : FrameAssembler) (payload : list Z)
    (sequence ts : Z) (marker is_keyframe_packet : bool) (now : Z) : FrameAssembler :=
  let ts1 := if bool_decide (packets a0 = ∅) then ts else timestamp a0 in
  let arr1 := if bool_decide (packets a0 = ∅) then now else first_arrival a0 in
  let pk := <[sequence := payload]> (packets a0) in
  let newfirst :=
    negb (has_first a0) || (to_int16 (sequence - first_sequence a0) <? 0) in
  mkFrameAssembler ts1 pk
    (if newfirst then sequence else first_sequence a0)
    (if marker then sequence else last_sequence a0)
    (if newfirst then true else has_first a0)
    (if marker then true else has_last a0)
    (if is_keyframe_packet then true else is_keyframe a0)
    arr1.

(** [insert_packet].  The clock is read once per call.  [None] stands
    for a call that does not return (the gap check of [is_complete]
    spinning). *)
Definition insert_packet (payload : list Z) (sequence ts : Z)
    (marker is_keyframe_packet : bool) (now : Z) (s : Impl) : option Impl :=
  let received := {[sequence]} ∪ received_sequences s in
  let highest :=
    if 0 <? to_int16 (sequence - highest_sequence s) then sequence
    else highest_sequence s in
  let a := store_packet (default new_assembler (assemblers s !! ts))
                        payload sequence ts marker is_keyframe_packet now in
  let stored := <[ts := a]> (assemblers s) in
  match is_complete a with
  | None => None
  | Some false =>
      Some (cleanup_old_frames now
              (mkImpl (config s) stored (complete_frames s) received highest
                      (has_keyframe s) (stats s)))
  | Some true =>
      if wait_for_keyframe (config s) && negb (has_keyframe s)
         && negb (is_keyframe a)
      then Some (mkImpl (config s) stored (complete_frames s) received highest
                        (has_keyframe s) (stats s))
      else
        match assemble a with
        | None => None
        | Some frame =>
            let st := stats s in
            Some (cleanup_old_frames now
                    (mkImpl (config s) (delete ts stored)
                            (complete_frames s ++ [frame]) received highest
                            (if is_keyframe a then true else has_keyframe s)
                            (mkFrameBufferStats
                               (to_uint64 (frames_buffered st + 1))
                               (frames_decoded st) (frames_dropped st)
                               (packets_lost st) (packet_loss_rate st)
                               (current_delay_ms st))))
        end
  end.

Definition pop_frame (now : Z) (s : Impl) : option BufferedFrame * Impl :=
  match complete_frames s with
  | [] => (None, s)
  | front :: rest =>
      if age_ms now (arrival_time front) <? target_delay (config s)
      then (None, s)
      else
        let st := stats s in
        (Some front,
         mkImpl (config s) (assemblers s) rest (received_sequences s)
                (highest_sequence s) (has_keyframe s)
                (mkFrameBufferStats (frames_buffered st)
                                    (to_uint64 (frames_decoded st + 1))
                                    (frames_dropped st) (packets_lost st)
                                    (packet_loss_rate st) (current_delay_ms st)))
  end.

Definition peek_frame (s : Impl) : option BufferedFrame :=
  match complete_frames s with
  | [] => None
  | front :: _ => Some front
  end.

Definition has_complete_frame (s : Impl) : bool :=
  match complete_frames s with
  | [] => false
  | _ :: _ => true
  end.




Definition should_request_keyframe (s : Impl) : bool :=
  if negb (has_keyframe s) then true else 10 <? frames_dropped (stats s).


End FrameBuffer.

(** ** Audio mixer (server/src/audio_mixer.cpp) *)

Module Mixer.

Record AudioSourceConfig := mkAudioSourceConfig {
  sample_rate : Z;
  channels : Z;
  frame_duration_ms : Z
}.

Record MixingParams := mkMixingParams {
  volume : float32;
  pan : float32;
  muted : bool;
  is_active_speaker : bool
}.

Record AudioSource := mkAudioSource {
  id : string;
  params : MixingParams;
  buffer : list Z;          (* std::vector<int16_t> *)
  last_timestamp : Z;
  audio_level_db : float32;
  has_data : bool
}.

Record AudioMixerStats := mkAudioMixerStats {
  active_sources : Z;
  mixed_frames : Z;
  cpu_usage_percent : float32;
  average_latency_ms : float32
}.

(** One invocation of the mixed-audio callback. *)
Record MixedCall := mkMixedCall {
  mc_recipient : string;
  mc_samples : list Z;
  mc_timestamp : Z
}.

(** One invocation of the active-speaker callback. *)
Record SpeakerCall := mkSpeakerCall {
  sp_id : string;
  sp_level : float32
}.

Record Impl := mkImpl {
  config : AudioSourceConfig;
  sources : gmap string AudioSource;
  mixed_callback : bool;
  speaker_callback : bool;
  active_speaker : string;
  stats : AudioMixerStats;
  mix_buffer : list Z;      (* std::vector<int32_t> *)
  output_buffer : list Z;   (* std::vector<int16_t> *)
  frame_size : Z;
  mixed_out : list MixedCall;
  speaker_out : list SpeakerCall
}.

Definition initial (cfg : AudioSourceConfig) : Impl :=
  let fs := to_int32 (to_int32 (Z.quot (to_int32 (sample_rate cfg * frame_duration_ms cfg)) 1000)
                      * channels cfg) in
  mkImpl cfg ∅ false false ""
         (mkAudioMixerStats 0 0 f32_zero f32_zero)
         (replicate (Z.to_nat fs) 0) (replicate (Z.to_nat fs) 0) fs [] [].

(** IEEE binary64, for the [double] arithmetic of [calculate_level]. *)
Definition f64_of_Z (z : Z) : spec_float := binary_normalize 53 1024 z 0 false.
Definition f64_to_f32 (x : spec_float) : float32 :=
  match x with
  | S754_finite sign m e =>
      binary_normalize f32_prec f32_emax (if sign then Zneg m else Zpos m) e sign
  | _ => x
  end.
Definition f32_to_f64 (x : float32) : spec_float := x.

(** [calculate_level]; [log10] is libm's [std::log10] on [double]. *)
Definition calculate_level (log10 : spec_float -> spec_float)
    (samples : list Z) : float32 :=
  match samples with
  | [] => f32_of_Z (-96)
  | _ =>
      let sum_squares := fold_left (fun acc x => acc + x * x) samples 0 in
      let rms := SFsqrt 53 1024
                   (SFdiv 53 1024 (f64_of_Z sum_squares)
                          (f64_of_Z (Z.of_nat (length samples)))) in
      if SFltb rms (f64_of_Z 1) then f32_of_Z (-96)
      else f64_to_f32
             (SFmul 53 1024 (f32_to_f64 (f32_of_Z 20))
                    (log10 (SFdiv 53 1024 rms (f64_of_Z 32768))))
  end.

(** [static_cast<int32_t>(sample * gain)] with [sample] an [int16_t]. *)
Definition scale_sample (sample : Z) (gain : float32) : Z :=
  f32_to_int32 (f32_mul (f32_of_Z sample) gain).

Definition left_gain (p : MixingParams) : float32 :=
  f32_mul (volume p) (f32_sqrt (f32_div (f32_sub f32_one (pan p)) f32_two)).
Definition right_gain (p : MixingParams) : float32 :=
  f32_mul (volume p) (f32_sqrt (f32_div (f32_add f32_one (pan p)) f32_two)).

(** [apply_volume_and_pan]: adds to both accumulators unless muted. *)
Definition apply_volume_and_pan (lr : Z * Z) (p : MixingParams) (sample : Z) : Z * Z :=
  if muted p then lr
  else (to_int32 (fst lr + scale_sample sample (left_gain p)),
        to_int32 (snd lr + scale_sample sample (right_gain p))).

(** [v[i] += x] on a vector of [int32_t]. *)
Definition add_at (i : nat) (x : Z) (v : list Z) : list Z :=
  alter (fun old => to_int32 (old + x)) i v.

(** Mono branch (lines 214-217). *)
Definition mix_mono (src : AudioSource) (mix : list Z) : list Z :=
  fold_left
    (fun m i => add_at i (scale_sample (buffer src !!! i) (volume (params src))) m)
    (seq 0 (length (buffer src))) mix.

(** Stereo branch (lines 222-232): one step of the loop at index [i]. *)
Definition mix_stereo_step (src : AudioSource) (m : list Z) (i : nat) : list Z :=
  let lr := apply_volume_and_pan (0, 0) (params src) (buffer src !!! i) in
  let m1 := add_at i (fst lr) m in
  if bool_decide (S i < length m1)%nat then
    let lr2 := apply_volume_and_pan lr (params src) (buffer src !!! S i) in
    add_at (S i) (snd lr2) m1
  else m1.

(** The indices 0, 2, 4, ... below [n]. *)
Definition even_indices (n : nat) : list nat :=
  map (fun k => (2 * k)%nat) (seq 0 (Nat.div2 (S n))).

Definition mix_stereo (src : AudioSource) (mix : list Z) : list Z :=
  fold_left (mix_stereo_step src) (even_indices (length (buffer src))) mix.

(** Lines 207-233: what one source adds to the mix for one recipient. *)
Definition mix_source (cfg : AudioSourceConfig) (recipient : string)
    (mix : list Z) (entry : string * AudioSource) : list Z :=
  let '(source_id, src) := entry in
  if bool_decide (source_id = recipient) then mix
  else if negb (has_data src) then mix
  else if muted (params src) then mix
  else if channels cfg =? 1 then mix_mono src mix
  else mix_stereo src mix.

Definition clamp16 (v : Z) : Z := Z.max (-32768) (Z.min v 32767).

(** Lines 237-242: saturate the mix into the output buffer. *)
Definition saturate (mix out : list Z) : list Z :=
  fold_left (fun o i => <[i := clamp16 (mix !!! i)]> o) (seq 0 (length mix)) out.

Definition set_buffers (s : Impl) (mix out : list Z) (calls : list MixedCall) : Impl :=
  mkImpl (config s) (sources s) (mixed_callback s) (speaker_callback s)
         (active_speaker s) (stats s) mix out (frame_size s) calls
         (speaker_out s).

(** Lines 199-256: the body of the outer loop for one recipient. *)
Definition mix_for (s : Impl) (entry : string * AudioSource) : Impl :=
  let recipient := fst entry in
  let mix0 := replicate (length (mix_buffer s)) 0 in
  let mix := fold_left (mix_source (config s) recipient)
                       (map_to_list (sources s)) mix0 in
  let out := saturate mix (output_buffer s) in
  let ts := match sources s !! recipient with
            | Some src => last_timestamp src
            | None => 0
            end in
  set_buffers s mix out
    (if mixed_callback s
     then mixed_out s ++ [mkMixedCall recipient out ts]
     else mixed_out s).

(** [update_active_speaker]. *)
Definition update_active_speaker (s : Impl) : Impl :=
  let '(highest, loudest) :=
    fold_left
      (fun acc entry =>
         let src : AudioSource := snd entry in
         if muted (params src) then acc
         else if f32_ltb (fst acc) (audio_level_db src)
              then (audio_level_db src, fst entry)
              else acc)
      (map_to_list (sources s)) (f32_of_Z (-96), "") in
  if f32_ltb (f32_of_Z (-40)) highest && negb (bool_decide (loudest = active_speaker s))
  then mkImpl (config s) (sources s) (mixed_callback s) (speaker_callback s)
              loudest (stats s) (mix_buffer s) (output_buffer s) (frame_size s)
              (mixed_out s)
              (if speaker_callback s
               then speaker_out s ++ [mkSpeakerCall loudest highest]
               else speaker_out s)
  else s.

Definition clear_has_data (src : AudioSource) : AudioSource :=
  mkAudioSource (id src) (params src) (buffer src) (last_timestamp src)
                (audio_level_db src) false.

Definition process (s : Impl) : Impl :=
  if bool_decide (sources s = ∅) then s
  else
    let s1 := update_active_speaker s in
    let s2 := fold_left mix_for (map_to_list (sources s1)) s1 in
    mkImpl (config s2) (clear_has_data <$> sources s2) (mixed_callback s2)
           (speaker_callback s2) (active_speaker s2)
           (mkAudioMixerStats (active_sources (stats s2))
                              (to_uint64 (mixed_frames (stats s2) + 1))
                              (cpu_usage_percent (stats s2))
                              (average_latency_ms (stats s2)))
           (mix_buffer s2) (output_buffer s2) (frame_size s2)
           (mixed_out s2) (speaker_out s2).

Definition set_sources (s : Impl) (m : gmap string AudioSource) : Impl :=
  mkImpl (config s) m (mixed_callback s) (speaker_callback s)
         (active_speaker s) (stats s) (mix_buffer s) (output_buffer s)
         (frame_size s) (mixed_out s) (speaker_out s).

Definition set_mixed_audio_callback (s : Impl) : Impl :=
  mkImpl (config s) (sources s) true (speaker_callback s)
         (active_speaker s) (stats s) (mix_buffer s) (output_buffer s)
         (frame_size s) (mixed_out s) (speaker_out s).

Definition add_source (pid : string) (p : MixingParams) (s : Impl) : Impl :=
  let src := mkAudioSource pid p (replicate (Z.to_nat (frame_size s)) 0)
                           0 (f32_of_Z (-96)) false in
  let m := <[pid := src]> (sources s) in
  mkImpl (config s) m (mixed_callback s) (speaker_callback s)
         (active_speaker s)
         (mkAudioMixerStats (Z.of_nat (size m)) (mixed_frames (stats s))
                            (cpu_usage_percent (stats s))
                            (average_latency_ms (stats s)))
         (mix_buffer s) (output_buffer s) (frame_size s) (mixed_out s)
         (speaker_out s).

(** [push_audio]: copy at most [buffer.size()] samples over the front of
    the source's buffer, then refresh level, timestamp and [has_data]. *)
Definition push_audio (log10 : spec_float -> spec_float) (pid : string)
    (samples : list Z) (ts : Z) (s : Impl) : Impl :=
  match sources s !! pid with
  | None => s
  | Some src =>
      let copy_size := Nat.min (length samples) (length (buffer src)) in
      let buf := take copy_size samples ++ drop copy_size (buffer src) in
      set_sources s
        (<[pid := mkAudioSource (id src) (params src) buf ts
                                (calculate_level log10 buf) true]> (sources s))
  end.

Definition set_active_speaker_callback (s : Impl) : Impl :=
  mkImpl (config s) (sources s) (mixed_callback s) true
         (active_speaker s) (stats s) (mix_buffer s) (output_buffer s)
         (frame_size s) (mixed_out s) (speaker_out s).

Definition remove_source (pid : string) (s : Impl) : Impl :=
  let m := delete pid (sources s) in
  mkImpl (config s) m (mixed_callback s) (speaker_callback s)
         (if bool_decide (active_speaker s = pid) then "" else active_speaker s)
         (mkAudioMixerStats (Z.of_nat (size m)) (mixed_frames (stats s))
                            (cpu_usage_percent (stats s))
                            (average_latency_ms (stats s)))
         (mix_buffer s) (output_buffer s) (frame_size s) (mixed_out s)
         (speaker_out s).

Definition set_params (src : AudioSource) (p : MixingParams) : AudioSource :=
  mkAudioSource (id src) p (buffer src) (last_timestamp src)
                (audio_level_db src) (has_data src).

Definition set_mixing_params (pid : string) (p : MixingParams) (s : Impl) : Impl :=
  match sources s !! pid with
  | None => s
  | Some src => set_sources s (<[pid := set_params src p]> (sources s))
  end.

Definition get_active_speaker (s : Impl) : string := active_speaker s.

Definition source_count (s : Impl) : Z := Z.of_nat (size (sources s)).

End Mixer.

(** ** Packet pacer (rtp_pacer.cpp in unnamed/part_009, rtp_pacer.h) *)

Module Pacer.

Record Config := mkConfig {
  target_bitrate_bps : Z;   (* uint64_t *)
  max_bitrate_bps : Z;
  bucket_size_bytes : Z;    (* size_t *)
  max_queue_size : Z;
  pacing_interval : Z
}.

Record PacedPacket := mkPacedPacket {
  data : list Z;
  destination : SocketAddress;
  enqueue_time : Z;
  priority : Z
}.

Record Stats := mkStats {
  packets_sent : Z;
  bytes_sent : Z;
  packets_dropped : Z;
  avg_queue_delay : Z
}.

(** [std::priority_queue<PacedPacket, vector, PacketCompare>].  The
    standard fixes what [top] may return (an element no other element
    compares greater than) and that [push]/[pop] add and remove one
    element; which of several equal-priority packets comes first is left
    to the heap routines.  The queue is a list of its elements and the
    heap discipline is an interface. *)
Class Heap := {
  heap_push : PacedPacket -> list PacedPacket -> list PacedPacket;
  heap_pop : list PacedPacket -> option (PacedPacket * list PacedPacket)
}.

Class HeapLaws (H : Heap) := {
  heap_push_perm : forall p q, heap_push p q ≡ₚ p :: q;
  heap_pop_nil : heap_pop [] = None;
  heap_pop_some : forall q, q ≠ [] -> is_Some (heap_pop q);
  heap_pop_perm : forall q p q', heap_pop q = Some (p, q') -> q ≡ₚ p :: q';
  heap_pop_top : forall q p q' x,
      heap_pop q = Some (p, q') -> x ∈ q -> priority x <= priority p
}.

(** One discipline that meets the interface: [push] appends, [pop]
    takes out the first packet of highest priority. *)
Fixpoint pop_max (q : list PacedPacket) : option (PacedPacket * list PacedPacket) :=
  match q with
  | [] => None
  | x :: rest =>
      match pop_max rest with
      | None => Some (x, [])
      | Some (m, rest') =>
          if priority x <? priority m then Some (m, x :: rest')
          else Some (x, rest)
      end
  end.

Definition fifo_heap : Heap :=
  {| heap_push := fun p q => q ++ [p]; heap_pop := pop_max |}.

Record Impl := mkImpl {
  config : Config;
  send_callback : bool;
  available_tokens : Z;       (* size_t *)
  last_process_time : Z;      (* nanoseconds *)
  queue : list PacedPacket;
  stats : Stats;
  sent : list (list Z * SocketAddress)
}.

(** The constructor: a full bucket. *)
Definition initial (cfg : Config) (now : Z) : Impl :=
  mkImpl cfg false (bucket_size_bytes cfg) now [] (mkStats 0 0 0 0) [].

Definition set_send_callback (s : Impl) : Impl :=
  mkImpl (config s) true (available_tokens s) (last_process_time s)
         (queue s) (stats s) (sent s).

Section WithHeap.
Context {H : Heap}.

Definition enqueue (payload : list Z) (dest : SocketAddress) (prio now : Z)
    (s : Impl) : bool * Impl :=
  if max_queue_size (config s) <=? Z.of_nat (length (queue s)) then
    (false,
     mkImpl (config s) (send_callback s) (available_tokens s)
            (last_process_time s) (queue s)
            (mkStats (packets_sent (stats s)) (bytes_sent (stats s))
                     (to_uint64 (packets_dropped (stats s) + 1))
                     (avg_queue_delay (stats s)))
            (sent s))
  else
    (true,
     mkImpl (config s) (send_callback s) (available_tokens s)
            (last_process_time s)
            (heap_push (mkPacedPacket payload dest now prio) (queue s))
            (stats s) (sent s)).

(** Sending the top packet (lines 371-381 of part_009). *)
Definition send_top (p : PacedPacket) (rest : list PacedPacket) (s : Impl) : Impl :=
  let size := Z.of_nat (length (data p)) in
  mkImpl (config s) (send_callback s)
         (to_uint64 (available_tokens s - size))
         (last_process_time s) rest
         (mkStats (to_uint64 (packets_sent (stats s) + 1))
                  (to_uint64 (bytes_sent (stats s) + size))
                  (packets_dropped (stats s)) (avg_queue_delay (stats s)))
         (if send_callback s then sent s ++ [(data p, destination p)] else sent s).

(** The [while (!queue.empty())] loop; [fuel] bounds its iterations. *)
Fixpoint drain (fuel : nat) (s : Impl) (count : Z) : Impl * Z :=
  match fuel with
  | O => (s, count)
  | S fuel' =>
      match heap_pop (queue s) with
      | None => (s, count)
      | Some (p, rest) =>
          if available_tokens s <? Z.of_nat (length (data p)) then (s, count)
          else drain fuel' (send_top p rest s) (to_uint64 (count + 1))
      end
  end.

(** Lines 347-355: the refill.  [elapsed.count()] is a signed 64-bit
    count converted to unsigned by the multiplication. *)
Definition refill (now : Z) (s : Impl) : Impl :=
  let elapsed := Z.quot (now - last_process_time s) 1000000 in
  let new_tokens :=
    to_uint64 (target_bitrate_bps (config s) / 8 * to_uint64 elapsed) / 1000 in
  mkImpl (config s) (send_callback s)
         (Z.min (to_uint64 (available_tokens s + new_tokens))
                (bucket_size_bytes (config s)))
         now (queue s) (stats s) (sent s).

(** [process]: every pass of the loop removes one packet, so the length
    of the queue is fuel enough. *)
Definition process (now : Z) (s : Impl) : Z * Impl :=
  let s1 := refill now s in
  let '(s2, count) := drain (length (queue s1)) s1 0 in
  (count, s2).

Inductive Call :=
| Enqueue (payload : list Z) (dest : SocketAddress) (prio : Z) (now : Z)
| Process (now : Z).

Definition step (s : Impl) (c : Call) : Impl :=
  match c with
  | Enqueue payload dest prio now => snd (enqueue payload dest prio now s)
  | Process now => snd (process now s)
  end.

Definition run (s : Impl) (calls : list Call) : Impl := fold_left step calls s.

End WithHeap.

(** Bytes handed to the send callback so far. *)
Definition bytes_handed (s : Impl) : Z :=
  fold_right (fun c acc => Z.of_nat (length (fst c)) + acc) 0 (sent s).

(** The clock readings of the [process] calls of a trace, in order. *)
Definition process_times (calls : list Call) : list Z :=
  flat_map (fun c => match c with Process now => [now] | Enqueue _ _ _ _ => [] end) calls.

(** [set_target_bitrate], [queue_size], [queue_delay] (which returns 0
    on every path) and [clear]. *)
Definition set_target_bitrate (bitrate_bps : Z) (s : Impl) : Impl :=
  let c := config s in
  mkImpl (mkConfig bitrate_bps (max_bitrate_bps c) (bucket_size_bytes c)
                   (max_queue_size c) (pacing_interval c))
         (send_callback s) (available_tokens s) (last_process_time s)
         (queue s) (stats s) (sent s).

Definition queue_size (s : Impl) : Z := Z.of_nat (length (queue s)).

Definition queue_delay (now : Z) (s : Impl) : Z :=
  match queue s with
  | [] => 0
  | _ :: _ => 0
  end.

Definition clear (s : Impl) : Impl :=
  mkImpl (config s) (send_callback s) (available_tokens s) (last_process_time s)
         [] (stats s) (sent s).

End Pacer.

(** ** ICE agent (core/src/ice_agent.cpp, ice_agent.h in unnamed/part_004) *)

Module Ice.

Inductive IceCandidateType := HOST | SERVER_REFLEXIVE | PEER_REFLEXIVE | RELAY.

Inductive IceRole := CONTROLLING | CONTROLLED.

Inductive PairState := FROZEN | WAITING | IN_PROGRESS | SUCCEEDED | FAILED.

Record IceCandidate := mkIceCandidate {
  foundation : string;
  component : Z;       (* uint32_t *)
  protocol : string;
  priority : Z;        (* uint32_t *)
  address : SocketAddress;
  type : IceCandidateType;
  related_address : SocketAddress
}.

Record IceCandidatePair := mkIceCandidatePair {
  local : IceCandidate;
  remote : IceCandidate;
  pair_priority : Z;   (* uint64_t *)
  state : PairState;
  rtt : Z;
  bytes_sent : Z;
  bytes_received : Z
}.

Definition calculate_priority (t : IceCandidateType)
    (local_preference component0 : Z) : Z :=
  let type_pref :=
    match t with
    | HOST => 126
    | PEER_REFLEXIVE => 110
    | SERVER_REFLEXIVE => 100
    | RELAY => 0
    end in
  to_uint32 (to_uint32 (to_uint32 (Z.shiftl type_pref 24)
                        + to_uint32 (Z.shiftl local_preference 8))
             + to_uint32 (256 - component0)).

(** The parts of [IceAgent::Impl] that [add_remote_candidate] and
    [process_packet] read or write. *)
Record Impl := mkImpl {
  role : IceRole;
  on_data : bool;
  local_candidates : list IceCandidate;
  remote_candidates : list IceCandidate;
  candidate_pairs : list IceCandidatePair;
  connectivity_checks_received : Z;
  delivered : list (list Z * SocketAddress)
}.

(** Lines 197-210: the pair formed from one local candidate. *)
Definition make_pair (r : IceRole) (candidate loc : IceCandidate) : IceCandidatePair :=
  let prio :=
    match r with
    | CONTROLLING => to_uint64 (to_uint64 (Z.shiftl (priority loc) 32) + priority candidate)
    | CONTROLLED => to_uint64 (to_uint64 (Z.shiftl (priority candidate) 32) + priority loc)
    end in
  mkIceCandidatePair loc candidate prio FROZEN 0 0 0.

Definition add_remote_candidate (candidate : IceCandidate) (s : Impl) : Impl :=
  mkImpl (role s) (on_data s) (local_candidates s)
         (remote_candidates s ++ [candidate])
         (candidate_pairs s ++ map (make_pair (role s) candidate) (local_candidates s))
         (connectivity_checks_received s) (delivered s).

(** The test of line 262. *)
Definition is_stun (packet : list Z) : bool :=
  (20 <=? Z.of_nat (length packet))
  && (Z.land (packet !!! 0%nat) 192 =? 0).

Definition process_packet (packet : list Z) (source : SocketAddress)
    (s : Impl) : bool * Impl :=
  if is_stun packet then
    (true,
     mkImpl (role s) (on_data s) (local_candidates s) (remote_candidates s)
            (candidate_pairs s)
            (to_uint64 (connectivity_checks_received s + 1)) (delivered s))
  else
    (true,
     mkImpl (role s) (on_data s) (local_candidates s) (remote_candidates s)
            (candidate_pairs s) (connectivity_checks_received s)
            (if on_data s then delivered s ++ [(packet, source)] else delivered s)).

(** The magic-cookie test of [StunMessage::parse] (stun_client.cpp,
    unnamed/part_011, lines 43-55). *)
Definition parse_accepts (packet : list Z) : bool :=
  (20 <=? Z.of_nat (length packet))
  && (Z.lor (Z.lor (Z.lor (Z.shiftl (packet !!! 4%nat) 24)
                          (Z.shiftl (packet !!! 5%nat) 16))
                   (Z.shiftl (packet !!! 6%nat) 8))
            (packet !!! 7%nat) =? 0x2112A442).

(** The pair priority of RFC 8445, section 6.1.2.3, as the
    specification words it. *)
Definition rfc_pair_priority (G D : Z) : Z :=
  Z.lor (Z.lor (Z.shiftl (Z.min G D) 32) (Z.shiftl (Z.max G D) 1))
        (if D <? G then 1 else 0).

(** The demultiplexing test as the specification words it. *)
Definition spec_is_stun (packet : list Z) : bool :=
  (20 <=? Z.of_nat (length packet))
  && (Z.land (packet !!! 0%nat) 192 =? 0)
  && (be_combine (take 4 (drop 4 packet)) =? 0x2112A442).

End Ice.

(** ** RTP packets (core/src/rtp_packet.cpp, rtp_packet.h in unnamed/part_005) *)

Module Rtp.

Record RtpHeader := mkRtpHeader {
  version : Z;          (* uint8_t *)
  padding : bool;
  extension : bool;
  csrc_count : Z;       (* uint8_t *)
  marker : bool;
  payload_type : Z;     (* uint8_t *)
  sequence : Z;         (* uint16_t *)
  timestamp : Z;        (* uint32_t *)
  ssrc : Z;             (* uint32_t *)
  csrc : list Z         (* std::vector<uint32_t> *)
}.

Record RtpExtension := mkRtpExtension {
  profile : Z;          (* uint16_t *)
  ext_data : list Z
}.

Record RtpPacket := mkRtpPacket {
  header_ : RtpHeader;
  extension_ : option RtpExtension;
  payload_ : list Z
}.

(** [RtpHeader::header_size] and [RtpPacket::size]. *)
Definition header_size (h : RtpHeader) : Z := 12 + csrc_count h * 4.

Definition size (p : RtpPacket) : Z :=
  header_size (header_ p)
  + match extension_ p with
    | Some e => 4 + (Z.of_nat (length (ext_data e)) + 3) / 4 * 4
    | None => 0
    end
  + Z.of_nat (length (payload_ p)).

(** Reads through a pointer into the buffer.  [None] is a read outside
    the buffer. *)
Definition read_uint16_be (data : list Z) (i : nat) : option Z :=
  b0 ← data !! i; b1 ← data !! S i;
  Some (to_uint16 (Z.lor (Z.shiftl b0 8) b1)).

Definition read_uint32_be (data : list Z) (i : nat) : option Z :=
  b0 ← data !! i; b1 ← data !! S i; b2 ← data !! S (S i); b3 ← data !! S (S (S i));
  Some (Z.lor (Z.lor (Z.lor (to_uint32 (Z.shiftl b0 24)) (to_uint32 (Z.shiftl b1 16)))
                     (to_uint32 (Z.shiftl b2 8)))
              (to_uint32 b3)).

(** [v.assign(data.begin() + off, data.begin() + off + len)]. *)
Definition slice (data : list Z) (off len : nat) : option (list Z) :=
  if (off + len <=? length data)%nat then Some (take len (drop off data)) else None.

(** The loop of lines 92-95. *)
Fixpoint read_csrcs (data : list Z) (offset : nat) (n : nat) : option (list Z) :=
  match n with
  | O => Some []
  | S n' =>
      v ← read_uint32_be data offset;
      rest ← read_csrcs data (offset + 4) n';
      Some (v :: rest)
  end.

(** The outcome of a parsing stage: [None] is a read outside the
    buffer, [Some None] is [std::nullopt]. *)
Definition parse_csrc (data : list Z) (count : Z)
  : option (option (list Z * nat)) :=
  if 0 <? count then
    let csrc_size := Z.to_nat (count * 4) in
    if (length data <? 12 + csrc_size)%nat then Some None
    else
      l ← read_csrcs data 12 (Z.to_nat count);
      Some (Some (l, (12 + csrc_size)%nat))
  else Some (Some ([], 12%nat)).

(** Lines 100-118.  [ext_length] is a [uint16_t]: the word count times
    four is reduced modulo 2^16. *)
Definition parse_extension (data : list Z) (offset : nat) (present : bool)
  : option (option (option RtpExtension * nat)) :=
  if present then
    if (length data <? offset + 4)%nat then Some None
    else
      prof ← read_uint16_be data offset;
      words ← read_uint16_be data (offset + 2);
      let ext_length := Z.to_nat (to_uint16 (words * 4)) in
      let offset' := (offset + 4)%nat in
      if (length data <? offset' + ext_length)%nat then Some None
      else
        bytes ← slice data offset' ext_length;
        Some (Some (Some (mkRtpExtension prof bytes), (offset' + ext_length)%nat))
  else Some (Some (None, offset)).

(** Lines 121-136. *)
Definition parse_payload (data : list Z) (offset : nat) (pad : bool)
  : option (list Z) :=
  if (offset <? length data)%nat then
    let payload_size := (length data - offset)%nat in
    if pad && (0 <? payload_size)%nat then
      padding_length ← data !! (length data - 1)%nat;
      slice data offset
            (if padding_length <=? Z.of_nat payload_size
             then Z.to_nat (Z.of_nat payload_size - padding_length)
             else payload_size)
    else slice data offset payload_size
  else Some [].

Definition parse (data : list Z) : option (option RtpPacket) :=
  if (length data <? 12)%nat then Some None
  else
    byte0 ← data !! 0%nat;
    let ver := Z.land (Z.shiftr byte0 6) 3 in
    let pad := negb (Z.land (Z.shiftr byte0 5) 1 =? 0) in
    let ext := negb (Z.land (Z.shiftr byte0 4) 1 =? 0) in
    let count := Z.land byte0 15 in
    if negb (ver =? 2) then Some None
    else
      byte1 ← data !! 1%nat;
      let mark := negb (Z.land (Z.shiftr byte1 7) 1 =? 0) in
      let pt := Z.land byte1 127 in
      seq_no ← read_uint16_be data 2;
      ts ← read_uint32_be data 4;
      src ← read_uint32_be data 8;
      c ← parse_csrc data count;
      match c with
      | None => Some None
      | Some (csrcs, offset) =>
          e ← parse_extension data offset ext;
          match e with
          | None => Some None
          | Some (extn, offset') =>
              pl ← parse_payload data offset' pad;
              Some (Some (mkRtpPacket
                            (mkRtpHeader ver pad ext count mark pt seq_no ts src csrcs)
                            extn pl))
          end
      end.

(** Big-endian bytes, each a [static_cast<uint8_t>] of a shift. *)
Definition be16 (v : Z) : list Z := [to_uint8 (Z.shiftr v 8); to_uint8 v].

Definition be32 (v : Z) : list Z :=
  [to_uint8 (Z.shiftr v 24); to_uint8 (Z.shiftr v 16); to_uint8 (Z.shiftr v 8);
   to_uint8 v].

(** One test of [while (result.size() % 4 != 0) result.push_back(0)]. *)
Definition pad_step (r : list Z) : list Z :=
  if (length r mod 4 =? 0)%nat then r else r ++ [0].

(** The loop pushes at most three bytes. *)
Definition pad_to_word (r : list Z) : list Z := Nat.iter 3 pad_step r.

Definition serialize (p : RtpPacket) : list Z :=
  let h := header_ p in
  let byte0 :=
    to_uint8 (Z.lor (Z.lor (Z.lor (Z.shiftl (version h) 6)
                                  (if padding h then 32 else 0))
                           (match extension_ p with Some _ => 16 | None => 0 end))
                    (Z.land (csrc_count h) 15)) in
  let byte1 :=
    to_uint8 (Z.lor (if marker h then 128 else 0) (Z.land (payload_type h) 127)) in
  let fixed :=
    [byte0; byte1] ++ be16 (sequence h) ++ be32 (timestamp h) ++ be32 (ssrc h) in
  let with_csrc := fixed ++ flat_map be32 (csrc h) in
  let with_ext :=
    match extension_ p with
    | Some e =>
        pad_to_word
          (with_csrc ++ be16 (profile e)
             ++ be16 (to_uint16 ((Z.of_nat (length (ext_data e)) + 3) / 4))
             ++ ext_data e)
    | None => with_csrc
    end in
  with_ext ++ payload_ p.

End Rtp.

(** ** STUN messages and client (stun_client.cpp, unnamed/part_011) *)

Module Stun.

(** [StunMessageType], by its [uint16_t] value. *)
Definition BINDING_REQUEST : Z := 0x0001.
Definition BINDING_RESPONSE : Z := 0x0101.
Definition BINDING_ERROR_RESPONSE : Z := 0x0111.
Definition BINDING_INDICATION : Z := 0x0011.

Record StunAttribute := mkStunAttribute {
  attr_type : Z;
  attr_value : list Z
}.

Record StunMessage := mkStunMessage {
  type_ : Z;                     (* StunMessageType *)
  transaction_id_ : list Z;      (* uint8_t data[12] *)
  attributes_ : list StunAttribute
}.

Definition parse (data : list Z) : option StunMessage :=
  if Z.of_nat (length data) <? 20 then None
  else
    let magic :=
      Z.lor (Z.lor (Z.lor (to_uint32 (Z.shiftl (data !!! 4%nat) 24))
                          (to_uint32 (Z.shiftl (data !!! 5%nat) 16)))
                   (to_uint32 (Z.shiftl (data !!! 6%nat) 8)))
            (to_uint32 (data !!! 7%nat)) in
    if negb (magic =? 0x2112A442) then None
    else
      Some (mkStunMessage
              (to_uint16 (Z.lor (Z.shiftl (data !!! 0%nat) 8) (data !!! 1%nat)))
              (take 12 (drop 8 data)) []).

(** [serialize] writes the 20-byte header; the length field is 0 and
    the attributes are not written. *)
Definition serialize (m : StunMessage) : list Z :=
  [to_uint8 (Z.shiftr (to_uint16 (type_ m)) 8); to_uint8 (type_ m);
   0; 0; 0x21; 0x12; 0xA4; 0x42]
  ++ transaction_id_ m.

Record StunResult := mkStunResult {
  success : bool;
  reflexive_address : SocketAddress;
  error_message : string;
  rtt : Z                        (* milliseconds *)
}.

(** [StunClient::Impl]; [results] lists the invocations of the pending
    callback and [sent] the calls of [socket->send_to]. *)
Record Impl := mkImpl {
  servers : list string;
  pending_callback : bool;
  pending_transaction : list Z;
  request_time : Z;              (* nanoseconds *)
  results : list StunResult;
  sent : list (list Z * SocketAddress)
}.

(** [std::isspace] in the "C" locale, and the value of a decimal digit. *)
Definition is_space (c : Ascii.ascii) : bool :=
  let n := Z.of_nat (Ascii.nat_of_ascii c) in
  (n =? 32) || ((9 <=? n) && (n <=? 13)).

Definition digit_of (c : Ascii.ascii) : option Z :=
  let n := Z.of_nat (Ascii.nat_of_ascii c) in
  if (48 <=? n) && (n <=? 57) then Some (n - 48) else None.

Fixpoint skip_spaces (t : string) : string :=
  match t with
  | String c rest => if is_space c then skip_spaces rest else t
  | EmptyString => t
  end.

(** The longest run of digits at the front, as a number; [acc] is
    [None] until a digit has been read. *)
Fixpoint read_digits (t : string) (acc : option Z) : option Z :=
  match t with
  | String c rest =>
      match digit_of c with
      | Some d => read_digits rest (Some (10 * default 0 acc + d))
      | None => acc
      end
  | EmptyString => acc
  end.

(** [std::stoi] in base 10: leading white space, an optional sign, then
    digits; what follows the digits is ignored.  [None] is a thrown
    [std::invalid_argument] (no digit) or [std::out_of_range] (the
    value is not an [int]). *)
Definition stoi (t : string) : option Z :=
  let t1 := skip_spaces t in
  let '(negative, t2) :=
    match t1 with
    | String c rest =>
        if Ascii.eqb c (Ascii.ascii_of_nat 43) then (false, rest)       (* + *)
        else if Ascii.eqb c (Ascii.ascii_of_nat 45) then (true, rest)   (* - *)
        else (false, t1)
    | EmptyString => (false, t1)
    end in
  match read_digits t2 None with
  | None => None
  | Some v =>
      let x := if negative then - v else v in
      if (- 2 ^ 31 <=? x) && (x <? 2 ^ 31) then Some x else None
  end.

(** [server.find(':')] with the two [substr] calls: the text before the
    first colon and, if there is a colon, the text after it. *)
Fixpoint split_at_colon (t : string) : string * option string :=
  match t with
  | EmptyString => (EmptyString, None)
  | String c rest =>
      if Ascii.eqb c (Ascii.ascii_of_nat 58) then (EmptyString, Some rest)
      else let '(host, port) := split_at_colon rest in (String c host, port)
  end.

(** Lines 158-165: the destination read from a server string; [None]
    when [std::stoi] throws. *)
Definition server_address (server : string) : option SocketAddress :=
  let '(host, port_text) := split_at_colon server in
  match port_text with
  | None => Some (mkSocketAddress host 3478)
  | Some t =>
      match stoi t with
      | Some v => Some (mkSocketAddress host (to_uint16 v))
      | None => None
      end
  end.

(** How a call ends: it returns, or an exception leaves it; either way
    with the state it has reached. *)
Inductive Outcome :=
| Returned (s : Impl)
| Threw (s : Impl).

Definition state_of (o : Outcome) : Impl :=
  match o with Returned s => s | Threw s => s end.

(** [get_reflexive_address]; [callback] says whether the callback passed
    is non-empty and [txid] is the transaction id the request draws from
    the random device.  The pending fields are written before the
    server string is read. *)
Definition get_reflexive_address (callback : bool) (txid : list Z) (now : Z)
    (s : Impl) : Outcome :=
  let request := mkStunMessage BINDING_REQUEST txid [] in
  let pending dgrams := mkImpl (servers s) callback txid now (results s) dgrams in
  match servers s with
  | [] => Returned (pending (sent s))
  | server :: _ =>
      match server_address server with
      | Some addr => Returned (pending (sent s ++ [(serialize request, addr)]))
      | None => Threw (pending (sent s))
      end
  end.

(** [get_xor_mapped_address] returns [nullopt]: the reflexive address
    of a result stays the default one. *)
Definition process_packet (data : list Z) (now : Z) (s : Impl) : bool * Impl :=
  match parse data with
  | None => (false, s)
  | Some msg =>
      if bool_decide (transaction_id_ msg = pending_transaction s) then
        let result :=
          if type_ msg =? BINDING_RESPONSE
          then mkStunResult true (mkSocketAddress "" 0) ""
                            (Z.quot (now - request_time s) 1000000)
          else mkStunResult false (mkSocketAddress "" 0) "Binding error response" 0 in
        (true,
         if pending_callback s
         then mkImpl (servers s) false (pending_transaction s) (request_time s)
                     (results s ++ [result]) (sent s)
         else s)
      else (false, s)
  end.

End Stun.

(** ** ICE agent: states, gathering and sending (core/src/ice_agent.cpp) *)

Module IceAgent.
Import Ice.

Inductive IceConnectionState :=
  CS_NEW | CS_CHECKING | CS_CONNECTED | CS_COMPLETED | CS_FAILED | CS_DISCONNECTED
| CS_CLOSED.

Inductive IceGatheringState := GS_NEW | GS_GATHERING | GS_COMPLETE.

(** One invocation of a callback of [IceAgentCallbacks]. *)
Inductive Event :=
| OnCandidate (c : IceCandidate)
| OnGatheringState (g : IceGatheringState)
| OnConnectionState (c : IceConnectionState).

(** [IceAgent::Impl].  [core] holds the candidate lists, the pairs, the
    [on_data] callback and its trace; [socket] is the local address of
    the bound socket, or [None] when [UdpSocket::create] gave none;
    [datagrams] lists the calls of [socket->send_to]. *)
Record Agent := mkAgent {
  core : Ice.Impl;
  gather_host_candidates : bool;
  socket : option SocketAddress;
  on_candidate : bool;
  on_gathering_state_change : bool;
  on_connection_state_change : bool;
  selected_pair : option IceCandidatePair;
  connection_state : IceConnectionState;
  gathering_state : IceGatheringState;
  candidates_gathered : Z;
  socket_closed : bool;
  events : list Event;
  datagrams : list (list Z * SocketAddress)
}.

Definition initial (r : IceRole) (gather_host : bool)
    (sock : option SocketAddress) : Agent :=
  mkAgent (Ice.mkImpl r false [] [] [] 0 []) gather_host sock
          false false false None CS_NEW GS_NEW 0 false [] [].

Definition with_core (a : Agent) (c : Ice.Impl) : Agent :=
  mkAgent c (gather_host_candidates a) (socket a) (on_candidate a)
          (on_gathering_state_change a) (on_connection_state_change a)
          (selected_pair a) (connection_state a) (gathering_state a)
          (candidates_gathered a) (socket_closed a) (events a) (datagrams a).

Definition set_callbacks (cand gath conn data : bool) (a : Agent) : Agent :=
  let c := core a in
  mkAgent (Ice.mkImpl (role c) data (local_candidates c) (remote_candidates c)
                      (candidate_pairs c) (connectivity_checks_received c)
                      (delivered c))
          (gather_host_candidates a) (socket a) cand gath conn
          (selected_pair a) (connection_state a) (gathering_state a)
          (candidates_gathered a) (socket_closed a) (events a) (datagrams a).

Definition gather_candidates (a : Agent) : Agent :=
  let ev1 := if on_gathering_state_change a
             then events a ++ [OnGatheringState GS_GATHERING] else events a in
  let c := core a in
  let '(c', gathered, ev2) :=
    match gather_host_candidates a, socket a with
    | true, Some addr =>
        let host := mkIceCandidate "1" 1 "udp" (calculate_priority HOST 65535 1)
                                   addr HOST (mkSocketAddress "" 0) in
        (Ice.mkImpl (role c) (on_data c) (local_candidates c ++ [host])
                    (remote_candidates c) (candidate_pairs c)
                    (connectivity_checks_received c) (delivered c),
         to_uint64 (candidates_gathered a + 1),
         if on_candidate a then ev1 ++ [OnCandidate host] else ev1)
    | _, _ => (c, candidates_gathered a, ev1)
    end in
  mkAgent c' (gather_host_candidates a) (socket a) (on_candidate a)
          (on_gathering_state_change a) (on_connection_state_change a)
          (selected_pair a) (connection_state a) GS_COMPLETE gathered
          (socket_closed a)
          (if on_gathering_state_change a
           then ev2 ++ [OnGatheringState GS_COMPLETE] else ev2)
          (datagrams a).

Definition add_remote_candidate (candidate : IceCandidate) (a : Agent) : Agent :=
  with_core a (Ice.add_remote_candidate candidate (core a)).

Definition set_connection_state (st : IceConnectionState) (closing : bool)
    (a : Agent) : Agent :=
  mkAgent (core a) (gather_host_candidates a) (socket a) (on_candidate a)
          (on_gathering_state_change a) (on_connection_state_change a)
          (selected_pair a) st (gathering_state a) (candidates_gathered a)
          (if closing then match socket a with Some _ => true | None => socket_closed a end
           else socket_closed a)
          (if on_connection_state_change a
           then events a ++ [OnConnectionState st] else events a)
          (datagrams a).

Definition set_remote_candidates_complete (a : Agent) : Agent :=
  set_connection_state CS_CHECKING false a.

Definition close (a : Agent) : Agent := set_connection_state CS_CLOSED true a.

(** [send]; [outcome] is what [socket->send_to] reports: [None] for an
    error, [Some n] for [n] bytes sent. *)
Definition send (data : list Z) (outcome : option Z) (a : Agent) : bool * Agent :=
  match selected_pair a, connection_state a with
  | Some sel, CS_CONNECTED =>
      let sel' :=
        match outcome with
        | Some n =>
            mkIceCandidatePair (local sel) (remote sel) (pair_priority sel)
                               (state sel) (rtt sel)
                               (to_uint64 (bytes_sent sel + n)) (bytes_received sel)
        | None => sel
        end in
      (match outcome with Some _ => true | None => false end,
       mkAgent (core a) (gather_host_candidates a) (socket a) (on_candidate a)
               (on_gathering_state_change a) (on_connection_state_change a)
               (Some sel') (connection_state a) (gathering_state a)
               (candidates_gathered a) (socket_closed a) (events a)
               (datagrams a ++ [(data, address (remote sel))]))
  | _, _ => (false, a)
  end.

Definition process_packet (data : list Z) (source : SocketAddress) (a : Agent)
  : bool * Agent :=
  let r := Ice.process_packet data source (core a) in
  (fst r, with_core a (snd r)).

(** [process] has an empty body. *)
Definition process (a : Agent) : Agent := a.

Inductive Call :=
| SetCallbacks (cand gath conn data : bool)
| GatherCandidates
| AddRemoteCandidate (c : IceCandidate)
| SetRemoteCandidatesComplete
| Send (data : list Z) (outcome : option Z)
| ProcessPacket (data : list Z) (source : SocketAddress)
| Process
| Close.

(** One call of the public interface: the new state and the value
    [send] returned, if the call was a [send]. *)
Definition step (a : Agent) (c : Call) : Agent * option bool :=
  match c with
  | SetCallbacks cand gath conn data => (set_callbacks cand gath conn data a, None)
  | GatherCandidates => (gather_candidates a, None)
  | AddRemoteCandidate cand => (add_remote_candidate cand a, None)
  | SetRemoteCandidatesComplete => (set_remote_candidates_complete a, None)
  | Send data outcome => let r := send data outcome a in (snd r, Some (fst r))
  | ProcessPacket data source => (snd (process_packet data source a), None)
  | Process => (process a, None)
  | Close => (close a, None)
  end.

Fixpoint run (a : Agent) (calls : list Call) : Agent * list bool :=
  match calls with
  | [] => (a, [])
  | c :: rest =>
      let '(a1, r) := step a c in
      let '(a2, rs) := run a1 rest in
      (a2, match r with Some b => b :: rs | None => rs end)
  end.

End IceAgent.

(** * Properties *)

(** ** Arithmetic of the fixed-width helpers *)

Lemma to_uint64_id (x : Z) : 0 <= x < 2 ^ 64 -> to_uint64 x = x.
Proof. intros Hx. unfold to_uint64. apply Z.mod_small. exact Hx. Qed.

Lemma to_uint16_id (x : Z) : 0 <= x < 2 ^ 16 -> to_uint16 x = x.
Proof. intros Hx. unfold to_uint16. apply Z.mod_small. exact Hx. Qed.

Lemma to_uint64_range (x : Z) : 0 <= to_uint64 x < 2 ^ 64.
Proof. unfold to_uint64. apply Z.mod_pos_bound. lia. Qed.

Lemma to_uint64_le (x : Z) : 0 <= x -> to_uint64 x <= x.
Proof. intros Hx. unfold to_uint64. apply Z.mod_le; lia. Qed.

Lemma to_int32_id (x : Z) : - 2 ^ 31 <= x < 2 ^ 31 -> to_int32 x = x.
Proof. intros Hx. unfold to_int32. rewrite Z.mod_small; lia. Qed.

Lemma to_int32_add_l (x y : Z) : to_int32 (to_int32 x + y) = to_int32 (x + y).
Proof.
  unfold to_int32. f_equal.
  replace ((x + 2 ^ 31) mod 2 ^ 32 - 2 ^ 31 + y + 2 ^ 31)
    with ((x + 2 ^ 31) mod 2 ^ 32 + y) by ring.
  rewrite Zplus_mod_idemp_l. f_equal. ring.
Qed.

Lemma to_int32_add_r (x y : Z) : to_int32 (x + to_int32 y) = to_int32 (x + y).
Proof. rewrite (Z.add_comm x), to_int32_add_l. f_equal. ring. Qed.

Lemma byte_of_shift (x k : Z) :
  0 <= k -> Z.land (Z.shiftr x k) 255 = (x / 2 ^ k) mod 256.
Proof.
  intros Hk. change 255 with (Z.ones 8).
  rewrite Z.land_ones by lia. rewrite Z.shiftr_div_pow2 by lia. reflexivity.
Qed.

Lemma be_bytes_of_uint32 (x : Z) :
  0 <= x < 2 ^ 32 ->
  be_combine [Z.land (Z.shiftr x 24) 255; Z.land (Z.shiftr x 16) 255;
              Z.land (Z.shiftr x 8) 255; Z.land x 255] = x.
Proof.
  intros Hx.
  rewrite !byte_of_shift by lia.
  replace (Z.land x 255) with ((x / 2 ^ 0) mod 256)
    by (rewrite <- byte_of_shift by lia; rewrite Z.shiftr_0_r; reflexivity).
  cbn [be_combine length].
  change (2 ^ 0) with 1. rewrite Z.div_1_r.
  change (2 ^ (8 * Z.of_nat 3)) with 16777216.
  change (2 ^ (8 * Z.of_nat 2)) with 65536.
  change (2 ^ (8 * Z.of_nat 1)) with 256.
  change (2 ^ (8 * Z.of_nat 0)) with 1.
  change (2 ^ 24) with 16777216. change (2 ^ 16) with 65536.
  change (2 ^ 8) with 256. change (2 ^ 32) with 4294967296 in Hx.
  pose proof (Z.div_mod x 256 ltac:(lia)) as E0.
  pose proof (Z.div_mod (x / 256) 256 ltac:(lia)) as E1.
  pose proof (Z.div_mod (x / 256 / 256) 256 ltac:(lia)) as E2.
  rewrite Z.div_div in E1 by lia.
  rewrite !Z.div_div in E2 by lia.
  change (256 * 256) with 65536 in *.
  change (65536 * 256) with 16777216 in *.
  assert (H3 : x / 16777216 < 256) by (apply Z.div_lt_upper_bound; lia).
  assert (H4 : 0 <= x / 16777216) by (apply Z.div_pos; lia).
  rewrite (Z.mod_small (x / 16777216) 256) by lia.
  lia.
Qed.

(** ** RTP forwarder *)

Module ForwarderProofs.
Import Forwarder.

Lemma forward_rule_callback stream packet s rule :
  forward_callback (forward_rule stream packet s rule) = forward_callback s.
Proof.
  unfold forward_rule.
  repeat match goal with
         | |- context [if ?b then _ else _] => destruct b eqn:?
         end; cbn [forward_callback]; congruence.
Qed.

Lemma forward_rules_callback stream packet rules s :
  forward_callback (fold_left (forward_rule stream packet) rules s)
  = forward_callback s.
Proof.
  revert s. induction rules as [|r rules IH]; intros s; [reflexivity|].
  cbn [fold_left]. rewrite IH. apply forward_rule_callback.
Qed.

Lemma forward_rule_sent_grows stream packet s rule :
  exists more, sent (forward_rule stream packet s rule) = sent s ++ more.
Proof.
  unfold forward_rule.
  repeat match goal with
         | |- context [if ?b then _ else _] => destruct b eqn:?
         end; cbn [sent]; eauto; exists []; rewrite app_nil_r; reflexivity.
Qed.

Lemma forward_rules_sent_grows stream packet rules s :
  exists more,
    sent (fold_left (forward_rule stream packet) rules s) = sent s ++ more.
Proof.
  revert s. induction rules as [|r rules IH]; intros s.
  - exists []. cbn. rewrite app_nil_r. reflexivity.
  - cbn [fold_left].
    destruct (IH (forward_rule stream packet s r)) as [m1 E1].
    destruct (forward_rule_sent_grows stream packet s r) as [m0 E0].
    exists (m0 ++ m1). rewrite E1, E0, app_assoc. reflexivity.
Qed.

Lemma rewrite_ssrc_length packet x :
  length (rewrite_ssrc packet x) = length packet.
Proof.
  unfold rewrite_ssrc. destruct (12 <=? Z.of_nat (length packet)).
  - rewrite !length_insert. reflexivity.
  - reflexivity.
Qed.

Lemma rewrite_ssrc_outside packet x (i : nat) :
  (i < 8 \/ 12 <= i)%nat -> rewrite_ssrc packet x !! i = packet !! i.
Proof.
  intros Hi. unfold rewrite_ssrc.
  destruct (12 <=? Z.of_nat (length packet)); [|reflexivity].
  rewrite !list_lookup_insert_ne by lia. reflexivity.
Qed.

Lemma rewrite_ssrc_field packet x :
  (12 <= length packet)%nat ->
  take 4 (drop 8 (rewrite_ssrc packet x))
  = [Z.land (Z.shiftr x 24) 255; Z.land (Z.shiftr x 16) 255;
     Z.land (Z.shiftr x 8) 255; Z.land x 255].
Proof.
  intros Hlen. unfold rewrite_ssrc.
  destruct (Z.leb_spec 12 (Z.of_nat (length packet))) as [_|Hlt]; [|lia].
  do 12 (destruct packet as [|? packet]; [cbn in Hlen; lia|]).
  reflexivity.
Qed.

(** C1.  When a rule that is delivered (callback installed, rule active,
    layer filter passed) carries a non-zero [rewritten_ssrc] different
    from the stream's SSRC and the packet has at least 12 bytes, the
    bytes handed to the send sink for that rule agree with the packet at
    positions 0..7 and 12..end, and positions 8..11 read, big-endian, as
    [rewritten_ssrc]. *)
Theorem ssrc_rewrite_bit_exact
    (stream : PublisherStream) (packet : list Z) (s : Impl)
    (pre post : list ForwardingRule) (rule : ForwardingRule) :
  subscribers stream = pre ++ rule :: post ->
  forward_callback s = true ->
  is_active rule = true ->
  (preferred_simulcast_layer rule < 0
   \/ simulcast_layer (info stream) < 0
   \/ simulcast_layer (info stream) = preferred_simulcast_layer rule) ->
  rewritten_ssrc rule <> 0 ->
  rewritten_ssrc rule <> ssrc (info stream) ->
  0 <= rewritten_ssrc rule < 2 ^ 32 ->
  (12 <= length packet)%nat ->
  let before := fold_left (forward_rule stream packet) pre s in
  exists bytes later,
    sent (forward_packet stream packet s)
    = sent before
      ++ mkSinkCall (subscriber_id rule) bytes (destination rule) :: later
    /\ later
       = drop (S (length (sent before)))
              (sent (fold_left (forward_rule stream packet) post
                       (forward_rule stream packet before rule)))
    /\ length bytes = length packet
    /\ (forall i : nat, (i < 8 \/ 12 <= i)%nat -> bytes !! i = packet !! i)
    /\ be_combine (take 4 (drop 8 bytes)) = rewritten_ssrc rule.
Proof.
  intros Hsubs Hcb Hact Hlayer Hnz Hne Hrange Hlen before.
  assert (Hcb' : forward_callback before = true).
  { subst before. rewrite forward_rules_callback. exact Hcb. }
  assert (Hstep : sent (forward_rule stream packet before rule)
                  = sent before
                    ++ [mkSinkCall (subscriber_id rule)
                          (rewrite_ssrc packet (rewritten_ssrc rule))
                          (destination rule)]).
  { unfold forward_rule. rewrite Hact, Hcb'. cbn [negb].
    replace ((0 <=? preferred_simulcast_layer rule)
             && (0 <=? simulcast_layer (info stream))
             && negb (simulcast_layer (info stream)
                      =? preferred_simulcast_layer rule)) with false.
    2:{ symmetry. destruct Hlayer as [Hl|[Hl|Hl]].
        - replace (0 <=? preferred_simulcast_layer rule) with false
            by (symmetry; apply Z.leb_gt; lia). reflexivity.
        - replace (0 <=? simulcast_layer (info stream)) with false
            by (symmetry; apply Z.leb_gt; lia).
          rewrite andb_false_r. reflexivity.
        - rewrite Hl, Z.eqb_refl. cbn [negb]. rewrite andb_false_r. reflexivity. }
    replace (rewritten_ssrc rule =? 0) with false
      by (symmetry; apply Z.eqb_neq; exact Hnz).
    replace (rewritten_ssrc rule =? ssrc (info stream)) with false
      by (symmetry; apply Z.eqb_neq; exact Hne).
    reflexivity. }
  destruct (forward_rules_sent_grows stream packet post
              (forward_rule stream packet before rule)) as [more Hmore].
  exists (rewrite_ssrc packet (rewritten_ssrc rule)), more.
  assert (Hall : sent (forward_packet stream packet s)
                 = sent before
                   ++ mkSinkCall (subscriber_id rule)
                        (rewrite_ssrc packet (rewritten_ssrc rule))
                        (destination rule) :: more).
  { unfold forward_packet. rewrite Hsubs, fold_left_app. cbn [fold_left].
    fold before. rewrite Hmore, Hstep, <- app_assoc. reflexivity. }
  split; [exact Hall|].
  split.
  { rewrite Hmore, Hstep.
    rewrite drop_app_length'; [reflexivity|].
    rewrite length_app. cbn. lia. }
  split; [apply rewrite_ssrc_length|].
  split; [intros i Hi; apply rewrite_ssrc_outside; exact Hi|].
  rewrite rewrite_ssrc_field by exact Hlen.
  apply be_bytes_of_uint32. exact Hrange.
Qed.

(** A stream with SSRC 0xAABBCCDD and one subscriber that asks for
    SSRC 0x11223344, and a 16-byte RTP packet. *)
Definition demo_rule : ForwardingRule :=
  mkForwardingRule "S" (mkSocketAddress "10.0.0.2" 5000) 0x11223344 (-1) true.

Definition demo_stream : PublisherStream :=
  mkPublisherStream "P" "audio"
    (mkRtpStreamInfo 0xAABBCCDD 111 true (-1) "opus") [demo_rule].

Definition demo_packet : list Z :=
  [0x80; 111; 0; 1; 0; 0; 0; 160; 0xAA; 0xBB; 0xCC; 0xDD; 1; 2; 3; 4].

Lemma ssrc_rewrite_bit_exact_witness :
  exists bytes later,
    sent (forward_packet demo_stream demo_packet (set_forward_callback initial))
    = [] ++ mkSinkCall "S" bytes (mkSocketAddress "10.0.0.2" 5000) :: later
    /\ later = []
    /\ length bytes = 16%nat
    /\ (forall i : nat, (i < 8 \/ 12 <= i)%nat -> bytes !! i = demo_packet !! i)
    /\ be_combine (take 4 (drop 8 bytes)) = 0x11223344.
Proof.
  apply (ssrc_rewrite_bit_exact demo_stream demo_packet
           (set_forward_callback initial) [] [] demo_rule).
  - reflexivity.
  - reflexivity.
  - reflexivity.
  - left. cbn. lia.
  - cbn. lia.
  - cbn. lia.
  - cbn. lia.
  - cbn. lia.
Defined.

(** *** [add_publisher] on an SSRC that is already registered *)

Lemma add_publisher_streams pid sid i s :
  ssrc_to_stream (add_publisher pid sid i s)
  = <[ssrc i := mkPublisherStream pid sid i []]> (ssrc_to_stream s).
Proof. reflexivity. Qed.

(** C9, as amended.  [add_publisher] has no failure result and makes no
    collision test: whatever was registered under the SSRC is replaced
    by the new registration with an empty rule list, the SSRC is
    appended to the publisher's list, every other SSRC keeps its entry,
    and no packet is sent. *)
Theorem add_publisher_replaces (pid sid : string) (i : RtpStreamInfo) (s : Impl) :
  let s' := add_publisher pid sid i s in
  ssrc_to_stream s' !! ssrc i = Some (mkPublisherStream pid sid i [])
  /\ (forall other, other <> ssrc i ->
        ssrc_to_stream s' !! other = ssrc_to_stream s !! other)
  /\ publisher_ssrcs s' !! pid
     = Some (default [] (publisher_ssrcs s !! pid) ++ [ssrc i])
  /\ active_publishers (stats s') = Z.of_nat (size (publisher_ssrcs s'))
  /\ sent s' = sent s.
Proof.
  cbn zeta. rewrite add_publisher_streams. repeat split.
  - apply lookup_insert_eq.
  - intros other Hne. apply lookup_insert_ne. congruence.
  - unfold add_publisher. cbn [publisher_ssrcs]. apply lookup_insert_eq.
Qed.

(** A forwarder where publisher "alice" holds SSRC 0xAABBCCDD with one
    forwarding rule, and a second registration of the same SSRC. *)
Definition collision_before : Impl :=
  add_subscription "alice" "bob" demo_rule
    (add_publisher "alice" "cam" (mkRtpStreamInfo 0xAABBCCDD 96 false (-1) "vp8")
       initial).

Definition collision_after : Impl :=
  add_publisher "carol" "mic" (mkRtpStreamInfo 0xAABBCCDD 111 true (-1) "opus")
    collision_before.

(** C9 fails as stated: the colliding registration is accepted, and the
    entry that was there, with its forwarding rule, is gone. *)
Lemma add_publisher_collision_counterexample :
  (exists st, ssrc_to_stream collision_before !! 0xAABBCCDD = Some st
              /\ publisher_id st = "alice"
              /\ length (subscribers st) = 1%nat)
  /\ (exists st, ssrc_to_stream collision_after !! 0xAABBCCDD = Some st
                 /\ publisher_id st = "carol"
                 /\ subscribers st = [])
  /\ ssrc_to_stream collision_after !! 0xAABBCCDD
     <> ssrc_to_stream collision_before !! 0xAABBCCDD.
Proof.
  split; [|split].
  - eexists. split; [vm_compute; reflexivity|]. split; reflexivity.
  - eexists. split; [vm_compute; reflexivity|]. split; reflexivity.
  - vm_compute. discriminate.
Qed.

(** *** [remove_subscription] *)

Lemma drop_rules_absent sub st :
  Forall (fun r => subscriber_id r <> sub) (subscribers st) ->
  drop_rules sub st = st.
Proof.
  intros Hall. destruct st as [p sid i rules]. unfold drop_rules. cbn in *.
  f_equal. induction Hall as [|r rules Hr _ IH]; [reflexivity|].
  rewrite filter_cons_True by exact Hr. f_equal. exact IH.
Qed.

Lemma drop_rules_fold_absent sub ssrcs (m : gmap Z PublisherStream) :
  (forall k st, m !! k = Some st ->
                Forall (fun r => subscriber_id r <> sub) (subscribers st)) ->
  fold_left (fun m x => alter (drop_rules sub) x m) ssrcs m = m.
Proof.
  intros Hm. induction ssrcs as [|x ssrcs IH]; [reflexivity|].
  cbn [fold_left].
  assert (E : alter (drop_rules sub) x m = m).
  { apply map_eq. intros k. destruct (decide (x = k)) as [->|Hne].
    - rewrite lookup_alter_eq. destruct (m !! k) as [st|] eqn:Ek; [|reflexivity].
      cbn. f_equal. apply drop_rules_absent. eapply Hm. exact Ek.
    - rewrite lookup_alter_ne by exact Hne. reflexivity. }
  rewrite E. exact IH.
Qed.

(** C10.  [remove_subscription] on an unknown publisher leaves the whole
    state, statistics included, as it was.  On a known publisher the
    [size_t] counter [active_subscribers] goes down by one (modulo 2^64,
    so from 0 it goes to 2^64 - 1), and this also when no stream of the
    publisher held a rule for the subscriber, in which case the stream
    table is unchanged. *)
Theorem remove_subscription_counter (pid sub : string) (s : Impl) :
  (publisher_ssrcs s !! pid = None -> remove_subscription pid sub s = s)
  /\ (is_Some (publisher_ssrcs s !! pid) ->
      let s' := remove_subscription pid sub s in
      active_subscribers (stats s') = to_uint64 (active_subscribers (stats s) - 1)
      /\ (1 <= active_subscribers (stats s) <= 2 ^ 64 ->
          active_subscribers (stats s') = active_subscribers (stats s) - 1)
      /\ ((forall k st, ssrc_to_stream s !! k = Some st ->
             Forall (fun r => subscriber_id r <> sub) (subscribers st)) ->
          ssrc_to_stream s' = ssrc_to_stream s)).
Proof.
  split.
  - intros Hnone. unfold remove_subscription. rewrite Hnone. reflexivity.
  - intros [ssrcs Hsome]. cbn zeta. unfold remove_subscription.
    rewrite Hsome. cbn [stats ssrc_to_stream set_active_subscribers active_subscribers].
    split; [reflexivity|]. split.
    + intros Hrange. apply to_uint64_id. lia.
    + intros Habsent. apply drop_rules_fold_absent. exact Habsent.
Qed.

(** A forwarder with one publisher and no subscription at all. *)
Definition lonely_publisher : Impl :=
  add_publisher "alice" "cam" (mkRtpStreamInfo 0xAABBCCDD 96 false (-1) "vp8")
    initial.

Lemma remove_subscription_counter_witness :
  remove_subscription "nobody" "bob" collision_before = collision_before
  /\ active_subscribers (stats (remove_subscription "alice" "zed" collision_before))
     = active_subscribers (stats collision_before) - 1
  /\ active_subscribers (stats (remove_subscription "alice" "bob" lonely_publisher))
     = to_uint64 (0 - 1).
Proof.
  split; [|split].
  - apply (proj1 (remove_subscription_counter "nobody" "bob" collision_before)).
    vm_compute. reflexivity.
  - apply (proj2 (remove_subscription_counter "alice" "zed" collision_before)).
    + vm_compute. eauto.
    + vm_compute. split; discriminate.
  - apply (proj2 (remove_subscription_counter "alice" "bob" lonely_publisher)).
    vm_compute. eauto.
Defined.

End ForwarderProofs.

(** ** Subscription manager *)

Module SubscriptionProofs.
Import Subscriptions.

(** The layer test on a table entry whose [int] product does not
    overflow. *)
Lemma layer_fits_spec (available : Z) (l : SimulcastLayerInfo) :
  0 <= bitrate_kbps l * 1000 < 2 ^ 31 ->
  layer_fits available l = true
  <-> is_active l = true /\ bitrate_kbps l * 1000 <= available.
Proof.
  intros Hr. unfold layer_fits.
  rewrite to_int32_id by lia. rewrite to_uint64_id by lia.
  rewrite andb_true_iff, Z.leb_le. reflexivity.
Qed.

(** The scan returns the index of the last fitting entry, or keeps the
    value it started from. *)
Lemma scan_last_fit (available : Z) (layers : list SimulcastLayerInfo) (start : Z) :
  let scan :=
    fold_left (fun best layer =>
                 if layer_fits available layer then layer_index layer else best)
              layers start in
  (Forall (fun l => layer_fits available l = false) layers /\ scan = start)
  \/ (exists pre l post,
        layers = pre ++ l :: post
        /\ layer_fits available l = true
        /\ Forall (fun l' => layer_fits available l' = false) post
        /\ scan = layer_index l).
Proof.
  cbn zeta. revert start.
  induction layers as [|x layers IH] using rev_ind; intros start.
  - left. split; [constructor|reflexivity].
  - rewrite fold_left_app. cbn [fold_left].
    destruct (layer_fits available x) eqn:Ex.
    + right. exists layers, x, []. repeat split; auto.
    + destruct (IH start) as [[Hall Hs]|(pre & l & post & -> & Hl & Hpost & Hs)].
      * left. split; [|exact Hs].
        apply Forall_app. split; [exact Hall|]. constructor; [exact Ex|constructor].
      * right. exists pre, l, (post ++ [x]).
        rewrite <- app_assoc. cbn [app]. repeat split; auto.
        apply Forall_app. split; [exact Hpost|]. constructor; [exact Ex|constructor].
Qed.

(** C3, as amended.  With a recorded estimate and a layer table whose
    bitrates are representable (no [int] overflow in [bitrate_kbps *
    1000]): if some active layer fits the estimate, the result is the
    index of the last such layer in table order, and that layer's
    bitrate is within the estimate; if none fits, the result is 0
    whatever layer 0 costs.  Without a recorded estimate the result is 2
    and without a table it is 0. *)
Theorem select_best_layer_amended
    (s : Impl) (subscriber : string) (key : string * string) :
  (bandwidth_info s !! subscriber = None ->
   select_best_layer s subscriber key = 2)
  /\ (forall bw, bandwidth_info s !! subscriber = Some bw ->
        stream_layers s !! key = None ->
        select_best_layer s subscriber key = 0)
  /\ (forall bw layers,
        bandwidth_info s !! subscriber = Some bw ->
        stream_layers s !! key = Some layers ->
        Forall (fun l => 0 <= bitrate_kbps l * 1000 < 2 ^ 31) layers ->
        (Forall (fun l => ~ (is_active l = true
                             /\ bitrate_kbps l * 1000 <= estimated_bps bw)) layers
         /\ select_best_layer s subscriber key = 0)
        \/ (exists pre l post,
              layers = pre ++ l :: post
              /\ is_active l = true
              /\ bitrate_kbps l * 1000 <= estimated_bps bw
              /\ Forall (fun l' => ~ (is_active l' = true
                                      /\ bitrate_kbps l' * 1000 <= estimated_bps bw))
                        post
              /\ select_best_layer s subscriber key = layer_index l)).
Proof.
  unfold select_best_layer. split; [|split].
  - intros ->. reflexivity.
  - intros bw -> ->. reflexivity.
  - intros bw layers -> -> Hrep.
    assert (Hno : forall ls,
      Forall (fun l => 0 <= bitrate_kbps l * 1000 < 2 ^ 31) ls ->
      Forall (fun l => layer_fits (estimated_bps bw) l = false) ls ->
      Forall (fun l => ~ (is_active l = true
                          /\ bitrate_kbps l * 1000 <= estimated_bps bw)) ls).
    { intros ls Hr Hf. rewrite Forall_forall in *. intros l Hin Hfit.
      apply (layer_fits_spec (estimated_bps bw) l (Hr l Hin)) in Hfit.
      rewrite (Hf l Hin) in Hfit. discriminate. }
    destruct (scan_last_fit (estimated_bps bw) layers 0)
      as [[Hall Hs]|(pre & l & post & E & Hl & Hpost & Hs)].
    + left. split; [apply Hno; assumption|exact Hs].
    + right. exists pre, l, post. subst layers.
      apply Forall_app in Hrep as [_ Hrep].
      apply Forall_cons in Hrep as [Hrl Hrpost].
      apply (layer_fits_spec (estimated_bps bw) l Hrl) in Hl as [Ha Hb].
      repeat split; auto.
Qed.

(** Three layers at 150, 500 and 1500 kbit/s, all active. *)
Definition three_layers : list SimulcastLayerInfo :=
  [mkLayer 0 320 180 15 150 true; mkLayer 1 640 360 30 500 true;
   mkLayer 2 1280 720 30 1500 true].

Definition with_estimate (bps : Z) (loss : float32) : Impl :=
  update_bandwidth "sub" (mkBandwidthInfo bps loss f32_zero)
    (set_available_layers "pub" "cam" three_layers
       (subscribe "sub" "pub" "cam" (-1) initial)).

Lemma select_best_layer_amended_witness :
  (Forall (fun l => ~ (is_active l = true /\ bitrate_kbps l * 1000 <= 800000))
          three_layers
   /\ select_best_layer (with_estimate 800000 f32_zero) "sub" ("pub", "cam") = 0)
  \/ (exists pre l post,
        three_layers = pre ++ l :: post
        /\ is_active l = true
        /\ bitrate_kbps l * 1000 <= 800000
        /\ Forall (fun l' => ~ (is_active l' = true
                                /\ bitrate_kbps l' * 1000 <= 800000)) post
        /\ select_best_layer (with_estimate 800000 f32_zero) "sub" ("pub", "cam")
           = layer_index l).
Proof.
  apply (proj2 (proj2 (select_best_layer_amended
                         (with_estimate 800000 f32_zero) "sub" ("pub", "cam")))
           (mkBandwidthInfo 800000 f32_zero f32_zero) three_layers).
  - vm_compute. reflexivity.
  - vm_compute. reflexivity.
  - repeat constructor; cbn; lia.
Defined.

(** C3 fails as stated: with an estimate of 100 kbit/s no layer fits,
    layer 0 is returned, and layer 0 costs 150 kbit/s; [process] then
    makes it the current layer. *)
Lemma select_best_layer_counterexample :
  let s := with_estimate 100000 f32_zero in
  bandwidth_info s !! "sub" = Some (mkBandwidthInfo 100000 f32_zero f32_zero)
  /\ stream_layers s !! ("pub", "cam") = Some three_layers
  /\ select_best_layer s "sub" ("pub", "cam") = 0
  /\ three_layers !! 0%nat = Some (mkLayer 0 320 180 15 150 true)
  /\ 100000 < 150 * 1000
  /\ current_layer <$> subscriptions (process s) !! ("sub", "pub", "cam") = Some 0.
Proof.
  cbn zeta. repeat split; try (vm_compute; reflexivity).
Qed.

(** *** [process] *)

Lemma set_current_layer_same v : set_current_layer v (current_layer v) = v.
Proof. destruct v. reflexivity. Qed.

Lemma process_entry_layer s key v :
  fst (process_entry s key v)
  = if is_paused v || (0 <=? target_layer v) then v
    else set_current_layer v
           (select_best_layer s (fst (fst key)) (snd (fst key), snd key)).
Proof.
  unfold process_entry. destruct key as [[subscriber publisher] stream].
  destruct (is_paused v || (0 <=? target_layer v)); [reflexivity|].
  cbn [fst snd].
  destruct (Z.eqb_spec (select_best_layer s subscriber (publisher, stream))
                       (current_layer v)) as [E|E]; cbn [negb fst].
  - rewrite E. symmetry. apply set_current_layer_same.
  - reflexivity.
Qed.

Lemma select_best_layer_ignores_loss s who bw loss' rtt' subscriber key :
  bandwidth_info s !! who = Some bw ->
  select_best_layer
    (update_bandwidth who (mkBandwidthInfo (estimated_bps bw) loss' rtt') s)
    subscriber key
  = select_best_layer s subscriber key.
Proof.
  intros Hbw. unfold select_best_layer, update_bandwidth.
  cbn [bandwidth_info stream_layers].
  destruct (decide (who = subscriber)) as [->|Hne].
  - rewrite lookup_insert_eq, Hbw. reflexivity.
  - rewrite lookup_insert_ne by exact Hne. reflexivity.
Qed.

(** C4, as amended.  The manager keeps no history and has no
    thresholds: one [process] call sets the current layer of every
    unpaused automatic subscription to what [select_best_layer] returns
    at that moment, upwards or downwards, and leaves paused or manually
    pinned subscriptions alone; the reported packet loss and round-trip
    time do not enter the choice. *)
Theorem process_follows_selection (s : Impl) :
  (forall key v,
     subscriptions s !! key = Some v ->
     subscriptions (process s) !! key
     = Some (if is_paused v || (0 <=? target_layer v) then v
             else set_current_layer v
                    (select_best_layer s (fst (fst key)) (snd (fst key), snd key))))
  /\ (forall key, subscriptions s !! key = None ->
                  subscriptions (process s) !! key = None)
  /\ (forall who bw loss' rtt' subscriber key,
        bandwidth_info s !! who = Some bw ->
        select_best_layer
          (update_bandwidth who (mkBandwidthInfo (estimated_bps bw) loss' rtt') s)
          subscriber key
        = select_best_layer s subscriber key).
Proof.
  split; [|split].
  - intros key v Hv. unfold process. cbn [subscriptions].
    rewrite map_lookup_imap, Hv. cbn. rewrite process_entry_layer. reflexivity.
  - intros key Hv. unfold process. cbn [subscriptions].
    rewrite map_lookup_imap, Hv. reflexivity.
  - intros. apply select_best_layer_ignores_loss. assumption.
Qed.

Lemma process_follows_selection_witness :
  subscriptions (process (with_estimate 800000 f32_zero)) !! ("sub", "pub", "cam")
  = Some (mkSubscription "pub" "cam" (-1) 1 false 0).
Proof.
  rewrite (proj1 (process_follows_selection (with_estimate 800000 f32_zero))
             ("sub", "pub", "cam") (mkSubscription "pub" "cam" (-1) 2 false 0)).
  - vm_compute. reflexivity.
  - vm_compute. reflexivity.
Defined.

(** A subscriber settled on layer 0 at 200 kbit/s whose estimate then
    rises to exactly 500 kbit/s, and one settled on layer 2 at 10 Mbit/s
    who then reports 50% packet loss. *)
Definition one_half : float32 := f32_div f32_one f32_two.
Definition two_percent : float32 := f32_div (f32_of_Z 2) (f32_of_Z 100).

Definition settled_low : Impl := process (with_estimate 200000 f32_zero).
Definition risen : Impl :=
  update_bandwidth "sub" (mkBandwidthInfo 500000 f32_zero f32_zero) settled_low.

Definition settled_high : Impl := process (with_estimate 10000000 f32_zero).
Definition lossy : Impl :=
  update_bandwidth "sub" (mkBandwidthInfo 10000000 one_half f32_zero) settled_high.

(** C4 fails as stated.  The upgrade from layer 0 to layer 1 happens in
    the first [process] call after the estimate rose, although layer 1
    costs 500 kbit/s, more than 85% of the 500 kbit/s available; and 50%
    packet loss leaves the subscriber on layer 2. *)
Lemma hysteresis_counterexample :
  (current_layer <$> subscriptions risen !! ("sub", "pub", "cam") = Some 0
   /\ current_layer <$> subscriptions (process risen) !! ("sub", "pub", "cam")
      = Some 1
   /\ 85 * 500000 < 100 * (500 * 1000))
  /\ (current_layer <$> subscriptions lossy !! ("sub", "pub", "cam") = Some 2
      /\ (exists bw, bandwidth_info lossy !! "sub" = Some bw
                     /\ f32_ltb two_percent (packet_loss bw) = true)
      /\ current_layer <$> subscriptions (process lossy) !! ("sub", "pub", "cam")
         = Some 2).
Proof.
  split; [split; [|split]|split; [|split]]; try (vm_compute; reflexivity).
  eexists. split; vm_compute; reflexivity.
Qed.

End SubscriptionProofs.

(** ** Video frame buffer *)

Module FrameBufferProofs.
Import FrameBuffer.














(** *** Traces of buffer operations *)

Inductive Op :=
| Insert (payload : list Z) (sequence ts : Z) (marker keyframe : bool) (now : Z)
| Pop (now : Z).

Definition step (s : Impl) (op : Op) : option Impl :=
  match op with
  | Insert payload sequence ts marker keyframe now =>
      insert_packet payload sequence ts marker keyframe now s
  | Pop now => Some (snd (pop_frame now s))
  end.

Fixpoint run (s : Impl) (ops : list Op) : option Impl :=
  match ops with
  | [] => Some s
  | op :: rest =>
      match step s op with
      | Some s' => run s' rest
      | None => None
      end
  end.

(** The (timestamp, sequence, payload) triples a trace inserted. *)
Definition inserted (ops : list Op) : list (Z * Z * list Z) :=
  flat_map (fun op => match op with
                      | Insert payload sequence ts _ _ _ => [(ts, sequence, payload)]
                      | Pop _ => []
                      end) ops.

(** Sequence numbers are [uint16_t]. *)
Definition well_typed (ops : list Op) : Prop :=
  Forall (fun op => match op with
                    | Insert _ sequence _ _ _ _ => 0 <= sequence < 2 ^ 16
                    | Pop _ => True
                    end) ops.

Definition assembler_ok (log : list (Z * Z * list Z)) (ts : Z)
    (a : FrameAssembler) : Prop :=
  timestamp a = ts
  /\ 0 <= first_sequence a < 2 ^ 16
  /\ 0 <= last_sequence a < 2 ^ 16
  /\ forall q p, packets a !! q = Some p -> In (ts, q, p) log.

Definition frame_ok (log : list (Z * Z * list Z)) (f : BufferedFrame) : Prop :=
  exists a, assembler_ok log (rtp_timestamp f) a
            /\ is_complete a = Some true
            /\ assemble a = Some f.

Definition buffer_ok (log : list (Z * Z * list Z)) (s : Impl) : Prop :=
  (forall ts a, assemblers s !! ts = Some a -> assembler_ok log ts a)
  /\ Forall (frame_ok log) (complete_frames s).

Lemma assembler_ok_mono log more ts a :
  assembler_ok log ts a -> assembler_ok (log ++ more) ts a.
Proof.
  intros (Ht & Hf & Hl & Hp). repeat split; try assumption; try lia.
  intros q p Hq. apply in_or_app. left. eauto.
Qed.

Lemma frame_ok_mono log more f : frame_ok log f -> frame_ok (log ++ more) f.
Proof.
  intros (a & Ha & Hc & Hf). exists a. split; [|split]; try assumption.
  apply assembler_ok_mono. exact Ha.
Qed.

Lemma store_packet_ok log ts a0 payload sequence marker keyframe now :
  assembler_ok log ts a0 \/ a0 = new_assembler ->
  0 <= sequence < 2 ^ 16 ->
  assembler_ok (log ++ [(ts, sequence, payload)]) ts
               (store_packet a0 payload sequence ts marker keyframe now).
Proof.
  intros Ha0 Hseq.
  assert (Hts : (if bool_decide (packets a0 = ∅) then ts else timestamp a0) = ts).
  { destruct Ha0 as [(Ht & _)| ->]; [destruct (bool_decide _); auto|reflexivity]. }
  assert (Hf : 0 <= first_sequence a0 < 2 ^ 16).
  { destruct Ha0 as [(_ & Hf & _)| ->]; [exact Hf|cbn; lia]. }
  assert (Hl : 0 <= last_sequence a0 < 2 ^ 16).
  { destruct Ha0 as [(_ & _ & Hl & _)| ->]; [exact Hl|cbn; lia]. }
  unfold store_packet, assembler_ok.
  cbn [timestamp first_sequence last_sequence packets].
  split; [exact Hts|]. split; [destruct (_ || _); lia|].
  split; [destruct marker; lia|].
  intros q p Hq. apply in_or_app.
  destruct (decide (sequence = q)) as [->|Hne].
  - rewrite lookup_insert_eq in Hq. injection Hq as ->. right. left. reflexivity.
  - rewrite lookup_insert_ne in Hq by exact Hne. left.
    destruct Ha0 as [(_ & _ & _ & Hp)| ->]; [eauto|].
    cbn in Hq. rewrite lookup_empty in Hq. discriminate.
Qed.

Lemma drop_old_frames_suffix now limit q dropped :
  exists k, fst (drop_old_frames now limit q dropped) = drop k q.
Proof.
  revert dropped. induction q as [|f q IH]; intros dropped; cbn.
  - exists 0%nat. reflexivity.
  - destruct (limit <? age_ms now (arrival_time f)).
    + destruct (IH (to_uint64 (dropped + 1))) as [k Hk]. exists (S k). exact Hk.
    + exists 0%nat. reflexivity.
Qed.

Lemma cleanup_ok log now s : buffer_ok log s -> buffer_ok log (cleanup_old_frames now s).
Proof.
  intros [Hasm Hfr]. unfold cleanup_old_frames.
  destruct (drop_old_frames_suffix now (max_delay (config s)) (complete_frames s)
              (frames_dropped (stats s))) as [k Hk].
  destruct (drop_old_frames now (max_delay (config s)) (complete_frames s)
              (frames_dropped (stats s))) as [q dropped].
  cbn [fst] in Hk. subst q. split; cbn [assemblers complete_frames].
  - intros ts a Hlook. apply map_lookup_filter_Some in Hlook as [Hlook _].
    apply Hasm. exact Hlook.
  - apply Forall_drop. exact Hfr.
Qed.

Lemma assemble_timestamp a f : assemble a = Some f -> rtp_timestamp f = timestamp a.
Proof.
  unfold assemble. destruct (assemble_data a); [|discriminate].
  intros [= <-]. reflexivity.
Qed.

Lemma insert_packet_ok log s payload sequence ts marker keyframe now s' :
  buffer_ok log s -> 0 <= sequence < 2 ^ 16 ->
  insert_packet payload sequence ts marker keyframe now s = Some s' ->
  buffer_ok (log ++ [(ts, sequence, payload)]) s'.
Proof.
  intros [Hasm Hfr] Hseq. unfold insert_packet.
  set (a := store_packet _ payload sequence ts marker keyframe now).
  assert (Ha : assembler_ok (log ++ [(ts, sequence, payload)]) ts a).
  { apply store_packet_ok; [|exact Hseq].
    destruct (assemblers s !! ts) as [a0|] eqn:E; cbn; [left; eauto|right; reflexivity]. }
  assert (Hstored : forall ts' a', <[ts := a]> (assemblers s) !! ts' = Some a' ->
                      assembler_ok (log ++ [(ts, sequence, payload)]) ts' a').
  { intros ts' a' Hl. destruct (decide (ts = ts')) as [<-|Hne].
    - rewrite lookup_insert_eq in Hl. injection Hl as <-. exact Ha.
    - rewrite lookup_insert_ne in Hl by exact Hne.
      apply assembler_ok_mono. eauto. }
  assert (Hfr' : Forall (frame_ok (log ++ [(ts, sequence, payload)]))
                        (complete_frames s)).
  { eapply Forall_impl; [exact Hfr|]. intros f. apply frame_ok_mono. }
  destruct (is_complete a) as [[|]|] eqn:Hc; [| |discriminate].
  - destruct (wait_for_keyframe (config s) && negb (has_keyframe s)
              && negb (is_keyframe a)).
    + intros [= <-]. split; [exact Hstored|exact Hfr'].
    + destruct (assemble a) as [frame|] eqn:Hf; [|discriminate].
      intros [= <-]. apply cleanup_ok. split; cbn [assemblers complete_frames].
      * intros ts' a' Hl. destruct (decide (ts = ts')) as [<-|Hne].
        -- rewrite lookup_delete_eq in Hl. discriminate.
        -- rewrite lookup_delete_ne in Hl by exact Hne. eauto.
      * apply Forall_app. split; [exact Hfr'|]. constructor; [|constructor].
        exists a. rewrite (assemble_timestamp a frame Hf).
        destruct Ha as (Ht & Hrest). rewrite Ht. repeat split; try assumption; apply Hrest.
  - intros [= <-]. apply cleanup_ok. split; [exact Hstored|exact Hfr'].
Qed.

Lemma pop_frame_ok log now s :
  buffer_ok log s -> buffer_ok log (snd (pop_frame now s)).
Proof.
  intros Hok. pose proof Hok as [Hasm Hfr]. unfold pop_frame.
  destruct (complete_frames s) as [|f rest] eqn:E; [exact Hok|].
  destruct (age_ms now (arrival_time f) <? target_delay (config s)).
  - exact Hok.
  - split; cbn [snd assemblers complete_frames]; [exact Hasm|].
    apply Forall_cons in Hfr as [_ Hrest]. exact Hrest.
Qed.

Lemma inserted_app ops1 ops2 : inserted (ops1 ++ ops2) = inserted ops1 ++ inserted ops2.
Proof. unfold inserted. apply flat_map_app. Qed.

Lemma run_ok ops : forall log s s',
  buffer_ok log s -> well_typed ops -> run s ops = Some s' ->
  buffer_ok (log ++ inserted ops) s'.
Proof.
  induction ops as [|op ops IH]; intros log s s' Hs Hwt Hrun.
  - cbn in *. injection Hrun as <-. rewrite app_nil_r. exact Hs.
  - apply Forall_cons in Hwt as [Hop Hwt]. cbn [run] in Hrun.
    destruct (step s op) as [s1|] eqn:Hstep; [|discriminate].
    change (op :: ops) with ([op] ++ ops). rewrite inserted_app, app_assoc.
    apply (IH _ s1); [|exact Hwt|exact Hrun].
    destruct op as [payload sequence ts marker keyframe now|now]; cbn in Hstep |- *.
    + eapply insert_packet_ok; eauto.
    + injection Hstep as <-. rewrite app_nil_r. apply pop_frame_ok. exact Hs.
Qed.

Lemma initial_ok cfg : buffer_ok [] (initial cfg).
Proof.
  split; cbn.
  - intros ts a Hl. rewrite lookup_empty in Hl. discriminate.
  - constructor.
Qed.





(** The payload most recently inserted for a timestamp and a sequence
    number, if any. *)
Fixpoint latest (log : list (Z * Z * list Z)) (ts q : Z) : option (list Z) :=
  match log with
  | [] => None
  | (ts', q', p) :: rest =>
      match latest rest ts q with
      | Some p' => Some p'
      | None => if (ts' =? ts) && (q' =? q) then Some p else None
      end
  end.


















Definition default_config : FrameBufferConfig :=
  mkFrameBufferConfig 30 200 50 true true.




(** Packet 10 inserted twice before the marker packet 11, and a late
    packet 12 for the same timestamp: the frame carries the second
    payload of packet 10 and nothing of packet 12. *)
Definition reinserted : list Op :=
  [Insert [65] 10 1000 false true 0;
   Insert [99] 10 1000 false true 1000000;
   Insert [67] 11 1000 true false 2000000;
   Insert [68] 12 1000 false false 3000000].

Lemma reinserted_frame :
  latest (inserted (take 3 reinserted)) 1000 10 = Some [99]
  /\ exists s,
       run (initial default_config) reinserted = Some s
       /\ fst (pop_frame 60000000 s)
          = Some (mkBufferedFrame [99; 67] 1000 10 11 0 true true).
Proof.
  split; [reflexivity|].
  destruct (run (initial default_config) reinserted) as [s|] eqn:Hrun;
    [|vm_compute in Hrun; discriminate].
  exists s. split; [reflexivity|].
  vm_compute in Hrun. injection Hrun as <-. vm_compute. reflexivity.
Qed.



(** What the gap check does at the two inputs the amended statement
    leaves out: a frame whose marker packet is number 65535 is never
    reported complete, and an assembler whose lowest packet directly
    follows its marker packet is reported complete without any packet
    being looked at. *)
Lemma is_complete_at_wrap :
  is_complete (mkFrameAssembler 7 (<[65535 := [2]]> {[65534 := [1]]})
                                65534 65535 true true true 0)
  = Some false
  /\ is_complete (mkFrameAssembler 7 {[30001 := [1]]} 30001 30000 true true true 0)
     = Some true.
Proof. split; vm_compute; reflexivity. Qed.

End FrameBufferProofs.

(** ** Packet pacer *)

Module PacerProofs.
Import Pacer.

Lemma pop_max_some q : q <> [] -> is_Some (pop_max q).
Proof.
  destruct q as [|x rest]; [congruence|]. intros _. cbn.
  destruct (pop_max rest) as [[m rest']|]; [|eauto].
  destruct (priority x <? priority m); eauto.
Qed.

Lemma pop_max_perm q : forall p q', pop_max q = Some (p, q') -> q ≡ₚ p :: q'.
Proof.
  induction q as [|x rest IH]; intros p q' Hpop; [discriminate|].
  cbn in Hpop. destruct (pop_max rest) as [[m rest']|] eqn:E.
  - destruct (priority x <? priority m); injection Hpop as <- <-.
    + rewrite (IH m rest' eq_refl). apply Permutation_swap.
    + reflexivity.
  - injection Hpop as <- <-. destruct rest as [|y rest]; [reflexivity|].
    destruct (pop_max_some (y :: rest) ltac:(congruence)) as [? E'].
    rewrite E' in E. discriminate.
Qed.

Lemma pop_max_top q : forall p q' x,
  pop_max q = Some (p, q') -> x ∈ q -> priority x <= priority p.
Proof.
  induction q as [|y rest IH]; intros p q' x Hpop Hx; [discriminate|].
  cbn in Hpop. destruct (pop_max rest) as [[m rest']|] eqn:E.
  - destruct (Z.ltb_spec (priority y) (priority m)); injection Hpop as <- <-;
      apply elem_of_cons in Hx as [->|Hx]; try lia.
    + eapply IH; eauto.
    + specialize (IH m rest' x eq_refl Hx). lia.
  - injection Hpop as <- <-. apply elem_of_cons in Hx as [->|Hx]; [lia|].
    destruct rest as [|z rest]; [inversion Hx|].
    destruct (pop_max_some (z :: rest) ltac:(congruence)) as [? E'].
    rewrite E' in E. discriminate.
Qed.

#[export] Instance fifo_heap_laws : HeapLaws fifo_heap.
Proof.
  split.
  - intros p q. cbn. rewrite Permutation_app_comm. reflexivity.
  - reflexivity.
  - apply pop_max_some.
  - apply pop_max_perm.
  - apply pop_max_top.
Qed.

(** Clock readings that never go back. *)
Fixpoint clock_monotone (times : list Z) : Prop :=
  match times with
  | t1 :: (t2 :: _) as rest => t1 <= t2 /\ clock_monotone rest
  | _ => True
  end.

Lemma bytes_handed_snoc (l : list (list Z * SocketAddress)) x :
  fold_right (fun c acc => Z.of_nat (length (fst c)) + acc) 0 (l ++ [x])
  = fold_right (fun c acc => Z.of_nat (length (fst c)) + acc) 0 l
    + Z.of_nat (length (fst x)).
Proof. induction l as [|y l IH]; cbn; [lia|]. rewrite IH. lia. Qed.

Lemma last_cons_default (l : list Z) : forall a d,
  List.last (a :: l) d = List.last l a.
Proof.
  induction l as [|b l IH]; intros a d; [reflexivity|].
  change (List.last (a :: b :: l) d) with (List.last (b :: l) d).
  rewrite (IH b d), (IH b a). reflexivity.
Qed.

Section Conservation.
Context {H : Heap}.

Lemma send_top_facts p rest s :
  Z.of_nat (length (data p)) <= available_tokens s ->
  let s' := send_top p rest s in
  0 <= available_tokens s'
  /\ bytes_handed s' + available_tokens s' <= bytes_handed s + available_tokens s
  /\ bytes_handed s <= bytes_handed s'
  /\ config s' = config s
  /\ last_process_time s' = last_process_time s
  /\ queue s' = rest.
Proof.
  intros Hfit. cbn zeta. unfold send_top, bytes_handed.
  cbn [available_tokens sent config last_process_time queue].
  pose proof (to_uint64_range (available_tokens s - Z.of_nat (length (data p)))).
  pose proof (to_uint64_le (available_tokens s - Z.of_nat (length (data p)))
                ltac:(lia)).
  destruct (send_callback s).
  - rewrite bytes_handed_snoc. cbn [fst]. repeat split; lia.
  - repeat split; lia.
Qed.

Lemma drain_facts (fuel : nat) : forall s n,
  0 <= available_tokens s ->
  let s' := fst (drain fuel s n) in
  0 <= available_tokens s'
  /\ bytes_handed s' + available_tokens s' <= bytes_handed s + available_tokens s
  /\ bytes_handed s <= bytes_handed s'
  /\ config s' = config s
  /\ last_process_time s' = last_process_time s.
Proof.
  induction fuel as [|fuel IH]; intros s n Htok; cbn zeta; cbn [drain].
  - cbn [fst]. repeat split; lia.
  - destruct (heap_pop (queue s)) as [[p rest]|]; [|cbn [fst]; repeat split; lia].
    destruct (Z.ltb_spec (available_tokens s) (Z.of_nat (length (data p))));
      [cbn [fst]; repeat split; lia|].
    destruct (send_top_facts p rest s ltac:(lia)) as (A & B & C & D & E & _).
    destruct (IH (send_top p rest s) (to_uint64 (n + 1)) A) as (A' & B' & C' & D' & E').
    repeat split; try lia; congruence.
Qed.

(** The loop leaves only on an empty queue or on a top packet that
    does not fit. *)
Lemma drain_stops `{!HeapLaws H} (fuel : nat) : forall s n,
  (length (queue s) <= fuel)%nat ->
  let s' := fst (drain fuel s n) in
  queue s' = []
  \/ exists p rest, heap_pop (queue s') = Some (p, rest)
                    /\ available_tokens s' < Z.of_nat (length (data p)).
Proof.
  induction fuel as [|fuel IH]; intros s n Hlen; cbn zeta; cbn [drain].
  - left. cbn [fst]. destruct (queue s); [reflexivity|cbn in Hlen; lia].
  - destruct (heap_pop (queue s)) as [[p rest]|] eqn:Hpop.
    + destruct (Z.ltb_spec (available_tokens s) (Z.of_nat (length (data p)))).
      * right. cbn [fst]. eauto.
      * apply IH. unfold send_top. cbn [queue].
        apply heap_pop_perm in Hpop. apply Permutation_length in Hpop.
        cbn in Hpop. lia.
    + left. cbn [fst]. destruct (queue s) as [|x q] eqn:Eq; [reflexivity|].
      destruct (heap_pop_some (x :: q) ltac:(congruence)) as [? E].
      rewrite E in Hpop. discriminate.
Qed.

Lemma refill_facts now s :
  0 <= bucket_size_bytes (config s) ->
  let s' := refill now s in
  0 <= available_tokens s' <= bucket_size_bytes (config s)
  /\ bytes_handed s' = bytes_handed s
  /\ config s' = config s
  /\ last_process_time s' = now
  /\ queue s' = queue s.
Proof.
  intros Hb. cbn zeta. unfold refill, bytes_handed.
  cbn [available_tokens sent config last_process_time queue].
  match goal with |- context [to_uint64 (available_tokens s + ?n)] =>
    pose proof (to_uint64_range (available_tokens s + n)) end.
  repeat split; lia.
Qed.

Lemma refill_rate now s :
  0 <= target_bitrate_bps (config s) ->
  0 <= available_tokens s ->
  last_process_time s <= now ->
  10 ^ 9 * available_tokens (refill now s)
  <= 10 ^ 9 * available_tokens s
     + target_bitrate_bps (config s) / 8 * (now - last_process_time s).
Proof.
  intros Hr Htok Hmono. unfold refill. cbn [available_tokens].
  set (R8 := target_bitrate_bps (config s) / 8).
  set (e := Z.quot (now - last_process_time s) 1000000).
  assert (HR8 : 0 <= R8) by (apply Z.div_pos; lia).
  assert (He : 0 <= e) by (apply Z.quot_pos; lia).
  assert (He' : 1000000 * e <= now - last_process_time s).
  { unfold e. apply Z.mul_quot_le; lia. }
  assert (Hue : 0 <= to_uint64 e <= e).
  { split; [apply to_uint64_range|apply to_uint64_le; exact He]. }
  assert (Hprod : 0 <= to_uint64 (R8 * to_uint64 e) <= R8 * e).
  { split; [apply to_uint64_range|].
    etransitivity; [apply to_uint64_le; nia|]. nia. }
  set (new_tokens := to_uint64 (R8 * to_uint64 e) / 1000).
  assert (Hnew : 0 <= new_tokens /\ 1000 * new_tokens <= R8 * e).
  { unfold new_tokens. split; [apply Z.div_pos; lia|].
    etransitivity; [apply Z.mul_div_le; lia|]. lia. }
  pose proof (to_uint64_le (available_tokens s + new_tokens) ltac:(lia)).
  assert (10 ^ 9 * new_tokens <= R8 * (now - last_process_time s)) by nia.
  lia.
Qed.

Lemma process_first now s :
  0 <= bucket_size_bytes (config s) ->
  let s' := snd (process now s) in
  0 <= available_tokens s'
  /\ bytes_handed s' + available_tokens s'
     <= bytes_handed s + bucket_size_bytes (config s)
  /\ bytes_handed s <= bytes_handed s'
  /\ config s' = config s
  /\ last_process_time s' = now.
Proof.
  intros Hb. cbn zeta. unfold process.
  destruct (refill_facts now s Hb) as ((A1 & A2) & B & C & D & _).
  pose proof (drain_facts (length (queue (refill now s))) (refill now s) 0 A1)
    as (A' & B' & C' & D' & E').
  destruct (drain _ (refill now s) 0) as [s2 count]. cbn [fst snd] in *.
  repeat split; try lia; congruence.
Qed.

Lemma process_later now s :
  0 <= target_bitrate_bps (config s) ->
  0 <= bucket_size_bytes (config s) ->
  0 <= available_tokens s ->
  last_process_time s <= now ->
  let s' := snd (process now s) in
  10 ^ 9 * (bytes_handed s' + available_tokens s')
  <= 10 ^ 9 * (bytes_handed s + available_tokens s)
     + target_bitrate_bps (config s) / 8 * (now - last_process_time s).
Proof.
  intros Hr Hb Htok Hmono. cbn zeta. unfold process.
  destruct (refill_facts now s Hb) as ((A1 & A2) & B & C & D & _).
  pose proof (refill_rate now s Hr Htok Hmono) as Hrate.
  pose proof (drain_facts (length (queue (refill now s))) (refill now s) 0 A1)
    as (A' & B' & C' & D' & E').
  destruct (drain _ (refill now s) 0) as [s2 count]. cbn [fst snd] in *.
  lia.
Qed.

Lemma enqueue_facts payload dest prio now s :
  let s' := snd (enqueue payload dest prio now s) in
  available_tokens s' = available_tokens s
  /\ bytes_handed s' = bytes_handed s
  /\ config s' = config s
  /\ last_process_time s' = last_process_time s.
Proof.
  cbn zeta. unfold enqueue.
  destruct (max_queue_size (config s) <=? Z.of_nat (length (queue s)));
    repeat split.
Qed.

(** From a state whose bucket is not overdrawn, a trace on a monotone
    clock hands out no more than the tokens on hand plus the refill of
    the time that passed. *)
Lemma run_potential (calls : list Call) : forall s,
  0 <= target_bitrate_bps (config s) ->
  0 <= bucket_size_bytes (config s) ->
  0 <= available_tokens s ->
  clock_monotone (last_process_time s :: process_times calls) ->
  let s' := run s calls in
  10 ^ 9 * (bytes_handed s' + available_tokens s')
  <= 10 ^ 9 * (bytes_handed s + available_tokens s)
     + target_bitrate_bps (config s) / 8
       * (List.last (process_times calls) (last_process_time s) - last_process_time s)
  /\ 0 <= available_tokens s'.
Proof.
  induction calls as [|c calls IH]; intros s Hr Hb Htok Hmono; cbn zeta.
  - cbn. split; lia.
  - unfold run. cbn [fold_left]. fold (run (step s c) calls).
    destruct c as [payload dest prio now|now].
    + cbn [step]. destruct (enqueue_facts payload dest prio now s) as (A & B & C & D).
      cbn [process_times flat_map app] in *.
      fold (process_times calls) in *.
      destruct (IH (snd (enqueue payload dest prio now s))) as [I1 I2];
        [rewrite C; exact Hr|rewrite C; exact Hb|rewrite A; exact Htok
        |rewrite D; exact Hmono|].
      rewrite A, B, C, D in I1. split; [exact I1|exact I2].
    + cbn [step]. cbn [process_times flat_map app] in *.
      fold (process_times calls) in *.
      change (last_process_time s <= now
              /\ clock_monotone (now :: process_times calls)) in Hmono.
      destruct Hmono as [Hnow Hmono].
      destruct (process_first now s Hb) as (A & _ & _ & C & D).
      pose proof (process_later now s Hr Hb Htok Hnow) as Hstep.
      destruct (IH (snd (process now s))) as [I1 I2];
        [rewrite C; exact Hr|rewrite C; exact Hb|exact A
        |rewrite D; exact Hmono|].
      rewrite C, D in I1. split; [|exact I2].
      replace (List.last (now :: process_times calls) (last_process_time s))
        with (List.last (process_times calls) now)
        by (symmetry; apply last_cons_default).
      cbn zeta in Hstep.
      set (R8 := target_bitrate_bps (config s) / 8) in *.
      lia.
Qed.

Lemma run_window (calls : list Call) : forall s,
  0 <= target_bitrate_bps (config s) ->
  0 <= bucket_size_bytes (config s) ->
  clock_monotone (process_times calls) ->
  10 ^ 9 * (bytes_handed (run s calls) - bytes_handed s)
  <= 10 ^ 9 * bucket_size_bytes (config s)
     + target_bitrate_bps (config s) / 8
       * (List.last (process_times calls) 0 - List.hd 0 (process_times calls)).
Proof.
  induction calls as [|c calls IH]; intros s Hr Hb Hmono.
  - cbn. lia.
  - unfold run. cbn [fold_left]. fold (run (step s c) calls).
    destruct c as [payload dest prio now|now].
    + cbn [step]. destruct (enqueue_facts payload dest prio now s) as (A & B & C & D).
      cbn [process_times flat_map app] in *. fold (process_times calls) in *.
      specialize (IH (snd (enqueue payload dest prio now s))).
      rewrite B, C in IH. apply IH; assumption.
    + cbn [step]. cbn [process_times flat_map app] in *.
      fold (process_times calls) in *.
      destruct (process_first now s Hb) as (A & B & _ & C & D).
      destruct (run_potential calls (snd (process now s))) as [I1 I2];
        [rewrite C; exact Hr|rewrite C; exact Hb|exact A
        |rewrite D; exact Hmono|].
      rewrite C, D in I1. rewrite last_cons_default. cbn [List.hd].
      set (R8 := target_bitrate_bps (config s) / 8) in *.
      lia.
Qed.

Lemma refill_amount now s :
  0 <= target_bitrate_bps (config s) ->
  0 <= available_tokens s ->
  last_process_time s <= now ->
  let elapsed_ms := (now - last_process_time s) / 1000000 in
  let new_tokens := target_bitrate_bps (config s) / 8 * elapsed_ms / 1000 in
  target_bitrate_bps (config s) / 8 * elapsed_ms < 2 ^ 64 ->
  available_tokens s + new_tokens < 2 ^ 64 ->
  available_tokens (refill now s)
  = Z.min (available_tokens s + new_tokens) (bucket_size_bytes (config s)).
Proof.
  intros Hr Htok Hmono elapsed_ms new_tokens Hprod Hsum.
  unfold refill. cbn [available_tokens].
  rewrite Z.quot_div_nonneg by lia. fold elapsed_ms.
  assert (He : 0 <= elapsed_ms) by (apply Z.div_pos; lia).
  assert (HR8 : 0 <= target_bitrate_bps (config s) / 8) by (apply Z.div_pos; lia).
  assert (Hwrap : to_uint64 (target_bitrate_bps (config s) / 8 * to_uint64 elapsed_ms)
                  = target_bitrate_bps (config s) / 8 * elapsed_ms).
  { unfold to_uint64. rewrite Zmult_mod_idemp_r. apply Z.mod_small. nia. }
  rewrite Hwrap. fold new_tokens.
  assert (0 <= new_tokens) by (apply Z.div_pos; nia).
  rewrite to_uint64_id by lia. reflexivity.
Qed.

(** C6.  Over any trace of [enqueue] and [process] calls on a monotone
    clock, the bytes handed to the send callback are at most
    [bucket_size_bytes + (target_bitrate_bps / 8) * w], with [w] the time
    from the first to the last [process] call (stated in nanoseconds,
    both sides multiplied by 10^9); each [process] leaves its loop only
    on an empty queue or on a top packet larger than the tokens on
    hand; and its refill is [(target_bitrate_bps / 8) * elapsed_ms /
    1000] clamped to the bucket size (when the 64-bit products do not
    wrap). *)
Theorem pacer_conservation `{!HeapLaws H} (s : Impl) (calls : list Call) :
  0 <= target_bitrate_bps (config s) ->
  0 <= bucket_size_bytes (config s) ->
  clock_monotone (process_times calls) ->
  10 ^ 9 * (bytes_handed (run s calls) - bytes_handed s)
  <= 10 ^ 9 * bucket_size_bytes (config s)
     + target_bitrate_bps (config s) / 8
       * (List.last (process_times calls) 0 - List.hd 0 (process_times calls))
  /\ (forall now s0,
        let s' := snd (process now s0) in
        queue s' = []
        \/ exists p rest, heap_pop (queue s') = Some (p, rest)
                          /\ available_tokens s' < Z.of_nat (length (data p)))
  /\ (forall now s0,
        0 <= target_bitrate_bps (config s0) ->
        0 <= available_tokens s0 ->
        last_process_time s0 <= now ->
        let elapsed_ms := (now - last_process_time s0) / 1000000 in
        let new_tokens := target_bitrate_bps (config s0) / 8 * elapsed_ms / 1000 in
        target_bitrate_bps (config s0) / 8 * elapsed_ms < 2 ^ 64 ->
        available_tokens s0 + new_tokens < 2 ^ 64 ->
        available_tokens (refill now s0)
        = Z.min (available_tokens s0 + new_tokens) (bucket_size_bytes (config s0))).
Proof.
  intros Hr Hb Hmono. split; [|split].
  - apply run_window; assumption.
  - intros now s0. cbn zeta. unfold process.
    pose proof (drain_stops (length (queue (refill now s0))) (refill now s0) 0
                  ltac:(lia)) as Hstop.
    destruct (drain _ (refill now s0) 0) as [s2 count]. exact Hstop.
  - intros now s0. apply refill_amount.
Qed.

End Conservation.

(** A pacer at 8000 bit/s (one byte per millisecond) with a 10-byte
    bucket; three packets are queued, then [process] runs after 1 ms,
    6 ms and 20 ms. *)
Definition demo_config : Config := mkConfig 8000 16000 10 1000 5.

Definition demo_destination : SocketAddress := mkSocketAddress "10.0.0.2" 5000.

Definition demo_calls : list Call :=
  [Enqueue [1; 2; 3; 4] demo_destination 5 0;
   Enqueue [5; 6; 7; 8; 9; 10] demo_destination 10 0;
   Enqueue [11; 12; 13; 14; 15; 16; 17; 18; 19] demo_destination 5 0;
   Process 1000000; Process 6000000; Process 20000000].

Definition demo_pacer : Impl := set_send_callback (initial demo_config 0).

Lemma pacer_conservation_witness :
  10 ^ 9 * (bytes_handed (run (H := fifo_heap) demo_pacer demo_calls)
            - bytes_handed demo_pacer)
  <= 10 ^ 9 * 10 + 8000 / 8 * (20000000 - 1000000)
  /\ bytes_handed (run (H := fifo_heap) demo_pacer demo_calls) = 19.
Proof.
  split.
  - apply (proj1 (pacer_conservation (H := fifo_heap) demo_pacer demo_calls
                    ltac:(cbn; lia) ltac:(cbn; lia) ltac:(cbn; lia))).
  - vm_compute. reflexivity.
Defined.

End PacerProofs.

(** ** ICE agent *)

Module IceProofs.
Import Ice.

(** What [add_remote_candidate] stores as the pair priority: the
    controlling side's candidate priority in the high 32 bits plus the
    controlled side's. *)
Lemma make_pair_priority (r : IceRole) (candidate loc : IceCandidate) :
  0 <= priority loc < 2 ^ 32 -> 0 <= priority candidate < 2 ^ 32 ->
  pair_priority (make_pair r candidate loc)
  = match r with
    | CONTROLLING => priority loc * 2 ^ 32 + priority candidate
    | CONTROLLED => priority candidate * 2 ^ 32 + priority loc
    end.
Proof.
  intros Hl Hc. unfold make_pair. cbn [pair_priority].
  destruct r; rewrite Z.shiftl_mul_pow2 by lia;
    rewrite (to_uint64_id (_ * 2 ^ 32)) by lia; apply to_uint64_id; lia.
Qed.

Lemma add_remote_candidate_pairs (candidate : IceCandidate) (s : Impl) :
  candidate_pairs (add_remote_candidate candidate s)
  = candidate_pairs s ++ map (make_pair (role s) candidate) (local_candidates s).
Proof. reflexivity. Qed.

(** The host candidate that [gather_candidates] produces and a
    server-reflexive remote candidate. *)
Definition host_candidate : IceCandidate :=
  mkIceCandidate "1" 1 "udp" (calculate_priority HOST 65535 1)
                 (mkSocketAddress "192.168.1.10" 50000) HOST
                 (mkSocketAddress "" 0).

Definition srflx_candidate : IceCandidate :=
  mkIceCandidate "2" 1 "udp" (calculate_priority SERVER_REFLEXIVE 65535 1)
                 (mkSocketAddress "203.0.113.7" 61000) SERVER_REFLEXIVE
                 (mkSocketAddress "10.0.0.7" 61000).

Definition controlling_agent : Impl :=
  mkImpl CONTROLLING true [host_candidate] [] [] 0 [].

(** C7 at a concrete pair.  The controlling agent holds the host
    candidate (G = 2130706431) and receives the server-reflexive
    candidate (D = 1694498815).  The stored pair priority is
    G * 2^32 + D; the formula of the claim gives
    D * 2^32 + 2 * G + 1. *)
Theorem pair_priority_at_host_srflx :
  priority host_candidate = 2130706431
  /\ priority srflx_candidate = 1694498815
  /\ map pair_priority
         (candidate_pairs (add_remote_candidate srflx_candidate controlling_agent))
     = [2130706431 * 2 ^ 32 + 1694498815]
  /\ rfc_pair_priority 2130706431 1694498815
     = 1694498815 * 2 ^ 32 + 2 * 2130706431 + 1
  /\ map pair_priority
         (candidate_pairs (add_remote_candidate srflx_candidate controlling_agent))
     <> [rfc_pair_priority (priority host_candidate) (priority srflx_candidate)].
Proof.
  repeat split; try (vm_compute; reflexivity).
  vm_compute. discriminate.
Qed.

(** The test [process_packet] makes. *)
Lemma is_stun_spec (packet : list Z) :
  is_stun packet = true
  <-> (20 <= length packet)%nat /\ Z.land (packet !!! 0%nat) 192 = 0.
Proof.
  unfold is_stun. rewrite andb_true_iff, Z.leb_le, Z.eqb_eq.
  split; intros [H1 H2]; split; try assumption; lia.
Qed.

Lemma spec_is_stun_is_stun (packet : list Z) :
  spec_is_stun packet = true -> is_stun packet = true.
Proof.
  unfold spec_is_stun, is_stun. intros H.
  apply andb_true_iff in H as [H _]. exact H.
Qed.

(** A 21-byte DTLS handshake record: first byte 0x16, no magic cookie. *)
Definition dtls_record : list Z :=
  [0x16; 0xFE; 0xFD; 0; 0; 0; 0; 0; 0; 0; 0; 0; 8; 1; 0; 0; 4; 0; 0; 0; 0].

Definition listening_agent : Impl := mkImpl CONTROLLED true [] [] [] 0 [].

(** C8 at a concrete packet.  The record has 21 bytes, its first byte
    starts with bits 00 and bytes 4..7 are not the magic cookie, so it
    is not STUN by the claim (and [StunMessage::parse] would refuse it);
    [process_packet] counts it as a connectivity check and does not hand
    it to [on_data], although a callback is installed. *)
Theorem process_packet_at_dtls_record :
  spec_is_stun dtls_record = false
  /\ parse_accepts dtls_record = false
  /\ is_stun dtls_record = true
  /\ on_data listening_agent = true
  /\ delivered (snd (process_packet dtls_record (mkSocketAddress "203.0.113.7" 61000)
                       listening_agent)) = []
  /\ connectivity_checks_received
       (snd (process_packet dtls_record (mkSocketAddress "203.0.113.7" 61000)
               listening_agent)) = 1.
Proof. repeat split; vm_compute; reflexivity. Qed.

End IceProofs.

(** ** Audio mixer *)

Module MixerProofs.
Import Mixer.

Fixpoint Zsum (l : list Z) : Z :=
  match l with
  | [] => 0
  | x :: rest => x + Zsum rest
  end.

Lemma Zsum_app l1 l2 : Zsum (l1 ++ l2) = Zsum l1 + Zsum l2.
Proof. induction l1 as [|x l1 IH]; cbn; [reflexivity|]. rewrite IH. lia. Qed.

Lemma Zsum_perm l1 l2 : l1 ≡ₚ l2 -> Zsum l1 = Zsum l2.
Proof. induction 1; cbn; lia. Qed.

(** *** The inner loops as lists of additions

    Each pass of a mixing loop adds a value that depends on the source
    only to one cell of the mix buffer; [mono_updates] and
    [stereo_updates] list these (index, value) pairs in loop order. *)

Definition apply_updates (us : list (nat * Z)) (mix : list Z) : list Z :=
  fold_left (fun m u => add_at (fst u) (snd u) m) us mix.

Definition mono_updates (src : AudioSource) : list (nat * Z) :=
  map (fun i => (i, scale_sample (buffer src !!! i) (volume (params src))))
      (seq 0 (length (buffer src))).

Definition stereo_updates (len : nat) (src : AudioSource) : list (nat * Z) :=
  flat_map
    (fun i =>
       let lr := apply_volume_and_pan (0, 0) (params src) (buffer src !!! i) in
       (i, fst lr)
       :: (if bool_decide (S i < len)%nat
           then [(S i, snd (apply_volume_and_pan lr (params src) (buffer src !!! S i)))]
           else []))
    (even_indices (length (buffer src))).

Definition updates (cfg : AudioSourceConfig) (len : nat) (src : AudioSource)
  : list (nat * Z) :=
  if channels cfg =? 1 then mono_updates src else stereo_updates len src.

(** What a source adds to sample [j] of a mix of [len] samples. *)
Definition contribution (cfg : AudioSourceConfig) (len : nat)
    (src : AudioSource) (j : nat) : Z :=
  Zsum (map snd (filter (fun u => fst u = j) (updates cfg len src))).

Lemma add_at_length i x v : length (add_at i x v) = length v.
Proof. unfold add_at. apply length_alter. Qed.

Lemma apply_updates_length us : forall mix,
  length (apply_updates us mix) = length mix.
Proof.
  induction us as [|u us IH]; intros mix; [reflexivity|].
  cbn. unfold apply_updates in IH. rewrite IH. apply add_at_length.
Qed.

Lemma apply_updates_app us1 us2 mix :
  apply_updates (us1 ++ us2) mix = apply_updates us2 (apply_updates us1 mix).
Proof. unfold apply_updates. apply fold_left_app. Qed.

Lemma mix_mono_updates src mix :
  mix_mono src mix = apply_updates (mono_updates src) mix.
Proof.
  unfold mix_mono, apply_updates, mono_updates.
  generalize (seq 0 (length (buffer src))). intros l. revert mix.
  induction l as [|i l IH]; intros mix; [reflexivity|]. cbn. apply IH.
Qed.

Lemma mix_stereo_updates src mix :
  mix_stereo src mix = apply_updates (stereo_updates (length mix) src) mix.
Proof.
  unfold mix_stereo, stereo_updates.
  generalize (even_indices (length (buffer src))). intros l.
  remember (length mix) as len eqn:Hlen. revert mix Hlen.
  induction l as [|i l IH]; intros mix Hlen; [reflexivity|].
  cbn [fold_left flat_map]. rewrite apply_updates_app.
  rewrite <- IH.
  - f_equal. unfold mix_stereo_step. rewrite add_at_length, <- Hlen.
    destruct (bool_decide (S i < len)%nat); reflexivity.
  - rewrite apply_updates_length. exact Hlen.
Qed.

Definition is_int32 (x : Z) : Prop := to_int32 x = x.

Lemma to_int32_idem x : to_int32 (to_int32 x) = to_int32 x.
Proof.
  replace (to_int32 x) with (to_int32 x + 0) at 1 by lia.
  rewrite to_int32_add_l. f_equal. lia.
Qed.

(** Sample [j] after a run of additions is the old sample plus the
    values added at [j], as an [int32_t]. *)
Lemma apply_updates_lookup us : forall (mix : list Z) (j : nat),
  Forall is_int32 mix ->
  apply_updates us mix !! j
  = (fun x => to_int32 (x + Zsum (map snd (filter (fun u => fst u = j) us))))
    <$> mix !! j.
Proof.
  induction us as [|[i v] us IH]; intros mix j Hmix.
  - cbn. destruct (mix !! j) as [x|] eqn:E; [|reflexivity]. cbn.
    rewrite Z.add_0_r. f_equal. symmetry.
    eapply Forall_lookup_1 in Hmix; [|exact E]. exact Hmix.
  - change (apply_updates ((i, v) :: us) mix)
      with (apply_updates us (add_at i v mix)).
    rewrite IH.
    2:{ unfold add_at. apply Forall_alter; [exact Hmix|].
        intros; unfold is_int32; apply to_int32_idem. }
    unfold add_at. destruct (decide (i = j)) as [->|Hne].
    + rewrite list_lookup_alter_eq, filter_cons_True by reflexivity.
      destruct (mix !! j) as [x|]; [|reflexivity]. cbn. f_equal.
      rewrite to_int32_add_l. f_equal. lia.
    + rewrite list_lookup_alter_ne by exact Hne.
      rewrite filter_cons_False by (cbn; congruence). reflexivity.
Qed.

(** *** The mix for one recipient *)

(** The test of lines 207-209. *)
Definition audible (recipient : string) (e : string * AudioSource) : Prop :=
  fst e <> recipient /\ has_data (snd e) = true /\ muted (params (snd e)) = false.

#[local] Instance audible_dec recipient e : Decision (audible recipient e).
Proof. unfold audible. apply _. Defined.

(** The sources a recipient hears: every source but its own that has
    data and is not muted, in table order. *)
Definition heard (srcs : gmap string AudioSource) (recipient : string)
  : list AudioSource :=
  map snd (filter (audible recipient) (map_to_list srcs)).

(** The mix the specification describes: per sample, the saturated
    [int32_t] sum of the contributions of the sources heard. *)
Definition mix_minus_self (cfg : AudioSourceConfig)
    (srcs : gmap string AudioSource) (len : nat) (recipient : string) : list Z :=
  map (fun j => clamp16 (to_int32
                 (Zsum (map (fun src => contribution cfg len src j)
                            (heard srcs recipient)))))
      (seq 0 len).

Lemma mix_source_updates cfg recipient (e : string * AudioSource) mix :
  mix_source cfg recipient mix e
  = apply_updates (if decide (audible recipient e)
                   then updates cfg (length mix) (snd e) else []) mix.
Proof.
  unfold mix_source, audible, updates. destruct e as [source_id src]. cbn [fst snd].
  destruct (decide _) as [(H1 & H2 & H3)|Hn].
  - rewrite bool_decide_eq_false_2 by exact H1. rewrite H2, H3. cbn [negb].
    destruct (channels cfg =? 1);
      [apply mix_mono_updates|apply mix_stereo_updates].
  - destruct (bool_decide (source_id = recipient)) eqn:E1; [reflexivity|].
    destruct (has_data src) eqn:E2; [|reflexivity].
    destruct (muted (params src)) eqn:E3; [reflexivity|].
    exfalso. apply Hn. apply bool_decide_eq_false in E1. auto.
Qed.

Lemma mix_sources_updates cfg recipient (entries : list (string * AudioSource)) :
  forall mix,
    fold_left (mix_source cfg recipient) entries mix
    = apply_updates
        (flat_map (fun e => updates cfg (length mix) (snd e))
                  (filter (audible recipient) entries))
        mix.
Proof.
  induction entries as [|e entries IH]; intros mix; [reflexivity|].
  cbn [fold_left]. rewrite IH, mix_source_updates, apply_updates_length.
  destruct (decide (audible recipient e)) as [Ha|Hn].
  - rewrite filter_cons_True by exact Ha. cbn [flat_map].
    rewrite apply_updates_app. reflexivity.
  - rewrite filter_cons_False by exact Hn. reflexivity.
Qed.

Lemma Zsum_flat_map {A} (f : A -> list (nat * Z)) (j : nat) (l : list A) :
  Zsum (map snd (filter (fun u => fst u = j) (flat_map f l)))
  = Zsum (map (fun x => Zsum (map snd (filter (fun u => fst u = j) (f x)))) l).
Proof.
  induction l as [|x l IH]; [reflexivity|].
  cbn [flat_map map Zsum]. rewrite filter_app, map_app, Zsum_app, IH. reflexivity.
Qed.

Lemma replicate_int32 n : Forall is_int32 (replicate n 0).
Proof. apply Forall_replicate. reflexivity. Qed.

Lemma mixed_lookup cfg (srcs : gmap string AudioSource) (len : nat) recipient (j : nat) :
  (j < len)%nat ->
  fold_left (mix_source cfg recipient) (map_to_list srcs) (replicate len 0) !! j
  = Some (to_int32 (Zsum (map (fun src => contribution cfg len src j)
                              (heard srcs recipient)))).
Proof.
  intros Hj. rewrite mix_sources_updates.
  rewrite apply_updates_lookup by apply replicate_int32.
  rewrite lookup_replicate_2 by exact Hj. cbn. f_equal. f_equal.
  rewrite length_replicate, Zsum_flat_map. unfold heard, contribution.
  rewrite map_map. reflexivity.
Qed.

Lemma mixed_length cfg (srcs : gmap string AudioSource) (len : nat) recipient :
  length (fold_left (mix_source cfg recipient) (map_to_list srcs) (replicate len 0))
  = len.
Proof.
  rewrite mix_sources_updates, apply_updates_length. apply length_replicate.
Qed.

Lemma saturate_fold_length (mix : list Z) (l : list nat) : forall out : list Z,
  length (fold_left (fun o i => <[i := clamp16 (mix !!! i)]> o) l out)
  = length out.
Proof.
  induction l as [|i l IH]; intros out; [reflexivity|].
  cbn [fold_left]. rewrite IH. apply length_insert.
Qed.

Lemma saturate_lookup (mix : list Z) : forall (n : nat) (out : list Z) (j : nat),
  fold_left (fun o i => <[i := clamp16 (mix !!! i)]> o) (seq 0 n) out !! j
  = if decide (j < n /\ j < length out)%nat
    then Some (clamp16 (mix !!! j)) else out !! j.
Proof.
  induction n as [|n IH]; intros out j.
  - cbn. destruct (decide _) as [[H _]|_]; [lia|reflexivity].
  - rewrite seq_S, fold_left_app. cbn [fold_left Nat.add].
    destruct (decide (n = j)) as [->|Hne].
    + destruct (decide (j < length out)%nat) as [Hlt|Hge].
      * rewrite list_lookup_insert_eq by (rewrite saturate_fold_length; exact Hlt).
        rewrite decide_True by lia. reflexivity.
      * rewrite list_insert_ge by (rewrite saturate_fold_length; lia).
        rewrite IH. rewrite !decide_False by lia. reflexivity.
    + rewrite list_lookup_insert_ne by exact Hne. rewrite IH.
      destruct (decide (j < n /\ j < length out)%nat) as [[H1 H2]|Hn].
      * rewrite decide_True by lia. reflexivity.
      * rewrite decide_False by lia. reflexivity.
Qed.

Lemma saturate_map mix out :
  length out = length mix -> saturate mix out = map clamp16 mix.
Proof.
  intros Hlen. apply list_eq. intros j. unfold saturate.
  rewrite saturate_lookup, Hlen, list_lookup_fmap.
  destruct (decide _) as [[H _]|Hn].
  - apply lookup_lt_is_Some_2 in H as [x Hx].
    rewrite Hx. cbn. rewrite (list_lookup_total_correct _ _ _ Hx). reflexivity.
  - rewrite !lookup_ge_None_2 by lia. reflexivity.
Qed.

Lemma mix_minus_self_computed cfg (srcs : gmap string AudioSource) (len : nat) recipient :
  map clamp16 (fold_left (mix_source cfg recipient) (map_to_list srcs)
                         (replicate len 0))
  = mix_minus_self cfg srcs len recipient.
Proof.
  apply list_eq. intros j. unfold mix_minus_self. rewrite !list_lookup_fmap.
  destruct (decide (j < len)%nat) as [Hlt|Hge].
  - rewrite mixed_lookup by exact Hlt. rewrite lookup_seq_lt by exact Hlt.
    reflexivity.
  - rewrite lookup_ge_None_2 by (rewrite mixed_length; lia).
    rewrite lookup_seq_ge by lia. reflexivity.
Qed.

(** The buffers of a mixer state have the sizes the constructor and
    [add_source] give them. *)
Definition well_formed (s : Impl) : Prop :=
  length (output_buffer s) = length (mix_buffer s)
  /\ length (mix_buffer s) = Z.to_nat (frame_size s)
  /\ map_Forall (fun _ src => length (buffer src) = length (mix_buffer s))
                (sources s).

(** The call the specification expects for one entry of the table. *)
Definition expected_call (s : Impl) (e : string * AudioSource) : MixedCall :=
  mkMixedCall (fst e)
    (mix_minus_self (config s) (sources s) (length (mix_buffer s)) (fst e))
    (last_timestamp (snd e)).

Lemma mix_for_spec s (e : string * AudioSource) :
  length (output_buffer s) = length (mix_buffer s) ->
  sources s !! fst e = Some (snd e) ->
  let s' := mix_for s e in
  mixed_out s'
  = mixed_out s ++ (if mixed_callback s then [expected_call s e] else [])
  /\ sources s' = sources s
  /\ config s' = config s
  /\ mixed_callback s' = mixed_callback s
  /\ length (mix_buffer s') = length (mix_buffer s)
  /\ length (output_buffer s') = length (mix_buffer s).
Proof.
  intros Hlen Hsrc. cbn zeta. unfold mix_for, set_buffers.
  cbn [mixed_out sources config mixed_callback mix_buffer output_buffer].
  rewrite Hsrc.
  rewrite saturate_map by (rewrite mixed_length; exact Hlen).
  rewrite mix_minus_self_computed, mixed_length.
  unfold mix_minus_self at 2. rewrite length_map, length_seq.
  repeat split. destruct (mixed_callback s); [reflexivity|].
  rewrite app_nil_r. reflexivity.
Qed.

Lemma fold_mix_for (entries : list (string * AudioSource)) : forall s,
  length (output_buffer s) = length (mix_buffer s) ->
  Forall (fun e => sources s !! fst e = Some (snd e)) entries ->
  let s' := fold_left mix_for entries s in
  mixed_out s'
  = mixed_out s ++ (if mixed_callback s then map (expected_call s) entries else [])
  /\ sources s' = sources s
  /\ config s' = config s
  /\ mixed_callback s' = mixed_callback s
  /\ length (mix_buffer s') = length (mix_buffer s)
  /\ length (output_buffer s') = length (mix_buffer s).
Proof.
  induction entries as [|e entries IH]; intros s Hlen Hall; cbn zeta.
  - cbn. destruct (mixed_callback s); rewrite app_nil_r; repeat split; exact Hlen.
  - apply Forall_cons in Hall as [He Hall]. cbn [fold_left].
    destruct (mix_for_spec s e Hlen He) as (A & B & C & D & E & F).
    destruct (IH (mix_for s e)) as (A' & B' & C' & D' & E' & F').
    { congruence. }
    { rewrite B. exact Hall. }
    rewrite A', A, B', C', D', E', F', B, C, D, E.
    repeat split.
    rewrite <- app_assoc. f_equal.
    destruct (mixed_callback s); [|reflexivity].
    cbn [app map]. f_equal. apply map_ext. intros e'.
    unfold expected_call. rewrite B, C, E. reflexivity.
Qed.

Lemma update_active_speaker_mix s :
  let s' := update_active_speaker s in
  sources s' = sources s /\ config s' = config s
  /\ mixed_callback s' = mixed_callback s
  /\ mix_buffer s' = mix_buffer s /\ output_buffer s' = output_buffer s
  /\ mixed_out s' = mixed_out s.
Proof.
  cbn zeta. unfold update_active_speaker.
  destruct (fold_left _ _ _) as [highest loudest].
  destruct (_ && _); repeat split.
Qed.

(** The calls [process] appends to the trace of the mixed-audio
    callback: none without a callback or without sources, otherwise one
    per entry of the source table, in table order. *)
Lemma process_calls s :
  length (output_buffer s) = length (mix_buffer s) ->
  mixed_out (process s)
  = mixed_out s
    ++ (if mixed_callback s
        then map (expected_call s) (map_to_list (sources s)) else []).
Proof.
  intros Hlen. unfold process.
  destruct (bool_decide (sources s = ∅)) eqn:Hempty.
  - apply bool_decide_eq_true in Hempty. rewrite Hempty, map_to_list_empty.
    destruct (mixed_callback s); cbn; rewrite app_nil_r; reflexivity.
  - cbn [mixed_out].
    destruct (update_active_speaker_mix s) as (A & B & C & D & E & F).
    destruct (fold_mix_for (map_to_list (sources (update_active_speaker s)))
                (update_active_speaker s)) as (A' & _).
    { congruence. }
    { apply Forall_forall. intros [k v] Hin. cbn [fst snd].
      apply elem_of_map_to_list. exact Hin. }
    rewrite A', F, C, A. f_equal.
    destruct (mixed_callback s); [|reflexivity].
    apply map_ext. intros e. unfold expected_call. rewrite A, B, D. reflexivity.
Qed.

(** *** Well-formed states are the reachable ones *)

Lemma initial_well_formed cfg : well_formed (initial cfg).
Proof.
  unfold well_formed, initial. cbn [output_buffer mix_buffer frame_size sources].
  rewrite !length_replicate. repeat split. apply map_Forall_empty.
Qed.

Lemma set_mixed_audio_callback_well_formed s :
  well_formed s -> well_formed (set_mixed_audio_callback s).
Proof. intros H. exact H. Qed.

Lemma add_source_well_formed pid p s :
  well_formed s -> well_formed (add_source pid p s).
Proof.
  intros (A & B & C). unfold well_formed, add_source.
  cbn [output_buffer mix_buffer frame_size sources].
  repeat split; try assumption.
  apply map_Forall_insert_2; [|exact C].
  cbn [buffer]. rewrite length_replicate. symmetry. exact B.
Qed.

Lemma push_audio_well_formed log10 pid samples ts s :
  well_formed s -> well_formed (push_audio log10 pid samples ts s).
Proof.
  intros (A & B & C). unfold push_audio.
  destruct (sources s !! pid) as [src|] eqn:E; [|repeat split; assumption].
  unfold well_formed, set_sources.
  cbn [output_buffer mix_buffer frame_size sources].
  repeat split; try assumption.
  apply map_Forall_insert_2; [|exact C].
  cbn [buffer]. specialize (C pid src E). cbn in C.
  rewrite length_app, length_take, length_drop. lia.
Qed.

(** *** Mono contributions, and independence from the recipient *)

Lemma filter_indexed (f : nat -> Z) (j n : nat) :
  filter (fun u : nat * Z => fst u = j) (map (fun i => (i, f i)) (seq 0 n))
  = if decide (j < n)%nat then [(j, f j)] else [].
Proof.
  induction n as [|n IH].
  - cbn. destruct (decide _); [lia|reflexivity].
  - rewrite seq_S, map_app, filter_app, IH. cbn [map Nat.add].
    destruct (decide (n = j)) as [->|Hne].
    + rewrite filter_cons_True by reflexivity. rewrite filter_nil.
      rewrite decide_False by lia. rewrite decide_True by lia. reflexivity.
    + rewrite filter_cons_False by (cbn; exact Hne). rewrite filter_nil, app_nil_r.
      destruct (decide (j < n)%nat).
      * rewrite decide_True by lia. reflexivity.
      * rewrite decide_False by lia. reflexivity.
Qed.

Lemma mono_contribution cfg len src (j : nat) :
  channels cfg = 1 ->
  contribution cfg len src j
  = if decide (j < length (buffer src))%nat
    then scale_sample (buffer src !!! j) (volume (params src)) else 0.
Proof.
  intros Hmono. unfold contribution, updates, mono_updates. rewrite Hmono.
  cbn [Z.eqb Pos.eqb].
  rewrite (filter_indexed
             (fun i => scale_sample (buffer src !!! i) (volume (params src)))).
  destruct (decide _); cbn; lia.
Qed.

Lemma heard_insert_own (srcs : gmap string AudioSource) recipient own own' :
  srcs !! recipient = Some own ->
  heard (<[recipient := own']> srcs) recipient ≡ₚ heard srcs recipient.
Proof.
  intros Hown. unfold heard.
  assert (Hskip : forall v l,
            filter (audible recipient) ((recipient, v) :: l)
            = filter (audible recipient) l).
  { intros v l. apply filter_cons_False. unfold audible. cbn. tauto. }
  rewrite <- (insert_delete_eq srcs recipient own').
  rewrite <- (insert_delete_id srcs recipient own Hown) at 2.
  rewrite !map_to_list_insert by apply lookup_delete_eq.
  rewrite !Hskip. reflexivity.
Qed.

Lemma mix_minus_self_insert_own cfg (srcs : gmap string AudioSource) len
    recipient own own' :
  srcs !! recipient = Some own ->
  mix_minus_self cfg (<[recipient := own']> srcs) len recipient
  = mix_minus_self cfg srcs len recipient.
Proof.
  intros Hown. unfold mix_minus_self. apply map_ext. intros j.
  f_equal. f_equal. apply Zsum_perm. apply Permutation_map.
  apply heard_insert_own with (own := own). exact Hown.
Qed.

(** The calls one [process] tick adds to the callback trace. *)
Definition tick_calls (s : Impl) : list MixedCall :=
  drop (length (mixed_out s)) (mixed_out (process s)).

Lemma tick_calls_spec s :
  length (output_buffer s) = length (mix_buffer s) ->
  tick_calls s
  = if mixed_callback s
    then map (expected_call s) (map_to_list (sources s)) else [].
Proof.
  intros Hlen. unfold tick_calls. rewrite (process_calls s Hlen).
  apply drop_app_length.
Qed.

Lemma own_sample_independence s recipient own own' :
  length (output_buffer s) = length (mix_buffer s) ->
  sources s !! recipient = Some own ->
  last_timestamp own' = last_timestamp own ->
  forall c, c ∈ tick_calls s -> mc_recipient c = recipient ->
            c ∈ tick_calls (set_sources s (<[recipient := own']> (sources s))).
Proof.
  intros Hlen Hown Hts c Hc Hr.
  rewrite tick_calls_spec in Hc by exact Hlen.
  rewrite tick_calls_spec by exact Hlen.
  unfold set_sources at 1. cbn [mixed_callback].
  destruct (mixed_callback s); [|exact Hc].
  apply list_elem_of_fmap in Hc as ([k v] & -> & Hin).
  cbn [expected_call mc_recipient fst] in Hr. subst k.
  apply elem_of_map_to_list in Hin. rewrite Hown in Hin. injection Hin as <-.
  apply list_elem_of_fmap. exists (recipient, own'). split.
  - unfold expected_call, set_sources.
    cbn [fst snd config sources mix_buffer].
    rewrite (mix_minus_self_insert_own _ _ _ _ own) by exact Hown.
    rewrite Hts. reflexivity.
  - apply elem_of_map_to_list. cbn [sources set_sources].
    apply lookup_insert_eq.
Qed.

(** *** The stereo loop, sample by sample *)

(** What the stereo loop adds at the even index [i] and at the odd
    index [i + 1]. *)
Definition left_term (src : AudioSource) (i : nat) : Z :=
  fst (apply_volume_and_pan (0, 0) (params src) (buffer src !!! i)).

Definition right_term (src : AudioSource) (i : nat) : Z :=
  snd (apply_volume_and_pan
         (apply_volume_and_pan (0, 0) (params src) (buffer src !!! i))
         (params src) (buffer src !!! S i)).

Lemma stereo_filter_even (A B : nat -> Z) (len k m : nat) :
  filter (fun u : nat * Z => fst u = (2 * k)%nat)
         (flat_map (fun i => (i, A i)
                             :: (if bool_decide (S i < len)%nat then [(S i, B i)] else []))
                   (map (fun n => (2 * n)%nat) (seq 0 m)))
  = if decide (k < m)%nat then [((2 * k)%nat, A (2 * k)%nat)] else [].
Proof.
  induction m as [|m IH].
  - cbn. destruct (decide _); [lia|reflexivity].
  - rewrite seq_S, map_app, flat_map_app, filter_app, IH.
    cbn [map flat_map Nat.add]. rewrite app_nil_r.
    assert (Hodd : filter (fun u : nat * Z => fst u = (2 * k)%nat)
                     (if bool_decide (S (2 * m) < len)%nat
                      then [(S (2 * m), B (2 * m)%nat)] else []) = []).
    { destruct (bool_decide _); [|reflexivity].
      rewrite filter_cons_False by (cbn [fst]; lia). reflexivity. }
    destruct (decide (m = k)) as [->|Hne].
    + rewrite filter_cons_True by reflexivity. rewrite Hodd.
      rewrite decide_False by lia. rewrite decide_True by lia. reflexivity.
    + rewrite filter_cons_False by (cbn [fst]; lia). rewrite Hodd, app_nil_r.
      destruct (decide (k < m)%nat).
      * rewrite decide_True by lia. reflexivity.
      * rewrite decide_False by lia. reflexivity.
Qed.

Lemma stereo_filter_odd (A B : nat -> Z) (len k m : nat) :
  filter (fun u : nat * Z => fst u = S (2 * k))
         (flat_map (fun i => (i, A i)
                             :: (if bool_decide (S i < len)%nat then [(S i, B i)] else []))
                   (map (fun n => (2 * n)%nat) (seq 0 m)))
  = if decide (k < m /\ S (2 * k) < len)%nat
    then [(S (2 * k), B (2 * k)%nat)] else [].
Proof.
  induction m as [|m IH].
  - cbn. destruct (decide _) as [[H _]|_]; [lia|reflexivity].
  - rewrite seq_S, map_app, flat_map_app, filter_app, IH.
    cbn [map flat_map Nat.add]. rewrite app_nil_r.
    rewrite filter_cons_False by (cbn [fst]; lia).
    destruct (decide (m = k)) as [->|Hne].
    + rewrite decide_False by lia. cbn [app].
      destruct (bool_decide (S (2 * k) < len)%nat) eqn:E.
      * apply bool_decide_eq_true in E.
        rewrite filter_cons_True by reflexivity. rewrite filter_nil.
        rewrite decide_True by lia. reflexivity.
      * apply bool_decide_eq_false in E. rewrite filter_nil.
        rewrite decide_False by lia. reflexivity.
    + assert (Hlast : filter (fun u : nat * Z => fst u = S (2 * k))
                        (if bool_decide (S (2 * m) < len)%nat
                         then [(S (2 * m), B (2 * m)%nat)] else []) = []).
      { destruct (bool_decide _); [|reflexivity].
        rewrite filter_cons_False by (cbn [fst]; lia). reflexivity. }
      rewrite Hlast, app_nil_r.
      destruct (decide (k < m /\ S (2 * k) < len)%nat) as [[H1 H2]|Hn].
      * rewrite decide_True by lia. reflexivity.
      * rewrite decide_False by lia. reflexivity.
Qed.

(** In a stereo mix a source adds [left_term] at an even index and
    [right_term] at an odd one. *)
Lemma stereo_contribution cfg src (j : nat) :
  channels cfg <> 1 -> (j < length (buffer src))%nat ->
  contribution cfg (length (buffer src)) src j
  = if Nat.even j then left_term src j else right_term src (j - 1).
Proof.
  intros Hst Hj. unfold contribution, updates.
  destruct (Z.eqb_spec (channels cfg) 1) as [E|_]; [contradiction|].
  change (stereo_updates (length (buffer src)) src)
    with (flat_map (fun i => (i, left_term src i)
                             :: (if bool_decide (S i < length (buffer src))%nat
                                 then [(S i, right_term src i)] else []))
                   (map (fun n => (2 * n)%nat)
                        (seq 0 (Nat.div2 (S (length (buffer src))))))).
  assert (Hhalf : forall k, (2 * k < length (buffer src))%nat ->
                           (k < Nat.div2 (S (length (buffer src))))%nat).
  { intros k Hk. rewrite Nat.div2_div.
    apply (Nat.div_le_lower_bound _ 2 (S k)); lia. }
  destruct (Nat.even j) eqn:Ev.
  - apply Nat.even_spec in Ev as [k ->].
    rewrite stereo_filter_even, decide_True by (apply Hhalf; lia).
    cbn. lia.
  - assert (Hodd : Nat.odd j = true) by (rewrite <- Nat.negb_even, Ev; reflexivity).
    apply Nat.odd_spec in Hodd as [k ->].
    replace (2 * k + 1)%nat with (S (2 * k)) in * by lia.
    rewrite stereo_filter_odd, decide_True by (split; [apply Hhalf|]; lia).
    replace (S (2 * k) - 1)%nat with (2 * k)%nat by lia.
    cbn. lia.
Qed.

(** *** The mix in the terms of the statement *)

(** A sample times a gain: the product in binary32, truncated toward
    zero. *)
Definition scaled (sample : Z) (gain : float32) : Z :=
  f32_to_int32 (f32_mul (f32_of_Z sample) gain).

(** The constant-power pan law. *)
Definition pan_left (volume pan : float32) : float32 :=
  f32_mul volume (f32_sqrt (f32_div (f32_sub f32_one pan) f32_two)).

Definition pan_right (volume pan : float32) : float32 :=
  f32_mul volume (f32_sqrt (f32_div (f32_add f32_one pan) f32_two)).

Definition saturated (v : Z) : Z :=
  if v <? -32768 then -32768 else if 32767 <? v then 32767 else v.

(** What one source heard adds to sample [j]: in mono its sample times
    its volume; in stereo its sample times the left gain at an even
    index, and at an odd index the sum of the previous sample and of
    its sample, each times the right gain. *)
Definition share (cfg : AudioSourceConfig) (src : AudioSource) (j : nat) : Z :=
  let vol := volume (params src) in
  if channels cfg =? 1 then scaled (buffer src !!! j) vol
  else if Nat.even j then scaled (buffer src !!! j) (pan_left vol (pan (params src)))
  else scaled (buffer src !!! (j - 1)%nat) (pan_right vol (pan (params src)))
       + scaled (buffer src !!! j) (pan_right vol (pan (params src))).

Definition stated_mix (cfg : AudioSourceConfig) (srcs : gmap string AudioSource)
    (len : nat) (recipient : string) : list Z :=
  map (fun j => saturated (to_int32 (Zsum (map (fun src => share cfg src j)
                                               (heard srcs recipient)))))
      (seq 0 len).

Lemma clamp16_saturated v : clamp16 v = saturated v.
Proof.
  unfold clamp16, saturated.
  destruct (Z.ltb_spec v (-32768)); [lia|].
  destruct (Z.ltb_spec 32767 v); lia.
Qed.

Lemma to_int32_Zsum {A} (f g : A -> Z) (l : list A) :
  Forall (fun x => to_int32 (f x) = to_int32 (g x)) l ->
  to_int32 (Zsum (map f l)) = to_int32 (Zsum (map g l)).
Proof.
  induction 1 as [|x l Hx _ IH]; [reflexivity|]. cbn [map Zsum].
  rewrite <- to_int32_add_l, <- to_int32_add_r, Hx, IH.
  rewrite to_int32_add_l, to_int32_add_r. reflexivity.
Qed.

Lemma contribution_share cfg src (j : nat) :
  muted (params src) = false -> (j < length (buffer src))%nat ->
  to_int32 (contribution cfg (length (buffer src)) src j) = to_int32 (share cfg src j).
Proof.
  intros Hm Hj. unfold share.
  destruct (Z.eqb_spec (channels cfg) 1) as [Hmono|Hst].
  - rewrite (mono_contribution _ _ _ _ Hmono), decide_True by exact Hj. reflexivity.
  - rewrite (stereo_contribution _ _ _ Hst Hj).
    unfold left_term, right_term, apply_volume_and_pan. rewrite Hm.
    cbn [fst snd]. cbv zeta.
    unfold scaled, pan_left, pan_right, scale_sample, left_gain, right_gain.
    destruct (Nat.even j) eqn:Ev.
    + rewrite to_int32_idem. f_equal.
    + destruct j as [|i]; [discriminate Ev|].
      replace (S i - 1)%nat with i by lia.
      rewrite to_int32_idem, to_int32_add_l. f_equal.
Qed.

Lemma heard_elem (srcs : gmap string AudioSource) recipient src :
  src ∈ heard srcs recipient ->
  muted (params src) = false
  /\ exists k, k <> recipient /\ srcs !! k = Some src /\ has_data src = true.
Proof.
  unfold heard. intros Hin.
  apply list_elem_of_fmap in Hin as ([k v] & -> & Hin).
  apply list_elem_of_filter in Hin as [(Hk & Hd & Hm) Hin].
  apply elem_of_map_to_list in Hin. cbn [fst snd] in *.
  split; [exact Hm|]. exists k. auto.
Qed.

Lemma stated_mix_computed cfg (srcs : gmap string AudioSource) (len : nat) recipient :
  map_Forall (fun _ src => length (buffer src) = len) srcs ->
  mix_minus_self cfg srcs len recipient = stated_mix cfg srcs len recipient.
Proof.
  intros Hbuf. unfold mix_minus_self, stated_mix. apply map_ext_in.
  intros j Hj. apply in_seq in Hj. rewrite clamp16_saturated. f_equal.
  apply to_int32_Zsum. apply Forall_forall. intros src Hsrc.
  apply heard_elem in Hsrc as (Hm & k & _ & Hk & _).
  specialize (Hbuf k src Hk). cbn in Hbuf. subst len.
  apply contribution_share; [exact Hm|lia].
Qed.

(** *** Gains the arithmetic can be read off *)

Fixpoint forall_range (P : Z -> bool) (lo : Z) (n : nat) : bool :=
  match n with
  | O => true
  | S n' => P lo && forall_range P (lo + 1) n'
  end.

Lemma forall_range_spec (P : Z -> bool) : forall (n : nat) (lo x : Z),
  forall_range P lo n = true -> lo <= x < lo + Z.of_nat n -> P x = true.
Proof.
  induction n as [|n IH]; intros lo x H Hx; [lia|].
  cbn [forall_range] in H. apply andb_true_iff in H as [H0 H1].
  destruct (Z.eq_dec x lo) as [->|Hne]; [exact H0|].
  apply (IH (lo + 1)); [exact H1|lia].
Qed.

Definition half_volume : float32 := f32_div f32_one f32_two.

(** On 16-bit samples: volume 1 keeps the sample, volume 1/2 halves it
    and drops the fraction, volume 0 silences it. *)
Lemma scaled_int16 (x : Z) :
  -32768 <= x <= 32767 ->
  scaled x f32_one = x /\ scaled x half_volume = Z.quot x 2 /\ scaled x f32_zero = 0.
Proof.
  intros Hx.
  assert (Hall : forall_range
                   (fun x => (scaled x f32_one =? x)
                             && (scaled x half_volume =? Z.quot x 2)
                             && (scaled x f32_zero =? 0))
                   (-32768) (Z.to_nat 65536) = true).
  { vm_compute. reflexivity. }
  pose proof (forall_range_spec _ _ _ x Hall) as H.
  rewrite Z2Nat.id in H by lia. specialize (H ltac:(lia)).
  apply andb_true_iff in H as [H H3]. apply andb_true_iff in H as [H1 H2].
  apply Z.eqb_eq in H1, H2, H3. auto.
Qed.

(** C2, as amended.  In a mixer whose buffers have the frame size, as
    the constructor, [add_source] and [push_audio] leave them, one
    [process] tick hands the mixed-audio callback (when one is
    installed) exactly one call per source of the table, so at most one
    per recipient, each with a frame of 16-bit samples.  Sample [j] of
    the call for recipient R is the sum, computed in [int32_t] and
    saturated to [-32768, 32767], over the sources other than R that
    have data and are not muted, of: in mono, the source's sample [j]
    times its volume; in stereo, for even [j], sample [j] times
    volume * sqrt((1 - pan) / 2), and for odd [j], sample [j - 1] plus
    sample [j], each times volume * sqrt((1 + pan) / 2).  Each product
    is computed in binary32 and truncated toward zero: on a 16-bit
    sample, volume 1 gives the sample, volume 1/2 its half without the
    fraction, volume 0 nothing.  Replacing what R itself pushed leaves
    the call made for R as it was. *)
Theorem mix_minus_self_amended (s : Impl) :
  well_formed s ->
  (tick_calls s
   = if mixed_callback s
     then map (fun e : string * AudioSource =>
                 mkMixedCall (fst e)
                   (stated_mix (config s) (sources s) (length (mix_buffer s)) (fst e))
                   (last_timestamp (snd e)))
              (map_to_list (sources s))
     else [])
  /\ NoDup (map mc_recipient (tick_calls s))
  /\ (forall c, c ∈ tick_calls s ->
        length (mc_samples c) = Z.to_nat (frame_size s)
        /\ Forall (fun v => -32768 <= v <= 32767) (mc_samples c))
  /\ (forall x, -32768 <= x <= 32767 ->
        scaled x f32_one = x /\ scaled x half_volume = Z.quot x 2
        /\ scaled x f32_zero = 0)
  /\ (forall log10 recipient samples1 samples2 ts c,
        c ∈ tick_calls (push_audio log10 recipient samples1 ts s) ->
        mc_recipient c = recipient ->
        c ∈ tick_calls (push_audio log10 recipient samples2 ts s)).
Proof.
  intros (Hlen & Hfs & Hbuf).
  assert (Hcalls : tick_calls s
                   = if mixed_callback s
                     then map (fun e : string * AudioSource =>
                                 mkMixedCall (fst e)
                                   (stated_mix (config s) (sources s)
                                               (length (mix_buffer s)) (fst e))
                                   (last_timestamp (snd e)))
                              (map_to_list (sources s))
                     else []).
  { rewrite tick_calls_spec by exact Hlen.
    destruct (mixed_callback s); [|reflexivity].
    apply map_ext. intros e. unfold expected_call.
    rewrite (stated_mix_computed _ _ _ _ Hbuf). reflexivity. }
  split; [exact Hcalls|]. split; [|split; [|split]].
  - rewrite tick_calls_spec by exact Hlen.
    destruct (mixed_callback s); [|constructor].
    rewrite map_map. cbn [expected_call mc_recipient].
    apply (NoDup_fst_map_to_list (sources s)).
  - intros c Hc. rewrite Hcalls in Hc.
    destruct (mixed_callback s); [|apply elem_of_nil in Hc; contradiction].
    apply list_elem_of_fmap in Hc as (e & -> & _). cbn [mc_samples].
    unfold stated_mix. split; [rewrite length_map, length_seq; exact Hfs|].
    apply Forall_forall. intros v Hv.
    apply list_elem_of_fmap in Hv as (j & -> & _).
    unfold saturated.
    destruct (Z.ltb_spec (to_int32 (Zsum (map (fun src => share (config s) src j)
                                              (heard (sources s) (fst e))))) (-32768));
      [lia|].
    destruct (Z.ltb_spec 32767 (to_int32 (Zsum (map (fun src => share (config s) src j)
                                                    (heard (sources s) (fst e))))));
      lia.
  - exact scaled_int16.
  - intros log10 recipient samples1 samples2 ts c Hc Hr.
    unfold push_audio in *.
    destruct (sources s !! recipient) as [own|] eqn:Hown; [|exact Hc].
    set (own1 := mkAudioSource _ _ _ ts _ true) in Hc.
    set (own2 := mkAudioSource _ _ _ ts _ true).
    pose proof (own_sample_independence
                  (set_sources s (<[recipient := own1]> (sources s)))
                  recipient own1 own2 Hlen (lookup_insert_eq _ _ _) eq_refl
                  c Hc Hr) as Hc2.
    unfold set_sources in Hc2 |- *.
    cbn [sources config mixed_callback speaker_callback active_speaker stats
         mix_buffer output_buffer frame_size mixed_out speaker_out] in Hc2.
    rewrite insert_insert_eq in Hc2. exact Hc2.
Qed.

Definition unit_params : MixingParams := mkMixingParams f32_one f32_zero false false.

Definition no_log10 (x : spec_float) : spec_float := x.

(** Three mono sources of four samples each, holding the constant
    values 1000, 2000 and 3000. *)
Definition three_sources : Impl :=
  push_audio no_log10 "P3" (replicate 4 3000) 30
    (push_audio no_log10 "P2" (replicate 4 2000) 20
       (push_audio no_log10 "P1" (replicate 4 1000) 10
          (set_mixed_audio_callback
             (add_source "P3" unit_params
                (add_source "P2" unit_params
                   (add_source "P1" unit_params
                      (initial (mkAudioSourceConfig 200 1 20)))))))).

Lemma three_sources_well_formed : well_formed three_sources.
Proof.
  unfold three_sources.
  do 3 apply push_audio_well_formed.
  apply set_mixed_audio_callback_well_formed.
  do 3 apply add_source_well_formed.
  apply initial_well_formed.
Qed.

(** A mono mixer with four sources: P1 at volume 1/2, P2 and P3 at
    volume 1, and P4 muted. *)
Definition mono_mix : Impl :=
  push_audio no_log10 "P4" [9; 9; 9; 9] 40
    (push_audio no_log10 "P3" [0; 0; 30000; -30000] 30
       (push_audio no_log10 "P2" [3; -3; 30000; -30000] 20
          (push_audio no_log10 "P1" [1001; -1001; 30000; -30000] 10
             (set_mixed_audio_callback
                (add_source "P4" (mkMixingParams f32_one f32_zero true false)
                   (add_source "P3" unit_params
                      (add_source "P2" unit_params
                         (add_source "P1" (mkMixingParams half_volume f32_zero false false)
                            (initial (mkAudioSourceConfig 200 1 20)))))))))).

Lemma mono_mix_well_formed : well_formed mono_mix.
Proof.
  unfold mono_mix.
  do 4 apply push_audio_well_formed.
  apply set_mixed_audio_callback_well_formed.
  do 4 apply add_source_well_formed.
  apply initial_well_formed.
Qed.

(** A stereo mixer (frames of eight samples): A centred, B panned hard
    left and C, which has pushed nothing, panned hard right; all at
    volume 1. *)
Definition stereo_mix : Impl :=
  push_audio no_log10 "B" [100; 200; 300; 400; 500; 600; 700; 800] 20
    (push_audio no_log10 "A" [1000; 2000; 1000; 2000; -1000; -2000; 30000; 30000] 10
       (set_mixed_audio_callback
          (add_source "C" (mkMixingParams f32_one f32_one false false)
             (add_source "B" (mkMixingParams f32_one (f32_of_Z (-1)) false false)
                (add_source "A" unit_params
                   (initial (mkAudioSourceConfig 200 2 20))))))).

Lemma stereo_mix_well_formed : well_formed stereo_mix.
Proof.
  unfold stereo_mix.
  do 2 apply push_audio_well_formed.
  apply set_mixed_audio_callback_well_formed.
  do 3 apply add_source_well_formed.
  apply initial_well_formed.
Qed.

Lemma mix_minus_self_amended_witness :
  (tick_calls mono_mix
   = map (fun e : string * AudioSource =>
            mkMixedCall (fst e)
              (stated_mix (config mono_mix) (sources mono_mix)
                          (length (mix_buffer mono_mix)) (fst e))
              (last_timestamp (snd e)))
         (map_to_list (sources mono_mix)))
  /\ tick_calls mono_mix
     = [mkMixedCall "P3" [503; -503; 32767; -32768] 30;
        mkMixedCall "P1" [3; -3; 32767; -32768] 10;
        mkMixedCall "P2" [500; -500; 32767; -32768] 20;
        mkMixedCall "P4" [503; -503; 32767; -32768] 40]
  /\ (tick_calls stereo_mix
      = map (fun e : string * AudioSource =>
               mkMixedCall (fst e)
                 (stated_mix (config stereo_mix) (sources stereo_mix)
                             (length (mix_buffer stereo_mix)) (fst e))
                 (last_timestamp (snd e)))
            (map_to_list (sources stereo_mix)))
  /\ tick_calls stereo_mix
     = [mkMixedCall "C" [807; 2121; 1007; 2121; -207; -2121; 21913; 32767] 0;
        mkMixedCall "A" [100; 0; 300; 0; 500; 0; 700; 0] 10;
        mkMixedCall "B" [707; 2121; 707; 2121; -707; -2121; 21213; 32767] 20].
Proof.
  pose proof (mix_minus_self_amended mono_mix mono_mix_well_formed) as (Hm & _).
  pose proof (mix_minus_self_amended stereo_mix stereo_mix_well_formed) as (Hs & _).
  split; [exact Hm|]. split; [vm_compute; reflexivity|].
  split; [exact Hs|]. vm_compute. reflexivity.
Defined.

(** The mix as C2 words it: the saturated sum, over the sources heard,
    of each sample times the source's volume. *)
Definition volume_only_mix (srcs : gmap string AudioSource) (len : nat)
    (recipient : string) : list Z :=
  map (fun j => saturated (Zsum (map (fun src => scaled (buffer src !!! j)
                                                        (volume (params src)))
                                     (heard srcs recipient))))
      (seq 0 len).

(** C2 fails as stated: in a stereo mixer the pan law scales every
    source heard, also a centred one at volume 1.  B hears only A, whose
    samples are 1000, 2000, ...; B is handed 707, 2121, ... *)
Lemma mix_minus_self_counterexample :
  well_formed stereo_mix
  /\ volume_only_mix (sources stereo_mix) 8 "B"
     = [1000; 2000; 1000; 2000; -1000; -2000; 30000; 30000]
  /\ exists c, c ∈ tick_calls stereo_mix
               /\ mc_recipient c = "B"
               /\ mc_samples c = [707; 2121; 707; 2121; -707; -2121; 21213; 32767]
               /\ mc_samples c <> volume_only_mix (sources stereo_mix) 8 "B".
Proof.
  split; [exact stereo_mix_well_formed|]. split; [vm_compute; reflexivity|].
  exists (mkMixedCall "B" [707; 2121; 707; 2121; -707; -2121; 21213; 32767] 20).
  split; [|split; [reflexivity|split; [reflexivity|vm_compute; discriminate]]].
  replace (tick_calls stereo_mix)
    with [mkMixedCall "C" [807; 2121; 1007; 2121; -207; -2121; 21913; 32767] 0;
          mkMixedCall "A" [100; 0; 300; 0; 500; 0; 700; 0] 10;
          mkMixedCall "B" [707; 2121; 707; 2121; -707; -2121; 21213; 32767] 20]
    by (vm_compute; reflexivity).
  apply list_elem_of_In. right. right. left. reflexivity.
Qed.

End MixerProofs.

(** ** RTP forwarder: delivery, accounting and table maintenance *)

Module ForwarderLaws.
Import Forwarder.

(** The two tests of the forwarding loop. *)
Definition passes (stream : PublisherStream) (rule : ForwardingRule) : bool :=
  is_active rule
  && negb ((0 <=? preferred_simulcast_layer rule)
           && (0 <=? simulcast_layer (info stream))
           && negb (simulcast_layer (info stream) =? preferred_simulcast_layer rule)).

Definition rewrites (stream : PublisherStream) (rule : ForwardingRule) : bool :=
  negb (rewritten_ssrc rule =? 0)
  && negb (rewritten_ssrc rule =? ssrc (info stream)).

(** The call a passing rule produces. *)
Definition emitted (stream : PublisherStream) (packet : list Z)
    (rule : ForwardingRule) : SinkCall :=
  mkSinkCall (subscriber_id rule)
             (if rewrites stream rule
              then rewrite_ssrc packet (rewritten_ssrc rule) else packet)
             (destination rule).

Definition count_n (n : nat) (size : Z) (st : ForwarderStats) : ForwarderStats :=
  Nat.iter n (fun st => count_forwarded st size) st.

Lemma forward_rule_cases stream packet s rule :
  forward_rule stream packet s rule
  = if passes stream rule && forward_callback s
    then mkImpl (forward_callback s) (ssrc_to_stream s) (publisher_ssrcs s)
                (count_forwarded (stats s) (Z.of_nat (length packet)))
                (if rewrites stream rule
                 then rewrite_ssrc packet (rewritten_ssrc rule)
                 else forward_buffer s)
                (sent s ++ [emitted stream packet rule])
    else s.
Proof.
  unfold forward_rule, passes, emitted, rewrites.
  destruct (is_active rule); cbn [negb andb]; [|reflexivity].
  destruct ((0 <=? preferred_simulcast_layer rule)
            && (0 <=? simulcast_layer (info stream))
            && negb (simulcast_layer (info stream) =? preferred_simulcast_layer rule));
    cbn [negb andb]; [reflexivity|].
  destruct (forward_callback s); [|reflexivity].
  destruct (negb (rewritten_ssrc rule =? 0)
            && negb (rewritten_ssrc rule =? ssrc (info stream))); reflexivity.
Qed.

Lemma count_n_succ n size st :
  count_n n size (count_forwarded st size) = count_n (S n) size st.
Proof.
  unfold count_n. rewrite Nat.iter_succ.
  apply (Nat.iter_swap n _ (fun st => count_forwarded st size)).
Qed.

Lemma forward_rule_fields stream packet s rule :
  let s' := forward_rule stream packet s rule in
  let fired := passes stream rule && forward_callback s in
  sent s' = sent s ++ (if fired then [emitted stream packet rule] else [])
  /\ stats s' = (if fired
                 then count_forwarded (stats s) (Z.of_nat (length packet))
                 else stats s)
  /\ ssrc_to_stream s' = ssrc_to_stream s
  /\ publisher_ssrcs s' = publisher_ssrcs s
  /\ forward_callback s' = forward_callback s.
Proof.
  cbn zeta. rewrite forward_rule_cases.
  destruct (passes stream rule && forward_callback s); cbn; repeat split.
  rewrite app_nil_r. reflexivity.
Qed.

(** What the forwarding loop does to the trace, the statistics and the
    tables, for any rule list. *)
Lemma forward_rules_trace stream packet (rules : list ForwardingRule) : forall s,
  let s' := fold_left (forward_rule stream packet) rules s in
  let fired := if forward_callback s then List.filter (passes stream) rules else [] in
  sent s' = sent s ++ map (emitted stream packet) fired
  /\ stats s' = count_n (length fired) (Z.of_nat (length packet)) (stats s)
  /\ ssrc_to_stream s' = ssrc_to_stream s
  /\ publisher_ssrcs s' = publisher_ssrcs s
  /\ forward_callback s' = forward_callback s.
Proof.
  induction rules as [|rule rules IH]; intros s; cbn zeta.
  - cbn. destruct (forward_callback s); rewrite app_nil_r; repeat split.
  - cbn [fold_left List.filter].
    destruct (IH (forward_rule stream packet s rule)) as (A & B & C & D & E).
    destruct (forward_rule_fields stream packet s rule) as (A0 & B0 & C0 & D0 & E0).
    rewrite A, B, C, D, E, A0, B0, C0, D0, E0.
    destruct (forward_callback s); destruct (passes stream rule); cbn [andb].
    + cbn [map length]. rewrite <- app_assoc, count_n_succ. repeat split.
    + rewrite app_nil_r. repeat split.
    + rewrite app_nil_r. repeat split.
    + rewrite app_nil_r. repeat split.
Qed.

Lemma count_n_counters n size st :
  0 <= size ->
  0 <= packets_forwarded st -> packets_forwarded st + Z.of_nat n < 2 ^ 64 ->
  0 <= bytes_forwarded st -> bytes_forwarded st + Z.of_nat n * size < 2 ^ 64 ->
  let st' := count_n n size st in
  packets_forwarded st' = packets_forwarded st + Z.of_nat n
  /\ bytes_forwarded st' = bytes_forwarded st + Z.of_nat n * size
  /\ packets_received st' = packets_received st
  /\ bytes_received st' = bytes_received st
  /\ packets_dropped st' = packets_dropped st
  /\ active_publishers st' = active_publishers st
  /\ active_subscribers st' = active_subscribers st.
Proof.
  intros Hsize. cbn zeta. unfold count_n.
  induction n as [|n IH]; intros Hp1 Hp2 Hb1 Hb2.
  - cbn. repeat split; lia.
  - rewrite !Nat.iter_succ. destruct IH as (A & B & C & D & E & F & G); try lia; try nia.
    set (stn := Nat.iter n (fun st => count_forwarded st size) st) in *.
    unfold count_forwarded.
    cbn [packets_forwarded bytes_forwarded packets_received bytes_received
         packets_dropped active_publishers active_subscribers].
    rewrite A, B. rewrite !to_uint64_id by nia.
    repeat split; try assumption; nia.
Qed.

(** The calls one [on_rtp_packet] adds to the trace. *)
Definition new_calls (s s' : Impl) : list SinkCall :=
  drop (length (sent s)) (sent s').

Lemma on_rtp_packet_trace ssrc0 packet s :
  let s' := on_rtp_packet ssrc0 packet s in
  sent s'
  = sent s
    ++ match ssrc_to_stream s !! ssrc0 with
       | Some stream =>
           map (emitted stream packet)
               (if forward_callback s
                then List.filter (passes stream) (subscribers stream) else [])
       | None => []
       end
  /\ ssrc_to_stream s' = ssrc_to_stream s
  /\ publisher_ssrcs s' = publisher_ssrcs s.
Proof.
  cbn zeta. unfold on_rtp_packet, set_stats. cbn [ssrc_to_stream stats].
  destruct (ssrc_to_stream s !! ssrc0) as [stream|].
  - unfold forward_packet.
    match goal with |- context [fold_left _ _ ?s1] =>
      destruct (forward_rules_trace stream packet (subscribers stream) s1)
        as (A & _ & C & D & _) end.
    rewrite A, C, D. repeat split.
  - cbn. rewrite app_nil_r. repeat split.
Qed.

Lemma new_calls_spec ssrc0 packet s :
  new_calls s (on_rtp_packet ssrc0 packet s)
  = match ssrc_to_stream s !! ssrc0 with
    | Some stream =>
        map (emitted stream packet)
            (if forward_callback s
             then List.filter (passes stream) (subscribers stream) else [])
    | None => []
    end.
Proof.
  unfold new_calls. rewrite (proj1 (on_rtp_packet_trace ssrc0 packet s)).
  apply drop_app_length.
Qed.

(** Every call comes from a rule of the stream that passed both tests. *)
Lemma new_call_origin ssrc0 packet s c :
  c ∈ new_calls s (on_rtp_packet ssrc0 packet s) ->
  exists stream rule,
    ssrc_to_stream s !! ssrc0 = Some stream
    /\ rule ∈ subscribers stream
    /\ passes stream rule = true
    /\ c = emitted stream packet rule.
Proof.
  rewrite new_calls_spec. destruct (ssrc_to_stream s !! ssrc0) as [stream|].
  - intros Hc. apply list_elem_of_fmap in Hc as (rule & -> & Hin).
    exists stream, rule. destruct (forward_callback s); [|inversion Hin].
    apply list_elem_of_In, filter_In in Hin as [Hin Hp].
    repeat split; try assumption. apply list_elem_of_In. exact Hin.
  - intros Hc. inversion Hc.
Qed.

(** The forwarder changes nothing but the SSRC field: every call of an
    [on_rtp_packet] goes to the subscriber and destination of an active
    rule of the stream registered under the SSRC, carries as many bytes
    as the packet, agrees with it outside offsets 8..11, and is the
    packet itself when the rule asks for no rewrite or the packet is
    shorter than an RTP header. *)
Theorem forwarded_bytes_intact (ssrc0 : Z) (packet : list Z) (s : Impl) (c : SinkCall) :
  c ∈ new_calls s (on_rtp_packet ssrc0 packet s) ->
  exists stream rule,
    ssrc_to_stream s !! ssrc0 = Some stream
    /\ rule ∈ subscribers stream
    /\ is_active rule = true
    /\ sc_subscriber c = subscriber_id rule
    /\ sc_destination c = destination rule
    /\ length (sc_bytes c) = length packet
    /\ (forall i : nat, (i < 8 \/ 12 <= i)%nat -> sc_bytes c !! i = packet !! i)
    /\ (rewritten_ssrc rule = 0 \/ rewritten_ssrc rule = ssrc (info stream)
        \/ (length packet < 12)%nat -> sc_bytes c = packet).
Proof.
  intros Hc. apply new_call_origin in Hc as (stream & rule & Hs & Hin & Hp & ->).
  exists stream, rule. unfold passes in Hp. apply andb_true_iff in Hp as [Ha _].
  unfold emitted. cbn [sc_subscriber sc_destination sc_bytes].
  repeat split; try assumption.
  - destruct (rewrites stream rule); [apply ForwarderProofs.rewrite_ssrc_length|reflexivity].
  - intros i Hi. destruct (rewrites stream rule);
      [apply ForwarderProofs.rewrite_ssrc_outside; exact Hi|reflexivity].
  - intros Hno. unfold rewrites.
    destruct Hno as [E|[E|E]].
    + rewrite E. reflexivity.
    + rewrite E, Z.eqb_refl. cbn. rewrite andb_false_r. reflexivity.
    + destruct (_ && _); [|reflexivity]. unfold rewrite_ssrc.
      destruct (Z.leb_spec 12 (Z.of_nat (length packet))); [lia|reflexivity].
Qed.

Lemma forwarded_bytes_intact_witness :
  exists stream rule,
    ssrc_to_stream
      (set_forward_callback ForwarderProofs.collision_before) !! 0xAABBCCDD
    = Some stream
    /\ rule ∈ subscribers stream
    /\ is_active rule = true
    /\ "bob" = subscriber_id rule
    /\ mkSocketAddress "10.0.0.2" 5000 = destination rule
    /\ length (rewrite_ssrc ForwarderProofs.demo_packet 0x11223344)
       = length ForwarderProofs.demo_packet
    /\ (forall i : nat, (i < 8 \/ 12 <= i)%nat ->
          rewrite_ssrc ForwarderProofs.demo_packet 0x11223344 !! i
          = ForwarderProofs.demo_packet !! i)
    /\ (rewritten_ssrc rule = 0 \/ rewritten_ssrc rule = ssrc (info stream)
        \/ (length ForwarderProofs.demo_packet < 12)%nat ->
        rewrite_ssrc ForwarderProofs.demo_packet 0x11223344
        = ForwarderProofs.demo_packet).
Proof.
  apply (forwarded_bytes_intact 0xAABBCCDD ForwarderProofs.demo_packet
           (set_forward_callback ForwarderProofs.collision_before)
           (mkSinkCall "bob" (rewrite_ssrc ForwarderProofs.demo_packet 0x11223344)
                       (mkSocketAddress "10.0.0.2" 5000))).
  vm_compute. left.
Defined.

(** The rules of a stream that a packet is forwarded to. *)
Definition fired_rules (s : Impl) (stream : PublisherStream) : list ForwardingRule :=
  if forward_callback s then List.filter (passes stream) (subscribers stream) else [].

(** Counters far enough from 2^64 for one more packet of [len] bytes
    fanned out to [fanout] rules. *)
Definition headroom (st : ForwarderStats) (len : Z) (fanout : nat) : Prop :=
  0 <= packets_received st /\ packets_received st + 1 < 2 ^ 64
  /\ 0 <= bytes_received st /\ bytes_received st + len < 2 ^ 64
  /\ 0 <= packets_dropped st /\ packets_dropped st + 1 < 2 ^ 64
  /\ 0 <= packets_forwarded st /\ packets_forwarded st + Z.of_nat fanout < 2 ^ 64
  /\ 0 <= bytes_forwarded st /\ bytes_forwarded st + Z.of_nat fanout * len < 2 ^ 64.

(** Accounting of [on_rtp_packet].  Every packet is counted as received.
    A packet of an unknown SSRC is counted as dropped and sent to nobody.
    A packet of a known SSRC is never counted as dropped, even when no
    rule takes it; [packets_forwarded] grows by the number of calls made
    and [bytes_forwarded] by that number times the packet length. *)
Theorem on_rtp_packet_accounting (ssrc0 : Z) (packet : list Z) (s : Impl) :
  let len := Z.of_nat (length packet) in
  let fired := match ssrc_to_stream s !! ssrc0 with
               | Some stream => fired_rules s stream
               | None => []
               end in
  headroom (stats s) len (length fired) ->
  let s' := on_rtp_packet ssrc0 packet s in
  packets_received (stats s') = packets_received (stats s) + 1
  /\ bytes_received (stats s') = bytes_received (stats s) + len
  /\ length (new_calls s s') = length fired
  /\ packets_forwarded (stats s') = packets_forwarded (stats s) + Z.of_nat (length fired)
  /\ bytes_forwarded (stats s')
     = bytes_forwarded (stats s) + Z.of_nat (length fired) * len
  /\ packets_dropped (stats s')
     = packets_dropped (stats s)
       + match ssrc_to_stream s !! ssrc0 with Some _ => 0 | None => 1 end.
Proof.
  cbn zeta. intros (R1 & R2 & B1 & B2 & D1 & D2 & F1 & F2 & G1 & G2).
  rewrite new_calls_spec. unfold on_rtp_packet, set_stats, fired_rules in *.
  cbn [ssrc_to_stream stats].
  destruct (ssrc_to_stream s !! ssrc0) as [stream|].
  - unfold forward_packet.
    match goal with |- context [fold_left _ _ ?s1] =>
      destruct (forward_rules_trace stream packet (subscribers stream) s1)
        as (_ & B & _) end.
    rewrite B. cbn [forward_callback stats].
    match goal with |- context [count_n ?n ?sz ?st] =>
      destruct (count_n_counters n sz st) as (P1 & P2 & P3 & P4 & P5 & _) end;
      cbn [packets_forwarded bytes_forwarded]; try lia.
    rewrite P1, P2, P3, P4, P5.
    cbn [packets_forwarded bytes_forwarded packets_received bytes_received
         packets_dropped].
    rewrite !to_uint64_id by lia. rewrite length_map. repeat split; lia.
  - cbn [stats packets_forwarded bytes_forwarded packets_received bytes_received
         packets_dropped length].
    rewrite !to_uint64_id by lia. repeat split; lia.
Qed.

(** A forwarder with a callback, publisher "alice" on SSRC 0xAABBCCDD
    and two subscribers, one of them asking for a rewritten SSRC. *)
Definition fanout_state : Impl :=
  add_subscription "alice" "dave"
    (mkForwardingRule "" (mkSocketAddress "10.0.0.3" 5002) 0 (-1) true)
    (add_subscription "alice" "bob"
       (mkForwardingRule "" (mkSocketAddress "10.0.0.2" 5000) 0x11223344 (-1) true)
       (add_publisher "alice" "cam"
          (mkRtpStreamInfo 0xAABBCCDD 96 false 1 "vp8")
          (set_forward_callback initial))).

Definition rtp_sample : list Z :=
  [0x80; 96; 0; 1; 0; 0; 0; 160; 0xAA; 0xBB; 0xCC; 0xDD; 1; 2; 3; 4].

Lemma on_rtp_packet_accounting_witness :
  let s' := on_rtp_packet 0xAABBCCDD rtp_sample fanout_state in
  packets_received (stats s') = 0 + 1
  /\ bytes_received (stats s') = 0 + 16
  /\ length (new_calls fanout_state s') = 2%nat
  /\ packets_forwarded (stats s') = 0 + 2
  /\ bytes_forwarded (stats s') = 0 + 2 * 16
  /\ packets_dropped (stats s') = 0 + 0.
Proof.
  apply (on_rtp_packet_accounting 0xAABBCCDD rtp_sample fanout_state).
  vm_compute. repeat split; congruence.
Defined.

(** *** Unsubscribing and layer pinning *)

Lemma fold_alter_other (f : PublisherStream -> PublisherStream) (ssrcs : list Z) :
  forall (m : gmap Z PublisherStream) k,
    k ∉ ssrcs -> fold_left (fun m x => alter f x m) ssrcs m !! k = m !! k.
Proof.
  induction ssrcs as [|x ssrcs IH]; intros m k Hk; [reflexivity|].
  cbn [fold_left]. apply not_elem_of_cons in Hk as [Hne Hk].
  rewrite IH by exact Hk. apply lookup_alter_ne. congruence.
Qed.

Lemma fold_alter_establishes (f : PublisherStream -> PublisherStream)
    (Q : PublisherStream -> Prop) (ssrcs : list Z) :
  (forall st, Q (f st)) ->
  forall (m : gmap Z PublisherStream) k st,
    k ∈ ssrcs ->
    fold_left (fun m x => alter f x m) ssrcs m !! k = Some st -> Q st.
Proof.
  intros Hf. induction ssrcs as [|x ssrcs IH] using rev_ind; intros m k st Hk Hl.
  - inversion Hk.
  - rewrite fold_left_app in Hl. cbn [fold_left] in Hl.
    destruct (decide (x = k)) as [->|Hne].
    + rewrite lookup_alter_eq in Hl.
      destruct (fold_left _ ssrcs m !! k); [|discriminate].
      injection Hl as <-. apply Hf.
    + rewrite lookup_alter_ne in Hl by exact Hne.
      apply elem_of_app in Hk as [Hk|Hk]; [eapply IH; eauto|].
      apply list_elem_of_singleton in Hk. congruence.
Qed.

(** After [remove_subscription], no packet that arrives on an SSRC listed
    for the publisher is sent to the subscriber. *)
Theorem unsubscribed_gets_nothing
    (pid sub : string) (ssrcs : list Z) (ssrc0 : Z) (packet : list Z)
    (s : Impl) (c : SinkCall) :
  publisher_ssrcs s !! pid = Some ssrcs ->
  ssrc0 ∈ ssrcs ->
  let s1 := remove_subscription pid sub s in
  c ∈ new_calls s1 (on_rtp_packet ssrc0 packet s1) ->
  sc_subscriber c <> sub.
Proof.
  intros Hpub Hin s1 Hc.
  apply new_call_origin in Hc as (stream & rule & Hs & Hr & _ & ->).
  cbn [emitted sc_subscriber]. subst s1. unfold remove_subscription in Hs.
  rewrite Hpub in Hs. cbn [ssrc_to_stream] in Hs.
  pose proof (fold_alter_establishes (drop_rules sub)
                (fun st => Forall (fun r => subscriber_id r <> sub) (subscribers st))
                ssrcs) as Hq.
  eapply Hq in Hs; [|clear; intros st; unfold drop_rules; cbn [subscribers];
                     apply Forall_forall; intros r Hr;
                     apply list_elem_of_filter in Hr as [Hr _]; exact Hr
                    |exact Hin].
  rewrite Forall_forall in Hs. apply Hs. exact Hr.
Qed.

Lemma unsubscribed_gets_nothing_witness :
  new_calls (remove_subscription "alice" "bob" fanout_state)
    (on_rtp_packet 0xAABBCCDD rtp_sample
       (remove_subscription "alice" "bob" fanout_state))
  = [mkSinkCall "dave" rtp_sample (mkSocketAddress "10.0.0.3" 5002)]
  /\ sc_subscriber (mkSinkCall "dave" rtp_sample (mkSocketAddress "10.0.0.3" 5002))
     <> "bob".
Proof.
  split; [vm_compute; reflexivity|].
  apply (unsubscribed_gets_nothing "alice" "bob" [0xAABBCCDD] 0xAABBCCDD
           rtp_sample fanout_state
           (mkSinkCall "dave" rtp_sample (mkSocketAddress "10.0.0.3" 5002))).
  - vm_compute. reflexivity.
  - left.
  - vm_compute. left.
Defined.

(** After [set_simulcast_layer] with a layer [>= 0], packets of a stream
    of the publisher that carries a different simulcast layer are not
    sent to the subscriber. *)
Theorem pinned_layer_filters
    (pid sub : string) (layer : Z) (ssrcs : list Z) (ssrc0 : Z)
    (packet : list Z) (s : Impl) (stream : PublisherStream) (c : SinkCall) :
  publisher_ssrcs s !! pid = Some ssrcs ->
  ssrc0 ∈ ssrcs ->
  ssrc_to_stream s !! ssrc0 = Some stream ->
  0 <= layer ->
  0 <= simulcast_layer (info stream) ->
  simulcast_layer (info stream) <> layer ->
  let s1 := set_simulcast_layer pid sub layer s in
  c ∈ new_calls s1 (on_rtp_packet ssrc0 packet s1) ->
  sc_subscriber c <> sub.
Proof.
  intros Hpub Hin Hstream Hl Hsl Hne s1 Hc.
  apply new_call_origin in Hc as (stream1 & rule & Hs & Hr & Hp & ->).
  cbn [emitted sc_subscriber]. subst s1. unfold set_simulcast_layer in Hs.
  rewrite Hpub in Hs. cbn [ssrc_to_stream] in Hs.
  assert (Hinfo : info stream1 = info stream).
  { clear - Hs Hstream. revert stream Hs Hstream. generalize (ssrc_to_stream s).
    induction ssrcs as [|x ssrcs IH]; intros m stream Hs Hstream.
    - cbn in Hs. congruence.
    - cbn [fold_left] in Hs. destruct (decide (x = ssrc0)) as [->|Hx].
      + rewrite (IH (alter (set_layer sub layer) ssrc0 m)
                    (set_layer sub layer stream) Hs); [reflexivity|].
        rewrite lookup_alter_eq, Hstream. reflexivity.
      + eapply (IH (alter (set_layer sub layer) x m)); [exact Hs|].
        rewrite lookup_alter_ne by exact Hx. exact Hstream. }
  pose proof (fold_alter_establishes (set_layer sub layer)
                (fun st => Forall (fun r => subscriber_id r = sub ->
                                             preferred_simulcast_layer r = layer)
                                  (subscribers st))
                ssrcs) as Hq.
  eapply Hq in Hs; [| |exact Hin].
  - rewrite Forall_forall in Hs. specialize (Hs rule Hr). intros Hsub.
    specialize (Hs Hsub). unfold passes in Hp. rewrite Hs, Hinfo in Hp.
    apply andb_true_iff in Hp as [_ Hp]. apply negb_true_iff in Hp.
    rewrite (proj2 (Z.leb_le 0 layer) Hl) in Hp.
    rewrite (proj2 (Z.leb_le 0 _) Hsl) in Hp.
    rewrite (proj2 (Z.eqb_neq _ _) Hne) in Hp. discriminate.
  - clear. intros st. unfold set_layer. cbn [subscribers].
    apply Forall_forall. intros r Hr.
    apply list_elem_of_In, in_map_iff in Hr as (r0 & <- & _).
    destruct (bool_decide (subscriber_id r0 = sub)) eqn:E; cbn; [reflexivity|].
    apply bool_decide_eq_false in E. intros; contradiction.
Qed.

Lemma pinned_layer_filters_witness :
  new_calls (set_simulcast_layer "alice" "bob" 0 fanout_state)
    (on_rtp_packet 0xAABBCCDD rtp_sample
       (set_simulcast_layer "alice" "bob" 0 fanout_state))
  = [mkSinkCall "dave" rtp_sample (mkSocketAddress "10.0.0.3" 5002)]
  /\ sc_subscriber (mkSinkCall "dave" rtp_sample (mkSocketAddress "10.0.0.3" 5002))
     <> "bob".
Proof.
  split; [vm_compute; reflexivity|].
  apply (pinned_layer_filters "alice" "bob" 0 [0xAABBCCDD] 0xAABBCCDD rtp_sample
           fanout_state
           (mkPublisherStream "alice" "cam"
              (mkRtpStreamInfo 0xAABBCCDD 96 false 1 "vp8")
              [mkForwardingRule "bob" (mkSocketAddress "10.0.0.2" 5000)
                                0x11223344 (-1) true;
               mkForwardingRule "dave" (mkSocketAddress "10.0.0.3" 5002)
                                0 (-1) true])
           (mkSinkCall "dave" rtp_sample (mkSocketAddress "10.0.0.3" 5002))).
  - vm_compute. reflexivity.
  - left.
  - vm_compute. reflexivity.
  - lia.
  - cbn. lia.
  - cbn. lia.
  - vm_compute. left.
Defined.

(** *** Registering and removing publishers *)

Lemma remove_fold_lookup (sid : string) (ssrcs : list Z) :
  forall (m : gmap Z PublisherStream) (kept0 : list Z) (k : Z),
    fst (fold_left (remove_publisher_step sid) ssrcs (m, kept0)) !! k
    = match m !! k with
      | Some st => if decide (k ∈ ssrcs /\ stream_id st = sid) then None else Some st
      | None => None
      end.
Proof.
  induction ssrcs as [|x ssrcs IH]; intros m kept0 k.
  - cbn. destruct (m !! k) as [st|]; [|reflexivity].
    rewrite decide_False; [reflexivity|]. intros [H _]. inversion H.
  - cbn [fold_left]. unfold remove_publisher_step at 2. cbn [fst snd].
    destruct (m !! x) as [st0|] eqn:Ex.
    + destruct (bool_decide (stream_id st0 = sid)) eqn:Eb.
      * apply bool_decide_eq_true in Eb. rewrite IH.
        destruct (decide (x = k)) as [->|Hne].
        -- rewrite lookup_delete_eq, Ex.
           rewrite decide_True; [reflexivity|]. split; [left|exact Eb].
        -- rewrite lookup_delete_ne by exact Hne.
           destruct (m !! k) as [st|]; [|reflexivity].
           destruct (decide (k ∈ ssrcs /\ stream_id st = sid)) as [[H1 H2]|Hn].
           ++ rewrite decide_True; [reflexivity|]. split; [right; exact H1|exact H2].
           ++ rewrite decide_False; [reflexivity|]. intros [H1 H2]. apply Hn.
              split; [|exact H2]. apply elem_of_cons in H1 as [->|H1]; [congruence|exact H1].
      * apply bool_decide_eq_false in Eb. rewrite IH.
        destruct (m !! k) as [st|] eqn:Ek; [|reflexivity].
        destruct (decide (k ∈ ssrcs /\ stream_id st = sid)) as [[H1 H2]|Hn].
        -- rewrite decide_True; [reflexivity|]. split; [right; exact H1|exact H2].
        -- rewrite decide_False; [reflexivity|]. intros [H1 H2]. apply Hn.
           split; [|exact H2]. apply elem_of_cons in H1 as [->|H1]; [|exact H1].
           rewrite Ex in Ek. injection Ek as ->. contradiction.
    + rewrite IH. destruct (m !! k) as [st|] eqn:Ek; [|reflexivity].
      destruct (decide (k ∈ ssrcs /\ stream_id st = sid)) as [[H1 H2]|Hn].
      * rewrite decide_True; [reflexivity|]. split; [right; exact H1|exact H2].
      * rewrite decide_False; [reflexivity|]. intros [H1 H2]. apply Hn.
        split; [|exact H2]. apply elem_of_cons in H1 as [->|H1]; [|exact H1].
        rewrite Ex in Ek. discriminate.
Qed.

(** [remove_publisher] erases exactly the table entries whose SSRC is in
    the publisher's list and whose stream id is the given one (whoever
    registered them last); every other entry stays, the publisher count
    is refreshed, and an unknown publisher changes nothing. *)
Theorem remove_publisher_erases (pid sid : string) (s : Impl) :
  (publisher_ssrcs s !! pid = None -> remove_publisher pid sid s = s)
  /\ (forall ssrcs, publisher_ssrcs s !! pid = Some ssrcs ->
        let s' := remove_publisher pid sid s in
        (forall k,
           ssrc_to_stream s' !! k
           = match ssrc_to_stream s !! k with
             | Some st =>
                 if decide (k ∈ ssrcs /\ stream_id st = sid) then None else Some st
             | None => None
             end)
        /\ active_publishers (stats s') = Z.of_nat (size (publisher_ssrcs s'))
        /\ sent s' = sent s).
Proof.
  split.
  - intros Hnone. unfold remove_publisher. rewrite Hnone. reflexivity.
  - intros ssrcs Hsome. cbn zeta. unfold remove_publisher. rewrite Hsome.
    pose proof (remove_fold_lookup sid ssrcs (ssrc_to_stream s) []) as Hl.
    destruct (fold_left (remove_publisher_step sid) ssrcs (ssrc_to_stream s, []))
      as [streams kept].
    cbn [fst] in Hl. cbn [ssrc_to_stream stats publisher_ssrcs sent
                          set_active_publishers active_publishers].
    repeat split. exact Hl.
Qed.

Lemma remove_publisher_erases_witness :
  remove_publisher "nobody" "cam" fanout_state = fanout_state
  /\ ssrc_to_stream (remove_publisher "alice" "cam" fanout_state) !! 0xAABBCCDD
     = None.
Proof.
  split.
  - apply (proj1 (remove_publisher_erases "nobody" "cam" fanout_state)).
    vm_compute. reflexivity.
  - rewrite (proj1 (proj2 (remove_publisher_erases "alice" "cam" fanout_state)
                      [0xAABBCCDD] ltac:(vm_compute; reflexivity)) 0xAABBCCDD).
    vm_compute. reflexivity.
Defined.

(** Registering a stream for a publisher and on an SSRC that were both
    unknown, and removing it again, restores the two tables; the whole
    state is restored when the publisher count was up to date. *)
Theorem publisher_round_trip (pid sid : string) (i : RtpStreamInfo) (s : Impl) :
  publisher_ssrcs s !! pid = None ->
  ssrc_to_stream s !! ssrc i = None ->
  let s' := remove_publisher pid sid (add_publisher pid sid i s) in
  ssrc_to_stream s' = ssrc_to_stream s
  /\ publisher_ssrcs s' = publisher_ssrcs s
  /\ (active_publishers (stats s) = Z.of_nat (size (publisher_ssrcs s)) -> s' = s).
Proof.
  intros Hpub Hssrc. cbn zeta. unfold remove_publisher, add_publisher.
  cbn [publisher_ssrcs ssrc_to_stream]. rewrite lookup_insert_eq, Hpub.
  cbn [default app fold_left]. unfold remove_publisher_step. cbn [fst snd].
  rewrite lookup_insert_eq. cbn [stream_id].
  rewrite bool_decide_eq_true_2 by reflexivity.
  cbn [ssrc_to_stream publisher_ssrcs stats forward_callback forward_buffer sent].
  rewrite delete_insert_id by exact Hssrc.
  rewrite delete_insert_id by exact Hpub.
  repeat split. intros Hcount. destruct s as [cb m pubs st buf snt].
  cbn in *. f_equal. destruct st. cbn in *. unfold set_active_publishers. cbn.
  f_equal. symmetry. exact Hcount.
Qed.

Lemma publisher_round_trip_witness :
  remove_publisher "erin" "mic"
    (add_publisher "erin" "mic" (mkRtpStreamInfo 0x01020304 111 true (-1) "opus")
       fanout_state)
  = fanout_state.
Proof.
  apply (publisher_round_trip "erin" "mic"
           (mkRtpStreamInfo 0x01020304 111 true (-1) "opus") fanout_state).
  - vm_compute. reflexivity.
  - vm_compute. reflexivity.
  - vm_compute. reflexivity.
Defined.

Lemma push_rule_n (rule : ForwardingRule) (ssrcs : list Z) :
  forall (m : gmap Z PublisherStream) k st,
    m !! k = Some st ->
    fold_left (fun m x => alter (push_rule rule) x m) ssrcs m !! k
    = Some (mkPublisherStream (publisher_id st) (stream_id st) (info st)
              (subscribers st ++ replicate (count_occ Z.eq_dec ssrcs k) rule)).
Proof.
  induction ssrcs as [|x ssrcs IH]; intros m k st Hk.
  - cbn. rewrite app_nil_r, Hk. destruct st. reflexivity.
  - cbn [fold_left count_occ]. destruct (Z.eq_dec x k) as [->|Hne].
    + rewrite (IH _ k (push_rule rule st)) by (rewrite lookup_alter_eq, Hk; reflexivity).
      unfold push_rule. cbn [publisher_id stream_id info subscribers replicate].
      rewrite <- app_assoc. reflexivity.
    + rewrite (IH _ k st) by (rewrite lookup_alter_ne by exact Hne; exact Hk).
      reflexivity.
Qed.

(** [add_subscription] appends the rule to a stream once per occurrence
    of the stream's SSRC in the publisher's list.  [add_publisher]
    appends the SSRC to that list on every call, so a stream registered
    twice for the same publisher gets every later rule twice. *)
Theorem subscription_multiplicity
    (pid sub : string) (rule : ForwardingRule) (s : Impl)
    (ssrcs : list Z) (k : Z) (st : PublisherStream) :
  publisher_ssrcs s !! pid = Some ssrcs ->
  ssrc_to_stream s !! k = Some st ->
  ssrc_to_stream (add_subscription pid sub rule s) !! k
  = Some (mkPublisherStream (publisher_id st) (stream_id st) (info st)
            (subscribers st
             ++ replicate (count_occ Z.eq_dec ssrcs k)
                  (mkForwardingRule sub (destination rule) (rewritten_ssrc rule)
                     (preferred_simulcast_layer rule) (is_active rule)))).
Proof.
  intros Hpub Hk. unfold add_subscription. rewrite Hpub. cbn [ssrc_to_stream].
  apply push_rule_n. exact Hk.
Qed.

(** The same stream registered twice by "alice", then one subscriber. *)
Definition registered_twice : Impl :=
  add_subscription "alice" "bob"
    (mkForwardingRule "" (mkSocketAddress "10.0.0.2" 5000) 0 (-1) true)
    (add_publisher "alice" "cam" (mkRtpStreamInfo 0xAABBCCDD 96 false (-1) "vp8")
       (add_publisher "alice" "cam" (mkRtpStreamInfo 0xAABBCCDD 96 false (-1) "vp8")
          (set_forward_callback initial))).

Lemma subscription_multiplicity_witness :
  (subscribers <$> ssrc_to_stream registered_twice !! 0xAABBCCDD)
  = Some (replicate 2 (mkForwardingRule "bob" (mkSocketAddress "10.0.0.2" 5000)
                                        0 (-1) true))
  /\ length (new_calls registered_twice
               (on_rtp_packet 0xAABBCCDD rtp_sample registered_twice)) = 2%nat.
Proof.
  split.
  - unfold registered_twice.
    rewrite (subscription_multiplicity "alice" "bob" _ _ [0xAABBCCDD; 0xAABBCCDD]
               0xAABBCCDD
               (mkPublisherStream "alice" "cam"
                  (mkRtpStreamInfo 0xAABBCCDD 96 false (-1) "vp8") []));
      [reflexivity|vm_compute; reflexivity|vm_compute; reflexivity].
  - vm_compute. reflexivity.
Defined.

(** *** [get_subscribers] *)

Lemma collect_ids (rules : list ForwardingRule) : forall res : list string,
  NoDup res ->
  let res' :=
    fold_left (fun res r =>
                 if bool_decide (subscriber_id r ∈ res) then res
                 else res ++ [subscriber_id r]) rules res in
  NoDup res'
  /\ forall x, x ∈ res' <-> x ∈ res \/ exists r, r ∈ rules /\ subscriber_id r = x.
Proof.
  induction rules as [|r rules IH]; intros res Hnd; cbn zeta.
  - cbn. split; [exact Hnd|]. intros x. split; [auto|].
    intros [H|(r & Hr & _)]; [exact H|inversion Hr].
  - cbn [fold_left]. destruct (bool_decide (subscriber_id r ∈ res)) eqn:E.
    + apply bool_decide_eq_true in E. destruct (IH res Hnd) as [A B].
      split; [exact A|]. intros x. rewrite B. split.
      * intros [H|(r0 & Hr0 & <-)]; [auto|]. right. exists r0. split; [right|]; auto.
      * intros [H|(r0 & Hr0 & <-)]; [auto|].
        apply elem_of_cons in Hr0 as [->|Hr0]; [auto|]. right. eauto.
    + apply bool_decide_eq_false in E.
      destruct (IH (res ++ [subscriber_id r])) as [A B].
      { apply NoDup_app. repeat split; [exact Hnd| |apply NoDup_singleton].
        intros y Hy Hy'. apply list_elem_of_singleton in Hy'. congruence. }
      split; [exact A|]. intros x. rewrite B, elem_of_app, list_elem_of_singleton.
      split.
      * intros [[H| ->]|(r0 & Hr0 & <-)]; [auto| |].
        -- right. exists r. split; [left|reflexivity].
        -- right. exists r0. split; [right|]; auto.
      * intros [H|(r0 & Hr0 & <-)]; [auto|].
        apply elem_of_cons in Hr0 as [->|Hr0]; [auto|]. right. eauto.
Qed.

(** [get_subscribers] lists, each once, exactly the subscriber ids that
    have a rule on a stream registered under an SSRC of the publisher's
    list; an unknown publisher has none. *)
Theorem get_subscribers_spec (pid : string) (s : Impl) :
  NoDup (get_subscribers pid s)
  /\ forall sub,
       sub ∈ get_subscribers pid s
       <-> exists ssrcs k st r,
             publisher_ssrcs s !! pid = Some ssrcs
             /\ k ∈ ssrcs
             /\ ssrc_to_stream s !! k = Some st
             /\ r ∈ subscribers st
             /\ subscriber_id r = sub.
Proof.
  unfold get_subscribers. destruct (publisher_ssrcs s !! pid) as [ssrcs|].
  - assert (H : forall res : list string, NoDup res ->
              let res' :=
                fold_left
                  (fun result x =>
                     match ssrc_to_stream s !! x with
                     | Some st =>
                         fold_left
                           (fun res r =>
                              if bool_decide (subscriber_id r ∈ res) then res
                              else res ++ [subscriber_id r])
                           (subscribers st) result
                     | None => result
                     end) ssrcs res in
              NoDup res'
              /\ forall x, x ∈ res'
                           <-> x ∈ res
                               \/ exists k st r, k ∈ ssrcs
                                    /\ ssrc_to_stream s !! k = Some st
                                    /\ r ∈ subscribers st /\ subscriber_id r = x).
    { induction ssrcs as [|k ssrcs IH]; intros res Hnd; cbn zeta.
      - cbn. split; [exact Hnd|]. intros x. split; [auto|].
        intros [H|(k & st & r & Hk & _)]; [exact H|inversion Hk].
      - cbn [fold_left]. destruct (ssrc_to_stream s !! k) as [st|] eqn:Ek.
        + destruct (collect_ids (subscribers st) res Hnd) as [A B].
          destruct (IH _ A) as [A' B']. split; [exact A'|].
          intros x. rewrite B', B. split.
          * intros [[H|(r & Hr & <-)]|(k0 & st0 & r & Hk0 & Hs0 & Hr & <-)]; [auto| |].
            -- right. exists k, st, r. repeat split; [left| |]; auto.
            -- right. exists k0, st0, r. repeat split; [right| |]; auto.
          * intros [H|(k0 & st0 & r & Hk0 & Hs0 & Hr & <-)]; [auto|].
            apply elem_of_cons in Hk0 as [->|Hk0].
            -- rewrite Ek in Hs0. injection Hs0 as <-. left. right. eauto.
            -- right. exists k0, st0, r. auto.
        + destruct (IH res Hnd) as [A' B']. split; [exact A'|].
          intros x. rewrite B'. split.
          * intros [H|(k0 & st0 & r & Hk0 & Hs0 & Hr & <-)]; [auto|].
            right. exists k0, st0, r. repeat split; [right| |]; auto.
          * intros [H|(k0 & st0 & r & Hk0 & Hs0 & Hr & <-)]; [auto|].
            apply elem_of_cons in Hk0 as [->|Hk0]; [congruence|].
            right. exists k0, st0, r. auto. }
    destruct (H [] (NoDup_nil_2)) as [A B]. split; [exact A|].
    intros sub. rewrite B. split.
    + intros [H0|(k & st & r & Hk & Hs & Hr & <-)]; [inversion H0|].
      exists ssrcs, k, st, r. auto.
    + intros (ssrcs' & k & st & r & [= <-] & Hk & Hs & Hr & <-).
      right. exists k, st, r. auto.
  - split; [constructor|]. intros sub. split.
    + intros H. inversion H.
    + intros (? & ? & ? & ? & [=] & _).
Qed.


End ForwarderLaws.

(** * Subscription manager: callbacks, pinning and bookkeeping *)

Module SubscriptionLaws.
Import Subscriptions.

(** The callback invocations one [process] adds to the trace. *)
Definition new_switches (s s' : Impl) : list LayerSwitch :=
  drop (length (switches s)) (switches s').

Lemma new_switches_process (s : Impl) :
  new_switches s (process s)
  = flat_map (fun kv => snd (process_entry s (fst kv) (snd kv)))
             (map_to_list (subscriptions s)).
Proof.
  unfold new_switches, process. cbn [switches].
  rewrite drop_app_length. reflexivity.
Qed.

Lemma process_entry_switch s key v c :
  c ∈ snd (process_entry s key v) ->
  layer_switch_callback s = true
  /\ is_paused v = false
  /\ target_layer v < 0
  /\ c = mkLayerSwitch (fst (fst key)) (snd (fst key)) (current_layer v)
           (select_best_layer s (fst (fst key)) (snd (fst key), snd key))
  /\ select_best_layer s (fst (fst key)) (snd (fst key), snd key) <> current_layer v.
Proof.
  unfold process_entry. destruct key as [[subscriber publisher] stream].
  destruct (is_paused v) eqn:Ep; cbn [orb snd]; [intros H; inversion H|].
  destruct (Z.leb_spec 0 (target_layer v)) as [Ht|Ht]; cbn [snd];
    [intros H; inversion H|].
  cbn [fst snd].
  destruct (Z.eqb_spec (select_best_layer s subscriber (publisher, stream))
                       (current_layer v)) as [E|E]; cbn [negb snd];
    [intros H; inversion H|].
  destruct (layer_switch_callback s); [|intros H; inversion H].
  intros H. apply list_elem_of_singleton in H. repeat split; auto.
Qed.

(** Every invocation of the layer-switch callback made by [process]
    reports a real change: it comes from an unpaused automatic
    subscription, names its subscriber and publisher, carries the layer
    the subscription had before and the one it has afterwards, and the
    two differ. *)
Theorem process_switches_sound (s : Impl) (c : LayerSwitch) :
  c ∈ new_switches s (process s) ->
  layer_switch_callback s = true
  /\ exists sid v v',
       subscriptions s !! (ls_subscriber c, ls_publisher c, sid) = Some v
       /\ subscriptions (process s) !! (ls_subscriber c, ls_publisher c, sid) = Some v'
       /\ is_paused v = false
       /\ target_layer v < 0
       /\ ls_old_layer c = current_layer v
       /\ ls_new_layer c = current_layer v'
       /\ ls_old_layer c <> ls_new_layer c.
Proof.
  rewrite new_switches_process. intros Hc.
  apply list_elem_of_In, in_flat_map in Hc as ([key v] & Hkv & Hc).
  apply list_elem_of_In, elem_of_map_to_list in Hkv.
  apply list_elem_of_In in Hc. cbn [fst snd] in Hc.
  apply process_entry_switch in Hc as (Hcb & Hp & Ht & -> & Hne).
  split; [exact Hcb|]. destruct key as [[subscriber publisher] stream].
  cbn [fst snd ls_subscriber ls_publisher ls_old_layer ls_new_layer] in *.
  exists stream, v, (fst (process_entry s (subscriber, publisher, stream) v)).
  split; [exact Hkv|]. split.
  { unfold process. cbn [subscriptions]. rewrite map_lookup_imap, Hkv. reflexivity. }
  assert (Hnew : current_layer (fst (process_entry s (subscriber, publisher, stream) v))
                 = select_best_layer s subscriber (publisher, stream)).
  { rewrite SubscriptionProofs.process_entry_layer, Hp.
    destruct (Z.leb_spec 0 (target_layer v)); [lia|]. reflexivity. }
  repeat split; auto.
Qed.

(** A manager with the callback set, the three-layer table of stream
    ("alice", "cam"), one automatic subscription of "bob" and an
    estimate of 600 kbit/s. *)
Definition bob_watching : Impl :=
  update_bandwidth "bob" (mkBandwidthInfo 600000 f32_zero f32_zero)
    (subscribe "bob" "alice" "cam" (-1)
       (set_available_layers "alice" "cam"
          [mkLayer 0 320 180 15 150 true;
           mkLayer 1 640 360 30 500 true;
           mkLayer 2 1280 720 30 1500 true]
          (set_layer_switch_callback initial))).

Lemma process_switches_sound_witness :
  new_switches bob_watching (process bob_watching)
  = [mkLayerSwitch "bob" "alice" 2 1]
  /\ layer_switch_callback bob_watching = true.
Proof.
  split; [vm_compute; reflexivity|].
  apply (process_switches_sound bob_watching (mkLayerSwitch "bob" "alice" 2 1)).
  vm_compute. left.
Defined.

Lemma select_best_layer_process s subscriber key :
  select_best_layer (process s) subscriber key = select_best_layer s subscriber key.
Proof. reflexivity. Qed.

Lemma process_entry_settled s key v :
  process_entry (process s) key (fst (process_entry s key v))
  = (fst (process_entry s key v), []).
Proof.
  rewrite SubscriptionProofs.process_entry_layer.
  destruct key as [[subscriber publisher] stream]. cbn [fst snd].
  unfold process_entry at 1.
  destruct (is_paused v || (0 <=? target_layer v)) eqn:E.
  - rewrite E. reflexivity.
  - cbn [is_paused target_layer set_current_layer current_layer]. rewrite E.
    rewrite select_best_layer_process, Z.eqb_refl. reflexivity.
Qed.

Lemma flat_map_nil {A B} (f : A -> list B) (l : list A) :
  (forall x, x ∈ l -> f x = []) -> flat_map f l = [].
Proof.
  induction l as [|x l IH]; intros H; [reflexivity|].
  cbn [flat_map]. rewrite (H x) by left. apply IH. intros y Hy. apply H. right. exact Hy.
Qed.

(** [process] settles in one call: as long as no estimate, table or
    subscription is changed in between, a second call changes no
    subscription and invokes no callback. *)
Theorem process_idempotent (s : Impl) :
  process (process s) = process s.
Proof.
  assert (Hsubs : subscriptions (process (process s)) = subscriptions (process s)).
  { apply map_eq. intros key. unfold process at 1. cbn [subscriptions].
    rewrite map_lookup_imap.
    destruct (subscriptions (process s) !! key) as [v'|] eqn:E; [|reflexivity].
    cbn. f_equal. unfold process in E. cbn [subscriptions] in E.
    rewrite map_lookup_imap in E.
    destruct (subscriptions s !! key) as [v|]; [|discriminate].
    cbn in E. apply (inj Some) in E. subst v'.
    rewrite process_entry_settled. reflexivity. }
  assert (Hsw : new_switches (process s) (process (process s)) = []).
  { rewrite new_switches_process. apply flat_map_nil. intros [key v'] Hkv.
    apply elem_of_map_to_list in Hkv. cbn [fst snd].
    unfold process in Hkv. cbn [subscriptions] in Hkv.
    rewrite map_lookup_imap in Hkv.
    destruct (subscriptions s !! key) as [v|]; [|discriminate].
    cbn in Hkv. apply (inj Some) in Hkv. subst v'.
    rewrite process_entry_settled. reflexivity. }
  rewrite new_switches_process in Hsw.
  unfold process at 1. rewrite Hsw, app_nil_r.
  change (subscriptions (process (process s)))
    with (map_imap (fun key v => Some (fst (process_entry (process s) key v)))
                   (subscriptions (process s))) in Hsubs.
  rewrite Hsubs. reflexivity.
Qed.

Lemma process_pinned (s : Impl) key v :
  subscriptions s !! key = Some v ->
  0 <= target_layer v ->
  subscriptions (process s) !! key = Some v.
Proof.
  intros Hv Ht. unfold process. cbn [subscriptions].
  rewrite map_lookup_imap, Hv. cbn. rewrite SubscriptionProofs.process_entry_layer.
  destruct (Z.leb_spec 0 (target_layer v)); [|lia]. rewrite orb_true_r. reflexivity.
Qed.

(** [set_target_layer] records the requested layer for every stream of
    the (subscriber, publisher) pair and for no other subscription, and
    leaves [current_layer] as it was.  With a layer [>= 0] no later
    [process] call touches the subscription either, so its current
    layer stays at the old value: a manual request never becomes the
    current layer. *)
Theorem manual_layer_not_applied
    (sub pid sid : string) (layer : Z) (n : nat) (s : Impl) (v : Subscription) :
  0 <= layer ->
  subscriptions s !! (sub, pid, sid) = Some v ->
  subscriptions (Nat.iter n process (set_target_layer sub pid layer s)) !! (sub, pid, sid)
  = Some (mkSubscription (publisher_id v) (stream_id v) layer (current_layer v)
                         (is_paused v) (bytes_received v))
  /\ forall key, of_pair sub pid key = false ->
       subscriptions (set_target_layer sub pid layer s) !! key = subscriptions s !! key.
Proof.
  intros Hl Hv. split.
  - induction n as [|n IH].
    + unfold Nat.iter. cbn [nat_rect]. unfold set_target_layer. cbn [subscriptions].
      rewrite map_lookup_imap, Hv. cbn. unfold of_pair. cbn [fst snd].
      rewrite !bool_decide_eq_true_2 by reflexivity. reflexivity.
    + rewrite Nat.iter_succ. apply process_pinned; [exact IH|]. cbn. exact Hl.
  - intros key Hk. unfold set_target_layer. cbn [subscriptions].
    rewrite map_lookup_imap. destruct (subscriptions s !! key); [|reflexivity].
    cbn. rewrite Hk. reflexivity.
Qed.

Lemma manual_layer_not_applied_witness :
  (current_layer
     <$> subscriptions
           (Nat.iter 3 process (set_target_layer "bob" "alice" 0 bob_watching))
         !! ("bob", "alice", "cam"))
  = Some 2.
Proof.
  rewrite (proj1 (manual_layer_not_applied "bob" "alice" "cam" 0 3 bob_watching
                    (mkSubscription "alice" "cam" (-1) 2 false 0)
                    ltac:(lia) ltac:(vm_compute; reflexivity))).
  reflexivity.
Defined.

(** [set_paused] with [true] freezes every stream of the pair: the
    following [process] leaves those subscriptions as they are and
    invokes no callback for the pair. *)
Theorem paused_pair_is_frozen
    (sub pid : string) (s : Impl) :
  let s1 := set_paused sub pid true s in
  (forall sid v, subscriptions s1 !! (sub, pid, sid) = Some v ->
                 subscriptions (process s1) !! (sub, pid, sid) = Some v)
  /\ forall c, c ∈ new_switches s1 (process s1) ->
               ~ (ls_subscriber c = sub /\ ls_publisher c = pid).
Proof.
  cbn zeta. assert (Hp : forall sid v,
              subscriptions (set_paused sub pid true s) !! (sub, pid, sid) = Some v ->
              is_paused v = true).
  { intros sid v. unfold set_paused. cbn [subscriptions].
    rewrite map_lookup_imap. destruct (subscriptions s !! (sub, pid, sid)); [|discriminate].
    cbn. unfold of_pair. cbn [fst snd].
    rewrite !bool_decide_eq_true_2 by reflexivity. cbn.
    intros E. apply (inj Some) in E. subst v. reflexivity. }
  split.
  - intros sid v Hv. unfold process. cbn [subscriptions].
    rewrite map_lookup_imap, Hv. cbn. rewrite SubscriptionProofs.process_entry_layer.
    rewrite (Hp sid v Hv). reflexivity.
  - intros c Hc [Hs Hq]. rewrite new_switches_process in Hc.
    apply list_elem_of_In, in_flat_map in Hc as ([key v] & Hkv & Hc).
    apply list_elem_of_In, elem_of_map_to_list in Hkv.
    apply list_elem_of_In in Hc. cbn [fst snd] in Hc.
    apply process_entry_switch in Hc as (_ & Hnp & _ & -> & _).
    destruct key as [[subscriber publisher] stream].
    cbn [fst snd ls_subscriber ls_publisher] in *. subst subscriber publisher.
    rewrite (Hp stream v Hkv) in Hnp. discriminate.
Qed.

(** [subscribe] adds one subscription under a new key and replaces the
    old one under a known key; [unsubscribe] after [subscribe] on a new
    key restores the manager. *)
Theorem subscribe_unsubscribe (sub pid sid : string) (target : Z) (s : Impl) :
  subscription_count (subscribe sub pid sid target s)
  = subscription_count s
    + match subscriptions s !! (sub, pid, sid) with Some _ => 0 | None => 1 end
  /\ subscription_count (unsubscribe sub pid sid (subscribe sub pid sid target s))
     = subscription_count s
       - match subscriptions s !! (sub, pid, sid) with Some _ => 1 | None => 0 end
  /\ (subscriptions s !! (sub, pid, sid) = None ->
      unsubscribe sub pid sid (subscribe sub pid sid target s) = s).
Proof.
  unfold subscription_count, unsubscribe, subscribe. cbn [subscriptions].
  rewrite delete_insert_eq.
  destruct (subscriptions s !! (sub, pid, sid)) as [v|] eqn:E.
  - split; [|split].
    + rewrite <- (insert_delete_eq (subscriptions s)) at 1.
      rewrite map_size_insert_None by apply lookup_delete_eq.
      rewrite <- (insert_delete_id (subscriptions s) _ _ E) at 2.
      rewrite map_size_insert_None by apply lookup_delete_eq. lia.
    + rewrite <- (insert_delete_id (subscriptions s) _ _ E) at 2.
      rewrite map_size_insert_None by apply lookup_delete_eq. lia.
    + discriminate.
  - split; [|split].
    + rewrite map_size_insert_None by exact E. lia.
    + rewrite delete_id by exact E. lia.
    + intros _. rewrite delete_id by exact E. destruct s. reflexivity.
Qed.

(** *** Tables listed by increasing bitrate *)

Definition cheaper (a b : SimulcastLayerInfo) : Prop :=
  bitrate_kbps a <= bitrate_kbps b.

Lemma sorted_before (pre post : list SimulcastLayerInfo) (c : SimulcastLayerInfo) :
  StronglySorted cheaper (pre ++ c :: post) -> Forall (fun a => cheaper a c) pre.
Proof.
  induction pre as [|a pre IH]; intros Hs; [constructor|].
  cbn [app] in Hs. apply StronglySorted_inv in Hs as [Hs Ha].
  constructor; [|apply IH; exact Hs].
  apply Forall_app in Ha as [_ Ha]. apply Forall_cons in Ha as [Ha _]. exact Ha.
Qed.

(** [select_best_layer] keeps the last layer that fits.  When the table
    lists the layers by increasing bitrate, as simulcast tables do,
    that is the best one: the selected index belongs to an active layer
    within the estimate, and no active layer within the estimate has a
    higher bitrate. *)
Theorem sorted_table_picks_best
    (s : Impl) (subscriber : string) (key : string * string)
    (bw : BandwidthInfo) (layers : list SimulcastLayerInfo)
    (l : SimulcastLayerInfo) :
  bandwidth_info s !! subscriber = Some bw ->
  stream_layers s !! key = Some layers ->
  Forall (fun x => 0 <= bitrate_kbps x * 1000 < 2 ^ 31) layers ->
  StronglySorted cheaper layers ->
  l ∈ layers -> is_active l = true -> bitrate_kbps l * 1000 <= estimated_bps bw ->
  exists chosen,
    chosen ∈ layers
    /\ select_best_layer s subscriber key = layer_index chosen
    /\ is_active chosen = true
    /\ bitrate_kbps chosen * 1000 <= estimated_bps bw
    /\ bitrate_kbps l <= bitrate_kbps chosen.
Proof.
  intros Hbw Hlayers Hrange Hsorted Hl Hact Hfit.
  unfold select_best_layer. rewrite Hbw, Hlayers.
  assert (Hlfit : layer_fits (estimated_bps bw) l = true).
  { apply SubscriptionProofs.layer_fits_spec; [|auto].
    apply (proj1 (Forall_forall _ _) Hrange l Hl). }
  destruct (SubscriptionProofs.scan_last_fit (estimated_bps bw) layers 0)
    as [[Hnone _]|(pre & c & post & -> & Hc & Hpost & ->)].
  - rewrite Forall_forall in Hnone. rewrite (Hnone l Hl) in Hlfit. discriminate.
  - assert (Hcin : c ∈ pre ++ c :: post) by (apply elem_of_app; right; left).
    exists c. split; [exact Hcin|]. split; [reflexivity|].
    apply SubscriptionProofs.layer_fits_spec in Hc
      as [Hcact Hcfit]; [|apply (proj1 (Forall_forall _ _) Hrange c Hcin)].
    split; [exact Hcact|]. split; [exact Hcfit|].
    apply elem_of_app in Hl as [Hl|Hl].
    + apply sorted_before in Hsorted. rewrite Forall_forall in Hsorted.
      apply (Hsorted l Hl).
    + apply elem_of_cons in Hl as [->|Hl]; [lia|].
      rewrite Forall_forall in Hpost. rewrite (Hpost l Hl) in Hlfit. discriminate.
Qed.

Lemma sorted_table_picks_best_witness :
  exists chosen,
    chosen ∈ [mkLayer 0 320 180 15 150 true; mkLayer 1 640 360 30 500 true;
              mkLayer 2 1280 720 30 1500 true]
    /\ select_best_layer bob_watching "bob" ("alice", "cam") = layer_index chosen
    /\ is_active chosen = true
    /\ bitrate_kbps chosen * 1000 <= 600000
    /\ 150 <= bitrate_kbps chosen.
Proof.
  apply (sorted_table_picks_best bob_watching "bob" ("alice", "cam")
           (mkBandwidthInfo 600000 f32_zero f32_zero)
           [mkLayer 0 320 180 15 150 true; mkLayer 1 640 360 30 500 true;
            mkLayer 2 1280 720 30 1500 true]
           (mkLayer 0 320 180 15 150 true)).
  - vm_compute. reflexivity.
  - vm_compute. reflexivity.
  - repeat constructor; cbn; lia.
  - repeat constructor; unfold cheaper; cbn; lia.
  - left.
  - reflexivity.
  - cbn. lia.
Defined.

End SubscriptionLaws.


(** * Frame buffer: retransmission requests and the key-frame gate *)

Module FrameBufferLaws.
Import FrameBuffer.















Definition gated_config : FrameBufferConfig :=
  mkFrameBufferConfig 30 200 50 true true.





(** The key-frame gate. *)
Definition no_keyframe (op : FrameBufferProofs.Op) : Prop :=
  match op with
  | FrameBufferProofs.Insert _ _ _ _ keyframe _ => keyframe = false
  | FrameBufferProofs.Pop _ => True
  end.

Definition gated (s : Impl) : Prop :=
  wait_for_keyframe (config s) = true
  /\ has_keyframe s = false
  /\ complete_frames s = []
  /\ frames_buffered (stats s) = 0
  /\ forall ts a, assemblers s !! ts = Some a -> is_keyframe a = false.

Lemma cleanup_gated now s : gated s -> gated (cleanup_old_frames now s).
Proof.
  intros (Hw & Hk & Hc & Hb & Ha). unfold cleanup_old_frames. rewrite Hc.
  cbn [drop_old_frames]. repeat split; cbn; try assumption.
  intros ts a Hl. apply map_lookup_filter_Some in Hl as [Hl _]. eauto.
Qed.

Lemma insert_packet_gated payload sequence ts marker now s s' :
  gated s ->
  insert_packet payload sequence ts marker false now s = Some s' ->
  gated s'.
Proof.
  intros (Hw & Hk & Hc & Hb & Ha). unfold insert_packet.
  set (a := store_packet _ payload sequence ts marker false now).
  assert (Hka : is_keyframe a = false).
  { subst a. unfold store_packet. cbn [is_keyframe].
    destruct (assemblers s !! ts) as [a0|] eqn:E; cbn [default]; [eauto|reflexivity]. }
  assert (Hst : forall ts' a', <[ts := a]> (assemblers s) !! ts' = Some a' ->
                               is_keyframe a' = false).
  { intros ts' a' Hl. destruct (decide (ts = ts')) as [<-|Hne].
    - rewrite lookup_insert_eq in Hl. congruence.
    - rewrite lookup_insert_ne in Hl by exact Hne. eauto. }
  destruct (is_complete a) as [[|]|]; [| |discriminate].
  - rewrite Hw, Hk, Hka. cbn [negb andb]. intros E. apply (inj Some) in E. subst s'.
    repeat split; cbn; assumption.
  - intros E. apply (inj Some) in E. subst s'. apply cleanup_gated.
    repeat split; cbn; assumption.
Qed.

Lemma run_gated ops : forall s s',
  gated s -> Forall no_keyframe ops -> FrameBufferProofs.run s ops = Some s' -> gated s'.
Proof.
  induction ops as [|op ops IH]; intros s s' Hs Hops Hrun.
  - cbn in Hrun. apply (inj Some) in Hrun. subst s'. exact Hs.
  - apply Forall_cons in Hops as [Hop Hops]. cbn [FrameBufferProofs.run] in Hrun.
    destruct (FrameBufferProofs.step s op) as [s1|] eqn:Hstep; [|discriminate].
    apply (IH s1 s'); [|exact Hops|exact Hrun].
    destruct op as [payload sequence ts marker keyframe now|now]; cbn in Hstep, Hop.
    + subst keyframe. eapply insert_packet_gated; eauto.
    + apply (inj Some) in Hstep. subst s1. unfold pop_frame.
      destruct Hs as (Hw & Hk & Hc & Hb & Ha). rewrite Hc. cbn.
      repeat split; assumption.
Qed.

(** With [wait_for_keyframe] set, a buffer that is fed only packets not
    flagged as key-frame packets never queues a frame, however many
    frames it completes: [pop_frame] and [peek_frame] return nothing at
    any time, nothing is counted as buffered, and
    [should_request_keyframe] stays true. *)
Theorem no_keyframe_no_frames
    (cfg : FrameBufferConfig) (ops : list FrameBufferProofs.Op) (s : Impl) :
  wait_for_keyframe cfg = true ->
  Forall no_keyframe ops ->
  FrameBufferProofs.run (initial cfg) ops = Some s ->
  has_complete_frame s = false
  /\ peek_frame s = None
  /\ (forall now, pop_frame now s = (None, s))
  /\ frames_buffered (stats s) = 0
  /\ should_request_keyframe s = true.
Proof.
  intros Hw Hops Hrun.
  assert (Hg : gated s).
  { apply (run_gated ops (initial cfg) s); [|exact Hops|exact Hrun].
    repeat split; cbn; try assumption; try reflexivity.
    intros ts a Hl. rewrite lookup_empty in Hl. discriminate. }
  destruct Hg as (_ & Hk & Hc & Hb & _).
  unfold has_complete_frame, peek_frame, pop_frame, should_request_keyframe.
  rewrite Hc, Hk. repeat split; auto.
Qed.

(** A complete one-packet delta frame, then a pop 100 ms later. *)
Definition delta_only : list FrameBufferProofs.Op :=
  [FrameBufferProofs.Insert [1; 2; 3] 7 9000 true false 0;
   FrameBufferProofs.Pop 100000000].

Lemma no_keyframe_no_frames_witness :
  (complete_frames <$> FrameBufferProofs.run (initial gated_config) delta_only) = Some []
  /\ exists s, FrameBufferProofs.run (initial gated_config) delta_only = Some s
               /\ should_request_keyframe s = true.
Proof.
  split; [vm_compute; reflexivity|].
  destruct (FrameBufferProofs.run (initial gated_config) delta_only) as [s|] eqn:E;
    [|vm_compute in E; discriminate].
  exists s. split; [reflexivity|].
  apply (no_keyframe_no_frames gated_config delta_only s).
  - reflexivity.
  - repeat constructor.
  - exact E.
Defined.

End FrameBufferLaws.

(** * Audio mixer: saturation, stale audio, muting and the active speaker *)

Module MixerLaws.
Import Mixer.
Import MixerProofs.

Lemma clamp16_range (v : Z) : -32768 <= clamp16 v <= 32767.
Proof. unfold clamp16. lia. Qed.

(** Every buffer handed to the mixed-audio callback holds one frame of
    samples, each within the [int16_t] range: sums that leave the range
    are clamped, not wrapped. *)
Theorem mixed_output_saturated (s : Impl) (c : MixedCall) :
  length (output_buffer s) = length (mix_buffer s) ->
  c ∈ tick_calls s ->
  length (mc_samples c) = length (mix_buffer s)
  /\ Forall (fun x => -32768 <= x <= 32767) (mc_samples c)
  /\ exists src, sources s !! mc_recipient c = Some src
                 /\ mc_timestamp c = last_timestamp src.
Proof.
  intros Hlen Hc. rewrite (tick_calls_spec s Hlen) in Hc.
  destruct (mixed_callback s); [|inversion Hc].
  apply list_elem_of_fmap in Hc as ([r src] & -> & He).
  apply elem_of_map_to_list in He.
  unfold expected_call, mix_minus_self. cbn [mc_samples mc_recipient mc_timestamp fst snd].
  split; [|split].
  - rewrite length_map, length_seq. reflexivity.
  - apply Forall_forall. intros x Hx.
    apply list_elem_of_fmap in Hx as (j & -> & _). apply clamp16_range.
  - exists src. split; [exact He|reflexivity].
Qed.

(** Three mono sources at unit volume, each pushing a frame of four
    samples of 30000; one of them also asks for speaker reports. *)
Definition loud_sources : Impl :=
  push_audio no_log10 "P3" (replicate 4 30000) 30
    (push_audio no_log10 "P2" (replicate 4 30000) 20
       (push_audio no_log10 "P1" (replicate 4 1000) 10
          (set_active_speaker_callback
             (set_mixed_audio_callback
                (add_source "P3" unit_params
                   (add_source "P2" unit_params
                      (add_source "P1" unit_params
                         (initial (mkAudioSourceConfig 200 1 20))))))))).

Lemma mixed_output_saturated_witness :
  tick_calls loud_sources
  = [mkMixedCall "P3" [31000; 31000; 31000; 31000] 30;
     mkMixedCall "P1" [32767; 32767; 32767; 32767] 10;
     mkMixedCall "P2" [31000; 31000; 31000; 31000] 20]
  /\ Forall (fun x => -32768 <= x <= 32767)
            (mc_samples (mkMixedCall "P1" [32767; 32767; 32767; 32767] 10)).
Proof.
  split; [vm_compute; reflexivity|].
  apply (mixed_output_saturated loud_sources
           (mkMixedCall "P1" [32767; 32767; 32767; 32767] 10)).
  - vm_compute. reflexivity.
  - vm_compute. right. left.
Defined.

(** What [process] leaves behind. *)
Lemma process_state (s : Impl) :
  length (output_buffer s) = length (mix_buffer s) ->
  sources s <> ∅ ->
  sources (process s) = clear_has_data <$> sources s
  /\ config (process s) = config s
  /\ mixed_callback (process s) = mixed_callback s
  /\ length (mix_buffer (process s)) = length (mix_buffer s)
  /\ length (output_buffer (process s)) = length (mix_buffer s).
Proof.
  intros Hlen Hne. unfold process.
  rewrite bool_decide_eq_false_2 by exact Hne.
  cbn [sources config mixed_callback mix_buffer output_buffer].
  destruct (update_active_speaker_mix s) as (A & B & C & D & E & F).
  destruct (fold_mix_for (map_to_list (sources (update_active_speaker s)))
              (update_active_speaker s)) as (_ & A' & B' & C' & D' & E').
  { rewrite E, D. exact Hlen. }
  { apply Forall_forall. intros [k v] Hkv. apply elem_of_map_to_list in Hkv. exact Hkv. }
  rewrite A', B', C', D', E', A, B, C, D. repeat split.
Qed.

Lemma heard_cleared (srcs : gmap string AudioSource) (recipient : string) :
  heard (clear_has_data <$> srcs) recipient = [].
Proof.
  unfold heard.
  assert (H : Forall (fun e : string * AudioSource => has_data (snd e) = false)
                     (map_to_list (clear_has_data <$> srcs))).
  { apply Forall_forall. intros [k v] Hkv. apply elem_of_map_to_list in Hkv.
    rewrite lookup_fmap in Hkv. destruct (srcs !! k); [|discriminate].
    cbn in Hkv. apply (inj Some) in Hkv. subst v. reflexivity. }
  induction H as [|e l He _ IH]; [reflexivity|].
  rewrite filter_cons_False; [exact IH|].
  unfold audible. rewrite He. intros (_ & Hd & _). discriminate.
Qed.

Lemma silence (len : nat) : forall start, map (fun _ : nat => 0) (seq start len) = replicate len 0.
Proof. induction len as [|len IH]; intros start; cbn; [|rewrite IH]; reflexivity. Qed.

(** Audio is mixed once: [process] clears every [has_data] flag, so a
    source that pushes nothing before the next tick is not heard in it.
    With no push in between, every buffer of the second tick is
    silence. *)
Theorem stale_audio_not_replayed (s : Impl) (c : MixedCall) :
  length (output_buffer s) = length (mix_buffer s) ->
  c ∈ tick_calls (process s) ->
  mc_samples c = replicate (length (mix_buffer s)) 0.
Proof.
  intros Hlen Hc.
  destruct (decide (sources s = ∅)) as [Hempty|Hne].
  - assert (Hp : process s = s).
    { unfold process. rewrite bool_decide_eq_true_2 by exact Hempty. reflexivity. }
    rewrite Hp, (tick_calls_spec s Hlen), Hempty, map_to_list_empty in Hc.
    destruct (mixed_callback s); inversion Hc.
  - destruct (process_state s Hlen Hne) as (A & B & C & D & E).
    rewrite (tick_calls_spec (process s)) in Hc by (rewrite E, D; reflexivity).
    destruct (mixed_callback (process s)); [|inversion Hc].
    apply list_elem_of_fmap in Hc as (e & -> & _).
    unfold expected_call, mix_minus_self. cbn [mc_samples].
    rewrite A, D. rewrite heard_cleared. cbn [map Zsum].
    change (clamp16 (to_int32 0)) with 0. apply silence.
Qed.

Lemma stale_audio_not_replayed_witness :
  mc_samples (mkMixedCall "P1" [0; 0; 0; 0] 10)
  = replicate (length (mix_buffer loud_sources)) 0.
Proof.
  apply (stale_audio_not_replayed loud_sources (mkMixedCall "P1" [0; 0; 0; 0] 10)).
  - vm_compute. reflexivity.
  - vm_compute. right. left.
Defined.

(** *** Muting *)

Lemma heard_muted (srcs : gmap string AudioSource) (pid recipient : string)
    (src : AudioSource) :
  muted (params src) = true ->
  heard (<[pid := src]> srcs) recipient ≡ₚ heard (delete pid srcs) recipient.
Proof.
  intros Hm. unfold heard.
  rewrite <- (insert_delete_eq srcs pid src).
  rewrite map_to_list_insert by apply lookup_delete_eq.
  rewrite filter_cons_False; [reflexivity|].
  unfold audible. cbn [snd]. rewrite Hm. intros (_ & _ & H). discriminate.
Qed.

(** Muting a source through [set_mixing_params] takes it out of every
    mix: each other participant receives, sample for sample, what it
    would receive had the source been removed. *)
Theorem muted_source_is_silent
    (pid : string) (p : MixingParams) (s : Impl) (src : AudioSource) (c : MixedCall) :
  length (output_buffer s) = length (mix_buffer s) ->
  sources s !! pid = Some src ->
  muted p = true ->
  c ∈ tick_calls (set_mixing_params pid p s) ->
  mc_recipient c <> pid ->
  exists c', c' ∈ tick_calls (remove_source pid s)
             /\ mc_recipient c' = mc_recipient c
             /\ mc_samples c' = mc_samples c
             /\ mc_timestamp c' = mc_timestamp c.
Proof.
  intros Hlen Hsrc Hm Hc Hr.
  rewrite (tick_calls_spec (remove_source pid s) Hlen).
  unfold set_mixing_params in Hc. rewrite Hsrc in Hc.
  rewrite (tick_calls_spec (set_sources s (<[pid := set_params src p]> (sources s))) Hlen)
    in Hc.
  cbn [mixed_callback set_sources remove_source] in *.
  destruct (mixed_callback s); [|inversion Hc].
  apply list_elem_of_fmap in Hc as ([r v] & -> & He).
  cbn [expected_call mc_recipient fst] in Hr.
  apply elem_of_map_to_list in He. unfold set_sources in He. cbn [sources] in He.
  rewrite lookup_insert_ne in He by congruence.
  exists (expected_call (remove_source pid s) (r, v)). split.
  - apply list_elem_of_fmap. exists (r, v). split; [reflexivity|].
    apply elem_of_map_to_list. cbn [sources remove_source].
    rewrite lookup_delete_ne by congruence. exact He.
  - unfold expected_call. cbn [mc_recipient mc_samples mc_timestamp fst snd
                               sources config mix_buffer remove_source].
    repeat split. unfold mix_minus_self. apply map_ext. intros j.
    f_equal. f_equal. apply Zsum_perm, Permutation_map. symmetry.
    apply heard_muted. exact Hm.
Qed.

Definition muted_params : MixingParams := mkMixingParams f32_one f32_zero true false.

Lemma muted_source_is_silent_witness :
  exists c', c' ∈ tick_calls (remove_source "P3" loud_sources)
             /\ mc_recipient c' = "P1"
             /\ mc_samples c' = [30000; 30000; 30000; 30000]
             /\ mc_timestamp c' = 10.
Proof.
  apply (muted_source_is_silent "P3" muted_params loud_sources
           (mkAudioSource "P3" unit_params (replicate 4 30000) 30
              (calculate_level no_log10 (replicate 4 30000)) true)
           (mkMixedCall "P1" [30000; 30000; 30000; 30000] 10)).
  - vm_compute. reflexivity.
  - vm_compute. reflexivity.
  - reflexivity.
  - vm_compute. right. left.
  - cbn. discriminate.
Defined.

(** *** The active speaker *)

Definition new_speaker_calls (s s' : Impl) : list SpeakerCall :=
  drop (length (speaker_out s)) (speaker_out s').

Lemma fold_mix_for_speaker (entries : list (string * AudioSource)) : forall s,
  speaker_out (fold_left mix_for entries s) = speaker_out s
  /\ active_speaker (fold_left mix_for entries s) = active_speaker s.
Proof.
  induction entries as [|e entries IH]; intros s; [split; reflexivity|].
  cbn [fold_left]. destruct (IH (mix_for s e)) as [A B]. rewrite A, B.
  split; reflexivity.
Qed.

Lemma loudest_origin (entries : list (string * AudioSource)) :
  forall acc0 : float32 * string,
    let acc :=
      fold_left
        (fun acc entry =>
           let src : AudioSource := snd entry in
           if muted (params src) then acc
           else if f32_ltb (fst acc) (audio_level_db src)
                then (audio_level_db src, fst entry)
                else acc)
        entries acc0 in
    acc = acc0
    \/ exists e, e ∈ entries /\ muted (params (snd e)) = false
                 /\ acc = (audio_level_db (snd e), fst e).
Proof.
  induction entries as [|x entries IH]; intros acc0; cbn zeta; [left; reflexivity|].
  cbn [fold_left].
  match goal with |- context [fold_left ?f entries ?a] =>
    destruct (IH a) as [E|(e & He & Hm & E)] end.
  - cbn zeta in E. rewrite E.
    destruct (muted (params (snd x))) eqn:Hm; [left; reflexivity|].
    destruct (f32_ltb (fst acc0) (audio_level_db (snd x))); [|left; reflexivity].
    right. exists x. split; [left|]. split; [exact Hm|reflexivity].
  - right. exists e. split; [right; exact He|]. split; [exact Hm|exact E].
Qed.

(** [process] invokes the active-speaker callback at most once, and only
    for a change: the reported participant is an unmuted source of the
    table whose level is the reported one and above -40 dBFS, it was
    not the active speaker before, and it is afterwards. *)
Theorem speaker_call_sound (s : Impl) (c : SpeakerCall) :
  c ∈ new_speaker_calls s (process s) ->
  new_speaker_calls s (process s) = [c]
  /\ speaker_callback s = true
  /\ sp_id c <> active_speaker s
  /\ get_active_speaker (process s) = sp_id c
  /\ f32_ltb (f32_of_Z (-40)) (sp_level c) = true
  /\ exists src, sources s !! sp_id c = Some src
                 /\ muted (params src) = false
                 /\ audio_level_db src = sp_level c.
Proof.
  unfold new_speaker_calls, get_active_speaker, process.
  destruct (bool_decide (sources s = ∅)).
  { rewrite drop_all. intros H. inversion H. }
  cbn [speaker_out active_speaker].
  destruct (fold_mix_for_speaker (map_to_list (sources (update_active_speaker s)))
              (update_active_speaker s)) as [A B].
  rewrite A, B. clear A B. unfold update_active_speaker.
  pose proof (loudest_origin (map_to_list (sources s)) (f32_of_Z (-96), "")) as Ho.
  cbn zeta in Ho.
  destruct (fold_left _ (map_to_list (sources s)) _) as [highest loudest].
  destruct (f32_ltb (f32_of_Z (-40)) highest) eqn:Hhigh; cbn [andb];
    [|rewrite drop_all; intros H; inversion H].
  destruct (bool_decide (loudest = active_speaker s)) eqn:Hsame; cbn [negb];
    [rewrite drop_all; intros H; inversion H|].
  cbn [speaker_out active_speaker]. apply bool_decide_eq_false in Hsame.
  destruct (speaker_callback s); [|rewrite drop_all; intros H; inversion H].
  rewrite drop_app_length. intros Hc. apply list_elem_of_singleton in Hc. subst c.
  cbn [sp_id sp_level]. repeat split; auto.
  destruct Ho as [E|(e & He & Hm & E)].
  - exfalso. injection E as -> _. vm_compute in Hhigh. discriminate.
  - injection E as -> ->. exists (snd e). repeat split; auto.
    destruct e as [k v]. apply elem_of_map_to_list in He. exact He.
Qed.

Definition first_speaker_call : SpeakerCall :=
  List.hd (mkSpeakerCall "" f32_zero)
          (new_speaker_calls loud_sources (process loud_sources)).

Lemma speaker_call_sound_witness :
  sp_id first_speaker_call = "P3"
  /\ new_speaker_calls loud_sources (process loud_sources) = [first_speaker_call]
  /\ get_active_speaker (process loud_sources) = sp_id first_speaker_call.
Proof.
  split; [vm_compute; reflexivity|].
  destruct (speaker_call_sound loud_sources first_speaker_call) as (A & _ & _ & B & _).
  - vm_compute. left.
  - split; [exact A|exact B].
Defined.

End MixerLaws.

(** * Pacer: queue bound and sending order *)

Module PacerLaws.
Import Pacer.
Import PacerProofs.

Section Order.
Context {H : Heap} `{!HeapLaws H}.

Lemma drain_queue (fuel : nat) : forall s n,
  (length (queue (fst (drain fuel s n))) <= length (queue s))%nat
  /\ config (fst (drain fuel s n)) = config s.
Proof.
  induction fuel as [|fuel IH]; intros s n; cbn [drain]; [split; reflexivity|].
  destruct (heap_pop (queue s)) as [[p rest]|] eqn:Hpop; [|split; reflexivity].
  destruct (available_tokens s <? Z.of_nat (length (data p))); [split; reflexivity|].
  destruct (IH (send_top p rest s) (to_uint64 (n + 1))) as [A B].
  apply heap_pop_perm, Permutation_length in Hpop. cbn in Hpop, A.
  split; [lia|]. rewrite B. reflexivity.
Qed.

Lemma step_queue (s : Impl) (c : Call) :
  0 <= max_queue_size (config s) ->
  Z.of_nat (length (queue s)) <= max_queue_size (config s) ->
  Z.of_nat (length (queue (step s c))) <= max_queue_size (config s)
  /\ config (step s c) = config s.
Proof.
  intros Hmax Hlen. destruct c as [payload dest prio now|now]; cbn [step].
  - unfold enqueue.
    destruct (Z.leb_spec (max_queue_size (config s)) (Z.of_nat (length (queue s))));
      cbn [snd queue config]; [split; [lia|reflexivity]|].
    split; [|reflexivity].
    rewrite (Permutation_length (heap_push_perm _ (queue s))). cbn [length]. lia.
  - unfold process.
    pose proof (drain_queue (length (queue (refill now s))) (refill now s) 0) as [A B].
    destruct (drain _ (refill now s) 0) as [s2 count].
    unfold refill in A, B. cbn [fst snd queue config] in *.
    split; [|exact B]. lia.
Qed.

(** The queue never holds more than [max_queue_size] packets: whatever
    is enqueued and whenever [process] runs, a pacer that starts within
    the limit stays within it (an [enqueue] on a full queue is refused
    and counted in [packets_dropped]). *)
Theorem queue_never_exceeds_limit (s : Impl) (calls : list Call) :
  0 <= max_queue_size (config s) ->
  queue_size s <= max_queue_size (config s) ->
  queue_size (run s calls) <= max_queue_size (config s)
  /\ forall payload dest prio now,
       let r := enqueue payload dest prio now (run s calls) in
       fst r = false ->
       queue_size (run s calls) = max_queue_size (config s)
       /\ queue (snd r) = queue (run s calls)
       /\ sent (snd r) = sent (run s calls)
       /\ packets_dropped (stats (snd r))
          = to_uint64 (packets_dropped (stats (run s calls)) + 1).
Proof.
  unfold queue_size. intros Hmax Hlen.
  assert (Hrun : Z.of_nat (length (queue (run s calls))) <= max_queue_size (config s)
                 /\ config (run s calls) = config s).
  { unfold run. revert s Hmax Hlen.
    induction calls as [|c calls IH]; intros s Hmax Hlen; [split; [exact Hlen|reflexivity]|].
    cbn [fold_left]. destruct (step_queue s c Hmax Hlen) as [A B].
    destruct (IH (step s c)) as [A' B']; [rewrite B; exact Hmax|rewrite B; exact A|].
    rewrite B in A', B'. split; assumption. }
  destruct Hrun as [A B]. split; [exact A|].
  intros payload dest prio now. cbn zeta. unfold enqueue. rewrite B.
  destruct (Z.leb_spec (max_queue_size (config s))
                       (Z.of_nat (length (queue (run s calls)))));
    cbn [fst snd queue sent stats packets_dropped]; [|discriminate].
  intros _. repeat split. lia.
Qed.

(** The wire form of a queued packet, as the send callback gets it. *)
Definition wire (p : PacedPacket) : list Z * SocketAddress := (data p, destination p).

Definition by_priority (a b : PacedPacket) : Prop := priority b <= priority a.

Lemma drain_order (fuel : nat) : forall s n,
  0 <= n -> n + Z.of_nat fuel < 2 ^ 64 ->
  exists out,
    queue s ≡ₚ out ++ queue (fst (drain fuel s n))
    /\ sent (fst (drain fuel s n))
       = sent s ++ (if send_callback s then map wire out else [])
    /\ snd (drain fuel s n) = n + Z.of_nat (length out)
    /\ StronglySorted by_priority out
    /\ forall p x, p ∈ out -> x ∈ queue (fst (drain fuel s n)) ->
                   priority x <= priority p.
Proof.
  induction fuel as [|fuel IH]; intros s n Hn Hfuel; cbn [drain].
  - exists []. cbn [fst snd app length map]. rewrite Z.add_0_r.
    split; [reflexivity|]. split; [destruct (send_callback s); rewrite app_nil_r; reflexivity|].
    split; [reflexivity|]. split; [constructor|]. intros p x Hp. inversion Hp.
  - assert (Hstay : exists out,
              queue s ≡ₚ out ++ queue s
              /\ sent s = sent s ++ (if send_callback s then map wire out else [])
              /\ n = n + Z.of_nat (length out)
              /\ StronglySorted by_priority out
              /\ forall p x, p ∈ out -> x ∈ queue s -> priority x <= priority p).
    { exists []. cbn [app length map]. rewrite Z.add_0_r.
      split; [reflexivity|].
      split; [destruct (send_callback s); rewrite app_nil_r; reflexivity|].
      split; [reflexivity|]. split; [constructor|]. intros p x Hp. inversion Hp. }
    destruct (heap_pop (queue s)) as [[p rest]|] eqn:Hpop; [|exact Hstay].
    destruct (available_tokens s <? Z.of_nat (length (data p))); [exact Hstay|].
    clear Hstay.
    rewrite (to_uint64_id (n + 1)) by lia.
    destruct (IH (send_top p rest s) (n + 1)) as (out & A & B & C & D & E); [lia|lia|].
    pose proof (heap_pop_perm _ _ _ Hpop) as Hperm.
    cbn [send_top queue sent send_callback] in A, B.
    assert (Htop : forall x, x ∈ rest -> priority x <= priority p).
    { intros x Hx. apply (heap_pop_top _ _ _ x Hpop). rewrite Hperm. right. exact Hx. }
    exists (p :: out). split; [|split; [|split; [|split]]].
    + rewrite Hperm. cbn [app]. constructor. exact A.
    + rewrite B. destruct (send_callback s); [|reflexivity].
      rewrite <- app_assoc. reflexivity.
    + rewrite C. cbn [length]. lia.
    + constructor; [exact D|]. apply Forall_forall. intros x Hx.
      apply Htop. rewrite A. apply elem_of_app. left. exact Hx.
    + intros q x Hq Hx. apply elem_of_cons in Hq as [->|Hq].
      * apply Htop. rewrite A. apply elem_of_app. right. exact Hx.
      * apply (E q x Hq Hx).
Qed.

(** One [process] call sends by strict priority.  The packets it takes
    out of the queue are, with those it leaves, the queue it found; it
    hands them to the send callback in the order taken, highest priority
    first; no packet left behind has a higher priority than a packet
    sent; and the count it returns is the number of packets taken. *)
Theorem process_sends_by_priority (now : Z) (s : Impl) :
  Z.of_nat (length (queue s)) < 2 ^ 64 ->
  exists out,
    queue s ≡ₚ out ++ queue (snd (process now s))
    /\ sent (snd (process now s))
       = sent s ++ (if send_callback s then map wire out else [])
    /\ fst (process now s) = Z.of_nat (length out)
    /\ StronglySorted by_priority out
    /\ forall p x, p ∈ out -> x ∈ queue (snd (process now s)) ->
                   priority x <= priority p.
Proof.
  intros Hlen. unfold process.
  destruct (drain_order (length (queue (refill now s))) (refill now s) 0)
    as (out & A & B & C & D & E); [lia|unfold refill; cbn [queue]; lia|].
  destruct (drain _ (refill now s) 0) as [s2 count].
  unfold refill in A, B. cbn [fst snd queue sent send_callback] in *.
  exists out. rewrite Z.add_0_l in C. repeat split; assumption.
Qed.

End Order.

Definition urgent_last : list Call :=
  [Enqueue [1; 2; 3] demo_destination 1 0;
   Enqueue [4; 5] demo_destination 9 0;
   Enqueue [6] demo_destination 5 0].

Definition small_queue : Config := mkConfig 8000 16000 10 2 5.

Lemma queue_never_exceeds_limit_witness :
  queue_size (run (H := fifo_heap) (initial small_queue 0) urgent_last) <= 2
  /\ queue_size (run (H := fifo_heap) (initial small_queue 0) urgent_last) = 2.
Proof.
  split; [|vm_compute; reflexivity].
  apply (proj1 (queue_never_exceeds_limit (H := fifo_heap) (initial small_queue 0)
                  urgent_last ltac:(cbn; lia) ltac:(unfold queue_size; cbn; lia))).
Defined.

Lemma process_sends_by_priority_witness :
  sent (snd (process (H := fifo_heap) 0
               (run (H := fifo_heap) demo_pacer urgent_last)))
  = [([4; 5], demo_destination);
     ([6], demo_destination);
     ([1; 2; 3], demo_destination)]
  /\ exists out,
       queue (run (H := fifo_heap) demo_pacer urgent_last)
       ≡ₚ out ++ queue (snd (process (H := fifo_heap) 0
                               (run (H := fifo_heap) demo_pacer urgent_last)))
       /\ StronglySorted by_priority out.
Proof.
  split; [vm_compute; reflexivity|].
  destruct (process_sends_by_priority (H := fifo_heap) 0
              (run (H := fifo_heap) demo_pacer urgent_last)
              ltac:(vm_compute; reflexivity)) as (out & A & _ & _ & D & _).
  exists out. split; assumption.
Defined.

End PacerLaws.

(** * ICE: candidate priorities *)

Module IceLaws.
Import Ice.

(** The type preferences of the [switch] in [calculate_priority]. *)
Definition type_preference (t : IceCandidateType) : Z :=
  match t with
  | HOST => 126
  | PEER_REFLEXIVE => 110
  | SERVER_REFLEXIVE => 100
  | RELAY => 0
  end.

Lemma calculate_priority_value (t : IceCandidateType) (lp c : Z) :
  0 <= lp < 65536 -> 1 <= c <= 256 ->
  calculate_priority t lp c = type_preference t * 2 ^ 24 + lp * 2 ^ 8 + (256 - c).
Proof.
  intros Hlp Hc. unfold calculate_priority, to_uint32.
  rewrite !Z.shiftl_mul_pow2 by lia.
  change (2 ^ 32) with 4294967296. change (2 ^ 24) with 16777216.
  change (2 ^ 8) with 256.
  assert (Ht : 0 <= type_preference t <= 126) by (destruct t; cbn; lia).
  replace (match t with
           | HOST => 126 | SERVER_REFLEXIVE => 100 | PEER_REFLEXIVE => 110 | RELAY => 0
           end) with (type_preference t) by (destruct t; reflexivity).
  rewrite (Z.mod_small (type_preference t * 16777216)) by lia.
  rewrite (Z.mod_small (lp * 256)) by lia.
  rewrite (Z.mod_small (256 - c)) by lia.
  rewrite (Z.mod_small (type_preference t * 16777216 + lp * 256)) by lia.
  apply Z.mod_small. lia.
Qed.

(** For local preferences below 2^16 and components 1..256 the three
    fields of a candidate priority do not overlap and nothing wraps, so
    priorities order candidates by type first (host over peer-reflexive
    over server-reflexive over relay, whatever the local preferences),
    then by local preference, then by lower component. *)
Theorem candidate_priority_order
    (t1 t2 : IceCandidateType) (lp1 lp2 c1 c2 : Z) :
  0 <= lp1 < 65536 -> 0 <= lp2 < 65536 ->
  1 <= c1 <= 256 -> 1 <= c2 <= 256 ->
  (calculate_priority t1 lp1 c1 < calculate_priority t2 lp2 c2
   <-> type_preference t1 < type_preference t2
       \/ (type_preference t1 = type_preference t2
           /\ (lp1 < lp2 \/ (lp1 = lp2 /\ c2 < c1))))
  /\ calculate_priority RELAY lp1 c1 < calculate_priority SERVER_REFLEXIVE lp2 c2
     < calculate_priority PEER_REFLEXIVE lp1 c1
  /\ calculate_priority PEER_REFLEXIVE lp1 c1 < calculate_priority HOST lp2 c2 < 2 ^ 32.
Proof.
  intros Hlp1 Hlp2 Hc1 Hc2.
  rewrite !calculate_priority_value by assumption.
  change (2 ^ 24) with 16777216. change (2 ^ 8) with 256.
  change (2 ^ 32) with 4294967296.
  split; [|cbn [type_preference]; lia].
  destruct t1, t2; cbn [type_preference]; lia.
Qed.

Lemma candidate_priority_order_witness :
  calculate_priority RELAY 65535 1 < calculate_priority SERVER_REFLEXIVE 0 256
  < calculate_priority PEER_REFLEXIVE 65535 1.
Proof.
  apply (candidate_priority_order HOST HOST 65535 0 1 256); lia.
Defined.

End IceLaws.

(** * RTP packets: parsing is safe, and inverts serialization *)

Module RtpLaws.
Import Rtp.

Lemma to_uint8_land (x : Z) : to_uint8 x = Z.land x 255.
Proof. unfold to_uint8. change 255 with (Z.ones 8). rewrite Z.land_ones by lia. reflexivity. Qed.

Lemma to_uint8_range (x : Z) : 0 <= to_uint8 x < 256.
Proof. unfold to_uint8. apply Z.mod_pos_bound. lia. Qed.

Lemma lor_shiftl_add (hi lo k : Z) :
  0 <= k -> 0 <= lo < 2 ^ k -> Z.lor (Z.shiftl hi k) lo = hi * 2 ^ k + lo.
Proof.
  intros Hk Hlo.
  assert (Hdisj : Z.land (Z.shiftl hi k) lo = 0).
  { apply Z.bits_inj'. intros n Hn. rewrite Z.land_spec, Z.bits_0.
    destruct (Z.lt_ge_cases n k) as [Hlt|Hge].
    - rewrite Z.shiftl_spec_low by exact Hlt. reflexivity.
    - rewrite <- (Z.mod_small lo (2 ^ k)) by exact Hlo.
      rewrite Z.mod_pow2_bits_high by lia. apply andb_false_r. }
  rewrite <- Z.lxor_lor by exact Hdisj.
  rewrite <- Z.add_nocarry_lxor by exact Hdisj.
  rewrite Z.shiftl_mul_pow2 by exact Hk. reflexivity.
Qed.

Definition is_byte (b : Z) : Prop := 0 <= b < 256.

(** What the two readers compute from bytes. *)
Lemma combine16 (b0 b1 : Z) :
  is_byte b0 -> is_byte b1 ->
  to_uint16 (Z.lor (Z.shiftl b0 8) b1) = be_combine [b0; b1].
Proof.
  unfold is_byte. intros H0 H1. rewrite lor_shiftl_add by lia.
  cbn [be_combine length]. change (2 ^ (8 * Z.of_nat 1)) with 256.
  change (2 ^ (8 * Z.of_nat 0)) with 1. change (2 ^ 8) with 256.
  unfold to_uint16. change (2 ^ 16) with 65536. rewrite Z.mod_small by lia. lia.
Qed.

Lemma combine32 (b0 b1 b2 b3 : Z) :
  is_byte b0 -> is_byte b1 -> is_byte b2 -> is_byte b3 ->
  Z.lor (Z.lor (Z.lor (to_uint32 (Z.shiftl b0 24)) (to_uint32 (Z.shiftl b1 16)))
               (to_uint32 (Z.shiftl b2 8)))
        (to_uint32 b3)
  = be_combine [b0; b1; b2; b3].
Proof.
  unfold is_byte. intros H0 H1 H2 H3. unfold to_uint32.
  rewrite !Z.shiftl_mul_pow2 by lia.
  change (2 ^ 32) with 4294967296. change (2 ^ 24) with 16777216.
  change (2 ^ 16) with 65536. change (2 ^ 8) with 256.
  rewrite !Z.mod_small by lia.
  rewrite <- !Z.lor_assoc.
  change 256 with (2 ^ 8) at 1. change 65536 with (2 ^ 16) at 1.
  change 16777216 with (2 ^ 24) at 1.
  rewrite <- !Z.shiftl_mul_pow2 by lia.
  rewrite (lor_shiftl_add b2 b3 8) by lia.
  change (2 ^ 8) with 256.
  rewrite (lor_shiftl_add b1 _ 16) by (change (2 ^ 16) with 65536; lia).
  change (2 ^ 16) with 65536.
  rewrite (lor_shiftl_add b0 _ 24) by (change (2 ^ 24) with 16777216; lia).
  cbn [be_combine length].
  change (2 ^ (8 * Z.of_nat 3)) with 16777216.
  change (2 ^ (8 * Z.of_nat 2)) with 65536.
  change (2 ^ (8 * Z.of_nat 1)) with 256.
  change (2 ^ (8 * Z.of_nat 0)) with 1.
  change (2 ^ 24) with 16777216. lia.
Qed.

Lemma be_combine_be32 (v : Z) : 0 <= v < 2 ^ 32 -> be_combine (be32 v) = v.
Proof.
  intros Hv. unfold be32. rewrite !to_uint8_land. apply be_bytes_of_uint32. exact Hv.
Qed.

Lemma be_combine_be16 (v : Z) : 0 <= v < 2 ^ 16 -> be_combine (be16 v) = v.
Proof.
  intros Hv. unfold be16, to_uint8. cbn [be_combine length].
  rewrite Z.shiftr_div_pow2 by lia.
  change (2 ^ (8 * Z.of_nat 1)) with 256. change (2 ^ (8 * Z.of_nat 0)) with 1.
  change (2 ^ 8) with 256. change (2 ^ 16) with 65536 in Hv.
  rewrite (Z.mod_small (v / 256)) by (split; [apply Z.div_pos; lia|apply Z.div_lt_upper_bound; lia]).
  pose proof (Z.div_mod v 256 ltac:(lia)). lia.
Qed.

Lemma lookup_after (pre l : list Z) (k : nat) :
  (pre ++ l) !! Nat.iter k S (length pre) = l !! k.
Proof.
  replace (Nat.iter k S (length pre)) with (length pre + k)%nat
    by (unfold Nat.iter; induction k as [|k IH]; simpl; lia).
  rewrite lookup_app_r by lia. f_equal. lia.
Qed.

Lemma read_uint16_be_app (pre post : list Z) (v : Z) :
  0 <= v < 2 ^ 16 ->
  read_uint16_be (pre ++ be16 v ++ post) (length pre) = Some v.
Proof.
  intros Hv. unfold read_uint16_be.
  rewrite (lookup_after pre _ 0), (lookup_after pre _ 1).
  cbn. rewrite combine16 by apply to_uint8_range.
  f_equal. apply (be_combine_be16 v Hv).
Qed.

Lemma read_uint32_be_app (pre post : list Z) (v : Z) :
  0 <= v < 2 ^ 32 ->
  read_uint32_be (pre ++ be32 v ++ post) (length pre) = Some v.
Proof.
  intros Hv. unfold read_uint32_be.
  rewrite (lookup_after pre _ 0), (lookup_after pre _ 1),
          (lookup_after pre _ 2), (lookup_after pre _ 3).
  cbn. rewrite combine32 by apply to_uint8_range.
  f_equal. apply (be_combine_be32 v Hv).
Qed.

Lemma read_csrcs_app (vs : list Z) : forall (pre post : list Z),
  Forall (fun v => 0 <= v < 2 ^ 32) vs ->
  read_csrcs (pre ++ flat_map be32 vs ++ post) (length pre) (length vs) = Some vs.
Proof.
  induction vs as [|v vs IH]; intros pre post Hvs; [reflexivity|].
  apply Forall_cons in Hvs as [Hv Hvs]. cbn [read_csrcs length flat_map].
  rewrite <- (app_assoc (be32 v)).
  rewrite (read_uint32_be_app pre _ v Hv). cbn [mbind option_bind].
  replace (length pre + 4)%nat with (length (pre ++ be32 v)) by (rewrite length_app; reflexivity).
  rewrite (app_assoc pre (be32 v)). rewrite (IH _ post Hvs). reflexivity.
Qed.

Lemma slice_app (pre mid post : list Z) :
  slice (pre ++ mid ++ post) (length pre) (length mid) = Some mid.
Proof.
  unfold slice. rewrite !length_app.
  destruct (Nat.leb_spec (length pre + length mid)
                         (length pre + (length mid + length post))) as [_|H]; [|lia].
  rewrite drop_app_length, take_app_length. reflexivity.
Qed.

(** *** The stages of [parse] on a serialized packet *)

Lemma parse_csrc_at (data pre post vs : list Z) (count : Z) :
  data = pre ++ flat_map be32 vs ++ post ->
  length pre = 12%nat ->
  count = Z.of_nat (length vs) ->
  Forall (fun v => 0 <= v < 2 ^ 32) vs ->
  parse_csrc data count = Some (Some (vs, length (pre ++ flat_map be32 vs))).
Proof.
  intros -> Hpre -> Hvs. unfold parse_csrc.
  assert (Hlen : length (flat_map be32 vs) = (4 * length vs)%nat).
  { clear. induction vs as [|v vs IH]; cbn [flat_map length]; [reflexivity|].
    rewrite length_app, IH. cbn [be32 length]. lia. }
  assert (Hoff : length (pre ++ flat_map be32 vs) = (12 + 4 * length vs)%nat).
  { rewrite length_app, Hlen, Hpre. reflexivity. }
  rewrite Hoff.
  destruct (Z.ltb_spec 0 (Z.of_nat (length vs))) as [Hpos|Hzero].
  - rewrite !length_app, Hlen, Hpre.
    replace (Z.to_nat (Z.of_nat (length vs) * 4)) with (4 * length vs)%nat by lia.
    destruct (Nat.ltb_spec (12 + (4 * length vs + length post))
                           (12 + 4 * length vs)) as [H|_]; [lia|].
    rewrite Nat2Z.id. rewrite <- Hpre at 1.
    rewrite (read_csrcs_app vs pre post Hvs). reflexivity.
  - destruct vs as [|v vs]; [|cbn [length] in Hzero; lia]. reflexivity.
Qed.

(** An extension whose data fills whole 32-bit words, fewer than 2^14
    of them. *)
Definition aligned (e : RtpExtension) : Prop :=
  0 <= profile e < 2 ^ 16
  /\ (length (ext_data e) mod 4 = 0)%nat
  /\ Z.of_nat (length (ext_data e)) < 2 ^ 16.

Definition ext_bytes (e : RtpExtension) : list Z :=
  be16 (profile e)
  ++ be16 (to_uint16 ((Z.of_nat (length (ext_data e)) + 3) / 4))
  ++ ext_data e.

Lemma ext_words (e : RtpExtension) :
  aligned e ->
  let words := to_uint16 ((Z.of_nat (length (ext_data e)) + 3) / 4) in
  0 <= words < 2 ^ 16
  /\ Z.to_nat (to_uint16 (words * 4)) = length (ext_data e).
Proof.
  intros (_ & Hmod & Hlen). cbn zeta.
  set (n := length (ext_data e)) in *.
  pose proof (Nat.div_mod_eq n 4) as Hn. rewrite Hmod, Nat.add_0_r in Hn.
  assert (Hq : (Z.of_nat n + 3) / 4 = Z.of_nat (n / 4)).
  { rewrite Hn at 1. symmetry. apply Z.div_unique with (r := 3); lia. }
  rewrite Hq. unfold to_uint16. change (2 ^ 16) with 65536 in *.
  rewrite (Z.mod_small (Z.of_nat (n / 4))) by lia.
  rewrite Z.mod_small by lia. split; lia.
Qed.

Lemma parse_extension_at (data pre post : list Z) (e : RtpExtension) :
  data = pre ++ ext_bytes e ++ post ->
  aligned e ->
  parse_extension data (length pre) true
  = Some (Some (Some e, length (pre ++ ext_bytes e))).
Proof.
  intros -> He. pose proof (ext_words e He) as [Hw Hlen]. cbn zeta in Hw, Hlen.
  destruct He as (Hp & _ & _). unfold parse_extension, ext_bytes in *.
  set (words := to_uint16 ((Z.of_nat (length (ext_data e)) + 3) / 4)) in *.
  rewrite !length_app. cbn [be16 length].
  destruct (Nat.ltb_spec (length pre + (2 + (2 + length (ext_data e)) + length post))
                         (length pre + 4)) as [H|_]; [lia|].
  rewrite <- !app_assoc.
  rewrite (read_uint16_be_app pre _ (profile e) Hp). cbn [mbind option_bind].
  replace (length pre + 2)%nat with (length (pre ++ be16 (profile e)))
    by (rewrite length_app; reflexivity).
  rewrite (app_assoc pre (be16 (profile e))).
  rewrite (read_uint16_be_app (pre ++ be16 (profile e)) _ words Hw).
  cbn [mbind option_bind]. rewrite Hlen.
  destruct (Nat.ltb_spec (length pre + (2 + (2 + length (ext_data e)) + length post))
                         (length pre + 4 + length (ext_data e))) as [H|_]; [lia|].
  replace (length pre + 4)%nat
    with (length ((pre ++ be16 (profile e)) ++ be16 words))
    by (rewrite !length_app; cbn [be16 length]; lia).
  rewrite (app_assoc (pre ++ be16 (profile e)) (be16 words)).
  rewrite slice_app. cbn [mbind option_bind].
  destruct e as [prof bytes]. cbn [profile ext_data]. do 3 f_equal.
  rewrite !length_app. cbn [be16 length]. lia.
Qed.

Lemma parse_payload_at (data pre pl : list Z) :
  data = pre ++ pl ->
  parse_payload data (length pre) false = Some pl.
Proof.
  intros ->. unfold parse_payload. rewrite length_app.
  destruct (Nat.ltb_spec (length pre) (length pre + length pl)) as [Hlt|Hge].
  - cbn [andb]. replace (length pre + length pl - length pre)%nat with (length pl) by lia.
    rewrite <- (app_nil_r pl) at 1. apply slice_app.
  - destruct pl as [|x pl]; [reflexivity|cbn [length] in Hge; lia].
Qed.

(** The two flag bytes, decoded as [parse] decodes them.  The fields
    range over 16 and 128 values: checked by enumeration. *)
Definition byte0_of (pad ext : bool) (count : Z) : Z :=
  to_uint8 (Z.lor (Z.lor (Z.lor (Z.shiftl 2 6) (if pad then 32 else 0))
                         (if ext then 16 else 0))
                  (Z.land count 15)).

Definition byte1_of (mark : bool) (pt : Z) : Z :=
  to_uint8 (Z.lor (if mark then 128 else 0) (Z.land pt 127)).

Definition byte0_decodes (pad ext : bool) (count : Z) : bool :=
  let b := byte0_of pad ext count in
  (Z.land (Z.shiftr b 6) 3 =? 2)
  && eqb (negb (Z.land (Z.shiftr b 5) 1 =? 0)) pad
  && eqb (negb (Z.land (Z.shiftr b 4) 1 =? 0)) ext
  && (Z.land b 15 =? count).

Definition byte1_decodes (mark : bool) (pt : Z) : bool :=
  let b := byte1_of mark pt in
  eqb (negb (Z.land (Z.shiftr b 7) 1 =? 0)) mark && (Z.land b 127 =? pt).

Lemma below_enumerated (n : nat) (P : Z -> bool) :
  forallb P (map Z.of_nat (seq 0 n)) = true ->
  forall x, 0 <= x < Z.of_nat n -> P x = true.
Proof.
  intros Hall x Hx. rewrite forallb_forall in Hall. apply Hall.
  apply in_map_iff. exists (Z.to_nat x). split; [lia|]. apply in_seq. lia.
Qed.

Lemma byte0_fields (pad ext : bool) (count : Z) :
  0 <= count <= 15 -> byte0_decodes pad ext count = true.
Proof.
  intros Hc. apply (below_enumerated 16 (byte0_decodes pad ext)); [|lia].
  destruct pad, ext; vm_compute; reflexivity.
Qed.

Lemma byte1_fields (mark : bool) (pt : Z) :
  0 <= pt <= 127 -> byte1_decodes mark pt = true.
Proof.
  intros Hc. apply (below_enumerated 128 (byte1_decodes mark)); [|lia].
  destruct mark; vm_compute; reflexivity.
Qed.

Lemma pad_to_word_id (r : list Z) : (length r mod 4 = 0)%nat -> pad_to_word r = r.
Proof.
  intros Hr. assert (Hstep : pad_step r = r).
  { unfold pad_step. rewrite (proj2 (Nat.eqb_eq _ _) Hr). reflexivity. }
  unfold pad_to_word, Nat.iter. cbn [nat_rect]. rewrite !Hstep. reflexivity.
Qed.

Lemma length_flat_be32 (vs : list Z) : length (flat_map be32 vs) = (4 * length vs)%nat.
Proof.
  induction vs as [|v vs IH]; cbn [flat_map length]; [reflexivity|].
  rewrite length_app, IH. cbn [be32 length]. lia.
Qed.

Definition has_extension (eo : option RtpExtension) : bool :=
  match eo with Some _ => true | None => false end.

Definition extension_bytes (eo : option RtpExtension) : list Z :=
  match eo with Some e => ext_bytes e | None => [] end.

(** The byte layout [serialize] produces when the extension data needs
    no padding. *)
Lemma serialize_layout (p : RtpPacket) :
  match extension_ p with Some e => aligned e | None => True end ->
  serialize p
  = [to_uint8 (Z.lor (Z.lor (Z.lor (Z.shiftl (version (header_ p)) 6)
                                   (if padding (header_ p) then 32 else 0))
                            (if has_extension (extension_ p) then 16 else 0))
                     (Z.land (csrc_count (header_ p)) 15));
     byte1_of (marker (header_ p)) (payload_type (header_ p))]
    ++ be16 (sequence (header_ p)) ++ be32 (timestamp (header_ p))
    ++ be32 (ssrc (header_ p)) ++ flat_map be32 (csrc (header_ p))
    ++ extension_bytes (extension_ p) ++ payload_ p.
Proof.
  intros He. unfold serialize. destruct (extension_ p) as [e|].
  - rewrite pad_to_word_id.
    + cbn [has_extension extension_bytes]. unfold ext_bytes.
      rewrite <- !app_assoc. reflexivity.
    + destruct He as (_ & Hmod & _). rewrite !length_app, length_flat_be32.
      cbn [be16 be32 length].
      match goal with
      | |- (?n mod 4 = 0)%nat =>
          replace n with (length (ext_data e) + (4 + length (csrc (header_ p))) * 4)%nat
            by lia
      end.
      rewrite Nat.Div0.mod_add. exact Hmod.
  - cbn [has_extension extension_bytes]. rewrite <- !app_assoc. reflexivity.
Qed.

Lemma parse_assembled (cc : Z) (mk : bool) (pt sq ts sr : Z) (cs : list Z)
    (eo : option RtpExtension) (pl : list Z) :
  0 <= cc <= 15 -> cc = Z.of_nat (length cs) ->
  0 <= pt <= 127 -> 0 <= sq < 2 ^ 16 -> 0 <= ts < 2 ^ 32 -> 0 <= sr < 2 ^ 32 ->
  Forall (fun v => 0 <= v < 2 ^ 32) cs ->
  match eo with Some e => aligned e | None => True end ->
  parse ([byte0_of false (has_extension eo) cc; byte1_of mk pt]
           ++ be16 sq ++ be32 ts ++ be32 sr ++ flat_map be32 cs
           ++ extension_bytes eo ++ pl)
  = Some (Some (mkRtpPacket
                  (mkRtpHeader 2 false (has_extension eo) cc mk pt sq ts sr cs)
                  eo pl)).
Proof.
  intros Hcc Hcs Hpt Hsq Hts Hsr Hcsr He.
  set (b0 := byte0_of false (has_extension eo) cc).
  set (b1 := byte1_of mk pt).
  set (fixed := [b0; b1] ++ be16 sq ++ be32 ts ++ be32 sr).
  set (data := [b0; b1] ++ be16 sq ++ be32 ts ++ be32 sr ++ flat_map be32 cs
                 ++ extension_bytes eo ++ pl).
  pose proof (byte0_fields false (has_extension eo) cc Hcc) as F0.
  pose proof (byte1_fields mk pt Hpt) as F1.
  unfold byte0_decodes in F0. unfold byte1_decodes in F1. cbn zeta in F0, F1.
  fold b0 in F0. fold b1 in F1.
  apply andb_true_iff in F0 as [F0 Fc]. apply andb_true_iff in F0 as [F0 Fe].
  apply andb_true_iff in F0 as [Fv Fp]. apply andb_true_iff in F1 as [Fm Ft].
  apply Z.eqb_eq in Fv, Fc, Ft. apply eqb_prop in Fp, Fe, Fm.
  assert (R16 : read_uint16_be data 2 = Some sq)
    by exact (read_uint16_be_app [b0; b1] _ sq Hsq).
  assert (R32a : read_uint32_be data 4 = Some ts)
    by exact (read_uint32_be_app ([b0; b1] ++ be16 sq) _ ts Hts).
  assert (R32b : read_uint32_be data 8 = Some sr)
    by exact (read_uint32_be_app ([b0; b1] ++ be16 sq ++ be32 ts) _ sr Hsr).
  assert (Rc : parse_csrc data cc = Some (Some (cs, length (fixed ++ flat_map be32 cs))))
    by exact (parse_csrc_at data fixed (extension_bytes eo ++ pl) cs cc
                eq_refl eq_refl Hcs Hcsr).
  assert (Re : parse_extension data (length (fixed ++ flat_map be32 cs)) (has_extension eo)
               = Some (Some (eo, length ((fixed ++ flat_map be32 cs)
                                          ++ extension_bytes eo)))).
  { destruct eo as [e|]; cbn [has_extension extension_bytes].
    - apply (parse_extension_at data (fixed ++ flat_map be32 cs) pl e); [|exact He].
      subst data fixed. rewrite <- !app_assoc. reflexivity.
    - rewrite app_nil_r. reflexivity. }
  assert (Rp : parse_payload data
                 (length ((fixed ++ flat_map be32 cs) ++ extension_bytes eo)) false
               = Some pl).
  { apply (parse_payload_at data _ pl). subst data fixed.
    rewrite <- !app_assoc. reflexivity. }
  unfold parse.
  replace (length data <? 12)%nat with false
    by (symmetry; apply Nat.ltb_ge; subst data; cbn [app be16 be32 length]; lia).
  change (data !! 0%nat) with (Some b0). change (data !! 1%nat) with (Some b1).
  cbn [mbind option_bind]. rewrite Fv, Fp, Fe, Fm, Fc, Ft.
  cbn [Z.eqb Pos.eqb negb]. rewrite R16, R32a, R32b. cbn [mbind option_bind].
  rewrite Rc. cbn [mbind option_bind]. rewrite Re. cbn [mbind option_bind].
  rewrite Rp. reflexivity.
Qed.

(** A packet [serialize] writes without loss: version 2, no padding
    flag, the extension flag and the CSRC count agree with the
    extension and the CSRC list, every field fits its width, and the
    extension data fills whole words and is shorter than 65536 bytes
    ([parse] computes the extension length in bytes in a [uint16_t]). *)
Definition well_formed (p : RtpPacket) : Prop :=
  let h := header_ p in
  version h = 2
  /\ padding h = false
  /\ extension h = has_extension (extension_ p)
  /\ 0 <= csrc_count h <= 15
  /\ csrc_count h = Z.of_nat (length (csrc h))
  /\ 0 <= payload_type h <= 127
  /\ 0 <= sequence h < 2 ^ 16
  /\ 0 <= timestamp h < 2 ^ 32
  /\ 0 <= ssrc h < 2 ^ 32
  /\ Forall (fun v => 0 <= v < 2 ^ 32) (csrc h)
  /\ match extension_ p with Some e => aligned e | None => True end.

(** [parse] inverts [serialize]: a packet with version 2, padding flag
    clear, extension flag and CSRC count agreeing with the extension
    and the CSRC list, fields within their widths, and extension data
    that fills whole 32-bit words and is shorter than 65536 bytes, is
    read back field for field, CSRC list, extension and payload
    included, and its serialization has [size()] bytes. *)
Theorem parse_serialize_round_trip (p : RtpPacket) :
  well_formed p ->
  parse (serialize p) = Some (Some p)
  /\ Z.of_nat (length (serialize p)) = size p.
Proof.
  intros (Hv & Hp & He & Hcc & Hcs & Hpt & Hsq & Hts & Hsr & Hcsr & Hal).
  rewrite (serialize_layout p Hal).
  destruct p as [[ver pad ext cc mk pt sq ts sr cs] eo pl].
  cbn [header_ extension_ payload_ version padding extension csrc_count marker
       payload_type sequence timestamp ssrc csrc] in *.
  subst ver pad ext. split.
  - apply (parse_assembled cc mk pt sq ts sr cs eo pl); assumption.
  - unfold size, header_size.
    cbn [header_ extension_ payload_ csrc_count].
    rewrite !length_app, length_flat_be32. cbn [be16 be32 length].
    destruct eo as [e|]; cbn [extension_bytes length].
    + destruct Hal as (_ & Hmod & _). unfold ext_bytes.
      rewrite !length_app. cbn [be16 length].
      pose proof (Nat.div_mod_eq (length (ext_data e)) 4) as Hn.
      rewrite Hmod, Nat.add_0_r in Hn.
      assert (Hq : (Z.of_nat (length (ext_data e)) + 3) / 4
                   = Z.of_nat (length (ext_data e) / 4)).
      { rewrite Hn at 1. symmetry. apply Z.div_unique with (r := 3); lia. }
      rewrite Hq. lia.
    + lia.
Qed.

(** A packet with two CSRCs, a one-word extension and three payload
    bytes. *)
Definition sample_packet : RtpPacket :=
  mkRtpPacket
    (mkRtpHeader 2 false true 2 true 96 4660 305419896 0xAABBCCDD [1; 4294967295])
    (Some (mkRtpExtension 0xBEDE [16; 1; 2; 0]))
    [9; 8; 7].

Lemma parse_serialize_round_trip_witness :
  parse (serialize sample_packet) = Some (Some sample_packet)
  /\ Z.of_nat (length (serialize sample_packet)) = 31.
Proof.
  apply (parse_serialize_round_trip sample_packet).
  unfold well_formed, aligned. cbn.
  repeat split; try lia; try reflexivity. repeat constructor; lia.
Defined.

(** *** [parse] stays inside the buffer *)

Lemma read_uint16_be_in (data : list Z) (i : nat) :
  (i + 2 <= length data)%nat -> is_Some (read_uint16_be data i).
Proof.
  intros Hi. unfold read_uint16_be.
  destruct (lookup_lt_is_Some_2 data i ltac:(lia)) as [b0 ->].
  destruct (lookup_lt_is_Some_2 data (S i) ltac:(lia)) as [b1 ->].
  cbn. eauto.
Qed.

Lemma read_uint32_be_in (data : list Z) (i : nat) :
  (i + 4 <= length data)%nat -> is_Some (read_uint32_be data i).
Proof.
  intros Hi. unfold read_uint32_be.
  destruct (lookup_lt_is_Some_2 data i ltac:(lia)) as [b0 ->].
  destruct (lookup_lt_is_Some_2 data (S i) ltac:(lia)) as [b1 ->].
  destruct (lookup_lt_is_Some_2 data (S (S i)) ltac:(lia)) as [b2 ->].
  destruct (lookup_lt_is_Some_2 data (S (S (S i))) ltac:(lia)) as [b3 ->].
  cbn. eauto.
Qed.

Lemma read_csrcs_in (data : list Z) (n : nat) : forall offset,
  (offset + 4 * n <= length data)%nat ->
  exists l, read_csrcs data offset n = Some l /\ length l = n.
Proof.
  induction n as [|n IH]; intros offset Hlen; cbn [read_csrcs].
  - exists []. split; reflexivity.
  - destruct (read_uint32_be_in data offset ltac:(lia)) as [v ->].
    destruct (IH (offset + 4)%nat ltac:(lia)) as (l & -> & Hl).
    exists (v :: l). split; [reflexivity|]. cbn [length]. lia.
Qed.

Lemma slice_in (data : list Z) (off len : nat) :
  (off + len <= length data)%nat -> slice data off len = Some (take len (drop off data)).
Proof.
  intros H. unfold slice. destruct (Nat.leb_spec (off + len) (length data)); [reflexivity|lia].
Qed.

Lemma parse_csrc_in (data : list Z) (count : Z) :
  (12 <= length data)%nat -> 0 <= count ->
  exists r, parse_csrc data count = Some r
            /\ forall l off, r = Some (l, off) ->
                 (12 <= off <= length data)%nat
                 /\ Z.of_nat (length l) = count.
Proof.
  intros Hlen Hc. unfold parse_csrc.
  destruct (Z.ltb_spec 0 count) as [Hpos|Hzero].
  - destruct (Nat.ltb_spec (length data) (12 + Z.to_nat (count * 4))) as [Hs|Hs].
    + exists None. split; [reflexivity|]. intros l off [=].
    + destruct (read_csrcs_in data (Z.to_nat count) 12 ltac:(lia)) as (l & -> & Hl).
      cbn [mbind option_bind]. eexists. split; [reflexivity|].
      intros l' off [= <- <-]. split; lia.
  - eexists. split; [reflexivity|]. intros l off [= <- <-]. cbn [length]. split; lia.
Qed.

Lemma parse_extension_in (data : list Z) (offset : nat) (present : bool) :
  (offset <= length data)%nat ->
  exists r, parse_extension data offset present = Some r
            /\ forall eo off, r = Some (eo, off) ->
                 (offset <= off <= length data)%nat /\ has_extension eo = present.
Proof.
  intros Hoff. unfold parse_extension. destruct present.
  - destruct (Nat.ltb_spec (length data) (offset + 4)) as [Hs|Hs].
    { exists None. split; [reflexivity|]. intros eo off [=]. }
    destruct (read_uint16_be_in data offset ltac:(lia)) as [prof ->].
    destruct (read_uint16_be_in data (offset + 2) ltac:(lia)) as [words ->].
    cbn [mbind option_bind].
    destruct (Nat.ltb_spec (length data)
                (offset + 4 + Z.to_nat (to_uint16 (words * 4)))) as [Hs'|Hs'].
    { exists None. split; [reflexivity|]. intros eo off [=]. }
    rewrite slice_in by lia. cbn [mbind option_bind]. eexists. split; [reflexivity|].
    intros eo off [= <- <-]. split; [lia|reflexivity].
  - eexists. split; [reflexivity|]. intros eo off [= <- <-]. split; [lia|reflexivity].
Qed.

Lemma parse_payload_in (data : list Z) (offset : nat) (pad : bool) :
  Forall is_byte data -> is_Some (parse_payload data offset pad).
Proof.
  intros Hbytes. unfold parse_payload.
  destruct (Nat.ltb_spec offset (length data)) as [Hlt|Hge]; [|eauto].
  destruct pad; cbn [andb]; [|rewrite slice_in by lia; eauto].
  destruct (Nat.ltb_spec 0 (length data - offset)) as [_|H]; [|lia].
  destruct (lookup_lt_is_Some_2 data (length data - 1) ltac:(lia)) as [pl Hpl].
  rewrite Hpl. cbn [mbind option_bind].
  pose proof (proj1 (Forall_lookup _ _) Hbytes _ _ Hpl) as Hb. unfold is_byte in Hb.
  destruct (Z.leb_spec pl (Z.of_nat (length data - offset)));
    rewrite slice_in by lia; eauto.
Qed.

Local Ltac rejected :=
  exists None; split; [reflexivity|]; split; [intros _; reflexivity|];
  split; [intros _; reflexivity|]; intros ? [=].

(** [parse] is memory-safe and total on byte buffers: it returns for
    every input without reading or copying outside the buffer.  Input
    shorter than the fixed header or whose version bits are not 2 is
    rejected; a packet that is returned has version 2, as many CSRCs as
    its CSRC count, and an extension exactly when its extension flag is
    set. *)
Theorem parse_is_safe (data : list Z) :
  Forall is_byte data ->
  exists r, parse data = Some r
    /\ ((length data < 12)%nat -> r = None)
    /\ (Z.land (Z.shiftr (data !!! 0%nat) 6) 3 <> 2 -> r = None)
    /\ forall p, r = Some p ->
         (12 <= length data)%nat
         /\ version (header_ p) = 2
         /\ Z.of_nat (length (csrc (header_ p))) = csrc_count (header_ p)
         /\ 0 <= csrc_count (header_ p) <= 15
         /\ extension (header_ p) = has_extension (extension_ p).
Proof.
  intros Hbytes. unfold parse.
  destruct (Nat.ltb_spec (length data) 12) as [Hshort|Hlong].
  { rejected. }
  destruct (lookup_lt_is_Some_2 data 0 ltac:(lia)) as [byte0 H0].
  destruct (lookup_lt_is_Some_2 data 1 ltac:(lia)) as [byte1 H1].
  rewrite (list_lookup_total_correct _ _ _ H0).
  rewrite H0. cbn [mbind option_bind].
  destruct (Z.eqb_spec (Z.land (Z.shiftr byte0 6) 3) 2) as [Hver|Hver]; cbn [negb].
  2:{ rejected. }
  rewrite H1. cbn [mbind option_bind].
  destruct (read_uint16_be_in data 2 ltac:(lia)) as [sq ->].
  destruct (read_uint32_be_in data 4 ltac:(lia)) as [ts ->].
  destruct (read_uint32_be_in data 8 ltac:(lia)) as [sr ->].
  cbn [mbind option_bind].
  pose proof (proj1 (Forall_lookup _ _) Hbytes _ _ H0) as Hb0. unfold is_byte in Hb0.
  assert (Hcount : 0 <= Z.land byte0 15 <= 15).
  { change 15 with (Z.ones 4). rewrite Z.land_ones by lia.
    pose proof (Z.mod_pos_bound byte0 (2 ^ 4) ltac:(lia)).
    change (Z.ones 4) with 15. change (2 ^ 4) with 16 in *. lia. }
  destruct (parse_csrc_in data (Z.land byte0 15) Hlong ltac:(lia)) as (rc & -> & Hrc).
  cbn [mbind option_bind]. destruct rc as [[csrcs offset]|].
  2:{ rejected. }
  destruct (Hrc csrcs offset eq_refl) as [Hoff Hcs].
  destruct (parse_extension_in data offset
              (negb (Z.land (Z.shiftr byte0 4) 1 =? 0)) ltac:(lia)) as (re & -> & Hre).
  cbn [mbind option_bind]. destruct re as [[eo offset']|].
  2:{ rejected. }
  destruct (Hre eo offset' eq_refl) as [Hoff' Hext].
  destruct (parse_payload_in data offset' (negb (Z.land (Z.shiftr byte0 5) 1 =? 0))
              Hbytes) as [pl ->].
  cbn [mbind option_bind]. eexists. split; [reflexivity|].
  split; [intros; lia|]. split; [intros; contradiction|].
  intros p [= <-]. cbn [header_ extension_ version csrc csrc_count extension].
  repeat split; auto; lia.
Qed.

Lemma parse_is_safe_witness :
  exists r, parse [128; 96; 0; 1] = Some r
    /\ ((length [128; 96; 0; 1] < 12)%nat -> r = None).
Proof.
  destruct (parse_is_safe [128; 96; 0; 1]) as (r & A & B & _).
  - repeat constructor; unfold is_byte; lia.
  - exists r. split; assumption.
Defined.

(** *** The forwarder's SSRC rewrite, seen by the parser *)

Definition set_ssrc (p : RtpPacket) (v : Z) : RtpPacket :=
  let h := header_ p in
  mkRtpPacket
    (mkRtpHeader (version h) (padding h) (extension h) (csrc_count h) (marker h)
                 (payload_type h) (sequence h) (timestamp h) v (csrc h))
    (extension_ p) (payload_ p).

(** Two buffers that differ at most in the SSRC field. *)
Definition same_but_ssrc (d1 d2 : list Z) : Prop :=
  length d1 = length d2
  /\ forall i : nat, (i < 8 \/ 12 <= i)%nat -> d1 !! i = d2 !! i.

Lemma read_uint16_be_agree d1 d2 (i : nat) :
  same_but_ssrc d1 d2 -> (i + 2 <= 8 \/ 12 <= i)%nat ->
  read_uint16_be d2 i = read_uint16_be d1 i.
Proof.
  intros [_ H] Hi. unfold read_uint16_be. rewrite !H by lia. reflexivity.
Qed.

Lemma read_uint32_be_agree d1 d2 (i : nat) :
  same_but_ssrc d1 d2 -> (i + 4 <= 8 \/ 12 <= i)%nat ->
  read_uint32_be d2 i = read_uint32_be d1 i.
Proof.
  intros [_ H] Hi. unfold read_uint32_be. rewrite !H by lia. reflexivity.
Qed.

Lemma read_csrcs_agree d1 d2 (n : nat) : forall offset,
  same_but_ssrc d1 d2 -> (12 <= offset)%nat ->
  read_csrcs d2 offset n = read_csrcs d1 offset n.
Proof.
  induction n as [|n IH]; intros offset Hs Ho; [reflexivity|].
  cbn [read_csrcs]. rewrite (read_uint32_be_agree d1 d2) by (auto; lia).
  rewrite IH by (auto; lia). reflexivity.
Qed.

Lemma slice_agree d1 d2 (off len : nat) :
  same_but_ssrc d1 d2 -> (12 <= off)%nat -> slice d2 off len = slice d1 off len.
Proof.
  intros [Hlen H] Ho. unfold slice. rewrite Hlen.
  destruct (off + len <=? length d2)%nat; [|reflexivity].
  f_equal. f_equal. apply list_eq. intros i. rewrite !lookup_drop.
  symmetry. apply H. lia.
Qed.

Lemma parse_csrc_agree d1 d2 count :
  same_but_ssrc d1 d2 -> parse_csrc d2 count = parse_csrc d1 count.
Proof.
  intros Hs. unfold parse_csrc. rewrite (proj1 Hs).
  rewrite (read_csrcs_agree d1 d2) by (auto; lia). reflexivity.
Qed.

Lemma parse_csrc_offset data count l off :
  parse_csrc data count = Some (Some (l, off)) -> (12 <= off)%nat.
Proof.
  unfold parse_csrc. destruct (0 <? count).
  - destruct (length data <? _)%nat; [discriminate|].
    destruct (read_csrcs data 12 (Z.to_nat count)); cbn; [|discriminate].
    intros [= _ <-]. lia.
  - intros [= _ <-]. lia.
Qed.

Lemma parse_extension_agree d1 d2 offset present :
  same_but_ssrc d1 d2 -> (12 <= offset)%nat ->
  parse_extension d2 offset present = parse_extension d1 offset present.
Proof.
  intros Hs Ho. unfold parse_extension. rewrite (proj1 Hs).
  rewrite !(read_uint16_be_agree d1 d2) by (auto; lia).
  destruct present; [|reflexivity].
  destruct (length d2 <? offset + 4)%nat; [reflexivity|].
  destruct (read_uint16_be d1 offset); [|reflexivity]. cbn [mbind option_bind].
  destruct (read_uint16_be d1 (offset + 2)) as [words|]; [|reflexivity].
  cbn [mbind option_bind].
  rewrite (slice_agree d1 d2) by (auto; lia). reflexivity.
Qed.

Lemma parse_extension_offset data offset present eo off :
  parse_extension data offset present = Some (Some (eo, off)) -> (offset <= off)%nat.
Proof.
  unfold parse_extension. destruct present.
  - destruct (length data <? offset + 4)%nat; [discriminate|].
    destruct (read_uint16_be data offset); [|discriminate]. cbn [mbind option_bind].
    destruct (read_uint16_be data (offset + 2)) as [words|]; [|discriminate].
    cbn [mbind option_bind].
    destruct (length data <? _)%nat; [discriminate|].
    destruct (slice data _ _); cbn; [|discriminate]. intros [= _ <-]. lia.
  - intros [= _ <-]. lia.
Qed.

Lemma parse_payload_agree d1 d2 offset pad :
  same_but_ssrc d1 d2 -> (12 <= offset)%nat ->
  parse_payload d2 offset pad = parse_payload d1 offset pad.
Proof.
  intros Hs Ho. unfold parse_payload. rewrite (proj1 Hs).
  destruct (Nat.ltb_spec offset (length d2)) as [Hlt|_]; [|reflexivity].
  rewrite <- (proj2 Hs (length d2 - 1)%nat) by lia.
  destruct (pad && _); [|apply slice_agree; auto].
  destruct (d1 !! (length d2 - 1)%nat); [|reflexivity]. cbn [mbind option_bind].
  apply slice_agree; auto.
Qed.

Lemma parse_agree d1 d2 (p : RtpPacket) (v : Z) :
  same_but_ssrc d1 d2 ->
  read_uint32_be d2 8 = Some v ->
  parse d1 = Some (Some p) ->
  parse d2 = Some (Some (set_ssrc p v)).
Proof.
  intros Hs Hv. unfold parse. rewrite <- (proj1 Hs).
  destruct (length d1 <? 12)%nat; [discriminate|].
  rewrite <- !(proj2 Hs) by lia.
  destruct (d1 !! 0%nat) as [byte0|]; [|discriminate]. cbn [mbind option_bind].
  destruct (negb (Z.land (Z.shiftr byte0 6) 3 =? 2)); [discriminate|].
  destruct (d1 !! 1%nat) as [byte1|]; [|discriminate]. cbn [mbind option_bind].
  rewrite (read_uint16_be_agree d1 d2) by (auto; lia).
  rewrite (read_uint32_be_agree d1 d2 4) by (auto; lia).
  destruct (read_uint16_be d1 2) as [sq|]; [|discriminate]. cbn [mbind option_bind].
  destruct (read_uint32_be d1 4) as [ts|]; [|discriminate]. cbn [mbind option_bind].
  rewrite Hv.
  destruct (read_uint32_be d1 8) as [sr|]; [|discriminate]. cbn [mbind option_bind].
  rewrite (parse_csrc_agree d1 d2 _ Hs).
  destruct (parse_csrc d1 (Z.land byte0 15)) as [[[csrcs offset]|]|] eqn:Ec;
    cbn [mbind option_bind]; try discriminate.
  pose proof (parse_csrc_offset _ _ _ _ Ec) as Ho.
  rewrite (parse_extension_agree d1 d2 offset _ Hs Ho).
  destruct (parse_extension d1 offset _) as [[[eo offset']|]|] eqn:Ee;
    cbn [mbind option_bind]; try discriminate.
  pose proof (parse_extension_offset _ _ _ _ _ Ee) as Ho'.
  rewrite (parse_payload_agree d1 d2 offset' _ Hs ltac:(lia)).
  destruct (parse_payload d1 offset' _) as [pl|]; cbn [mbind option_bind];
    [|discriminate].
  intros [= <-]. reflexivity.
Qed.

Lemma rewritten_ssrc_read (data : list Z) (new_ssrc : Z) :
  (12 <= length data)%nat -> 0 <= new_ssrc < 2 ^ 32 ->
  read_uint32_be (Forwarder.rewrite_ssrc data new_ssrc) 8 = Some new_ssrc.
Proof.
  intros Hlen Hnew.
  pose proof (ForwarderProofs.rewrite_ssrc_field data new_ssrc Hlen) as Hf.
  assert (Hk : forall k : nat, (k < 4)%nat ->
            Forwarder.rewrite_ssrc data new_ssrc !! (8 + k)%nat
            = [Z.land (Z.shiftr new_ssrc 24) 255; Z.land (Z.shiftr new_ssrc 16) 255;
               Z.land (Z.shiftr new_ssrc 8) 255; Z.land new_ssrc 255] !! k).
  { intros k Hk. rewrite <- Hf. rewrite lookup_take, decide_True by lia.
    rewrite lookup_drop. reflexivity. }
  pose proof (Hk 0%nat ltac:(lia)) as K0. pose proof (Hk 1%nat ltac:(lia)) as K1.
  pose proof (Hk 2%nat ltac:(lia)) as K2. pose proof (Hk 3%nat ltac:(lia)) as K3.
  cbn [Nat.add] in K0, K1, K2, K3.
  unfold read_uint32_be. rewrite K0, K1, K2, K3.
  cbn [lookup list_lookup mbind option_bind].
  rewrite combine32; try (unfold is_byte; rewrite <- to_uint8_land; apply to_uint8_range).
  f_equal. apply be_bytes_of_uint32. exact Hnew.
Qed.

(** The forwarder's rewrite composes with the parser: if a packet
    parses, the buffer [rewrite_ssrc] produces from it parses to the
    same packet with the SSRC replaced and every other field, the CSRC
    list, the extension and the payload untouched. *)
Theorem rewrite_ssrc_parses (data : list Z) (new_ssrc : Z) (p : RtpPacket) :
  0 <= new_ssrc < 2 ^ 32 ->
  parse data = Some (Some p) ->
  parse (Forwarder.rewrite_ssrc data new_ssrc) = Some (Some (set_ssrc p new_ssrc)).
Proof.
  intros Hnew Hp.
  assert (Hlen : (12 <= length data)%nat).
  { unfold parse in Hp. destruct (Nat.ltb_spec (length data) 12); [discriminate|lia]. }
  apply (parse_agree data); [|apply rewritten_ssrc_read; assumption|exact Hp].
  split.
  - symmetry. apply ForwarderProofs.rewrite_ssrc_length.
  - intros i Hi. symmetry. apply ForwarderProofs.rewrite_ssrc_outside. exact Hi.
Qed.

Lemma rewrite_ssrc_parses_witness :
  parse (Forwarder.rewrite_ssrc (serialize sample_packet) 0x11223344)
  = Some (Some (set_ssrc sample_packet 0x11223344)).
Proof.
  apply (rewrite_ssrc_parses (serialize sample_packet) 0x11223344 sample_packet).
  - lia.
  - vm_compute. reflexivity.
Defined.

End RtpLaws.

(** * STUN: the binding handshake *)

Module StunLaws.
Import Stun.

Lemma high_byte_class (hb : Z) :
  0 <= hb < 256 -> (Z.land hb 192 =? 0) = (hb <? 64).
Proof.
  intros Hb.
  apply (Bool.eqb_prop _ _).
  apply (RtpLaws.below_enumerated 256
           (fun x => Bool.eqb (Z.land x 192 =? 0) (x <? 64))); [|lia].
  vm_compute. reflexivity.
Qed.

Lemma stun_parse_serialize (m : StunMessage) :
  0 <= type_ m < 2 ^ 16 ->
  length (transaction_id_ m) = 12%nat ->
  parse (serialize m) = Some (mkStunMessage (type_ m) (transaction_id_ m) [])
  /\ length (serialize m) = 20%nat.
Proof.
  intros Ht Hid. destruct m as [t txid attrs]. cbn [type_ transaction_id_] in *.
  unfold serialize. cbn [type_ transaction_id_].
  rewrite (to_uint16_id t) by exact Ht.
  split.
  - unfold parse. rewrite length_app, Hid. cbn [length app Z.of_nat].
    cbn [lookup_total list_lookup_total].
    change (Z.of_nat (8 + 12) <? 20) with false. cbv iota.
    change (Z.lor (Z.lor (Z.lor (to_uint32 (Z.shiftl 33 24)) (to_uint32 (Z.shiftl 18 16)))
                         (to_uint32 (Z.shiftl 164 8))) (to_uint32 66)
            =? 0x2112A442) with true.
    cbn [negb]. f_equal. f_equal.
    + rewrite RtpLaws.combine16 by apply RtpLaws.to_uint8_range.
      apply (RtpLaws.be_combine_be16 t Ht).
    + cbn [drop]. rewrite <- Hid. apply firstn_all.
  - rewrite length_app, Hid. reflexivity.
Qed.

(** [parse] reads back what [serialize] wrote: the message type and the
    transaction id.  Attributes are not serialized, so they are lost.
    The datagram has 20 bytes, and the ICE agent's demultiplexer takes
    it for STUN exactly when the type is below 0x4000, as the four
    binding types are. *)
Theorem stun_round_trip (m : StunMessage) :
  0 <= type_ m < 2 ^ 16 ->
  length (transaction_id_ m) = 12%nat ->
  parse (serialize m) = Some (mkStunMessage (type_ m) (transaction_id_ m) [])
  /\ length (serialize m) = 20%nat
  /\ Ice.is_stun (serialize m) = (type_ m <? 0x4000).
Proof.
  intros Ht Hid. destruct m as [t txid attrs]. cbn [type_ transaction_id_] in *.
  unfold serialize. cbn [type_ transaction_id_].
  rewrite (to_uint16_id t) by exact Ht.
  pose proof (stun_parse_serialize (mkStunMessage t txid attrs) Ht Hid) as [A B].
  unfold serialize in A, B. cbn [type_ transaction_id_] in A, B.
  rewrite (to_uint16_id t) in A, B by exact Ht.
  split; [exact A|]. split; [exact B|].
  unfold Ice.is_stun. rewrite length_app, Hid. cbn [length app].
  cbn [lookup_total list_lookup_total].
  change (20 <=? Z.of_nat (8 + 12)) with true. cbn [andb].
  rewrite high_byte_class by apply RtpLaws.to_uint8_range.
  unfold to_uint8. rewrite Z.shiftr_div_pow2 by lia.
  change (2 ^ 8) with 256. change (2 ^ 16) with 65536 in Ht.
  rewrite Z.mod_small
    by (split; [apply Z.div_pos; lia|apply Z.div_lt_upper_bound; lia]).
  destruct (Z.ltb_spec (t / 256) 64) as [H|H];
    destruct (Z.ltb_spec t 16384) as [H'|H']; try reflexivity; exfalso.
  - assert (64 <= t / 256) by (apply Z.div_le_lower_bound; lia). lia.
  - assert (t / 256 < 64) by (apply Z.div_lt_upper_bound; lia). lia.
Qed.

Definition sample_id : list Z := [1; 2; 3; 4; 5; 6; 7; 8; 9; 10; 11; 12].

Lemma stun_round_trip_witness :
  parse (serialize (mkStunMessage BINDING_RESPONSE sample_id
                      [mkStunAttribute 0x0020 [0; 1; 2; 3]]))
  = Some (mkStunMessage BINDING_RESPONSE sample_id [])
  /\ length (serialize (mkStunMessage BINDING_RESPONSE sample_id
                          [mkStunAttribute 0x0020 [0; 1; 2; 3]])) = 20%nat.
Proof.
  destruct (stun_round_trip (mkStunMessage BINDING_RESPONSE sample_id
                               [mkStunAttribute 0x0020 [0; 1; 2; 3]]))
    as (A & B & _).
  - unfold BINDING_RESPONSE. cbn. lia.
  - reflexivity.
  - split; assumption.
Defined.

(** *** The client *)

Definition feed (s : Impl) (packets : list (list Z * Z)) : Impl :=
  fold_left (fun st pk => snd (process_packet (fst pk) (snd pk) st)) packets s.

Lemma process_packet_results data now s :
  let s' := snd (process_packet data now s) in
  (results s' = results s /\ pending_callback s' = pending_callback s
   \/ (pending_callback s = true /\ pending_callback s' = false
       /\ exists r, results s' = results s ++ [r]))
  /\ pending_transaction s' = pending_transaction s
  /\ request_time s' = request_time s.
Proof.
  cbn zeta. unfold process_packet. destruct (parse data) as [msg|]; [|auto].
  destruct (bool_decide _); [|auto].
  destruct (pending_callback s) eqn:E; cbn [snd]; [|auto].
  split; [|split; reflexivity]. right. split; [reflexivity|].
  split; [reflexivity|]. eauto.
Qed.

Lemma pending_after_request (callback : bool) (txid : list Z) (t0 : Z) (s : Impl) :
  let s1 := state_of (get_reflexive_address callback txid t0 s) in
  pending_callback s1 = callback
  /\ pending_transaction s1 = txid
  /\ request_time s1 = t0
  /\ results s1 = results s
  /\ servers s1 = servers s.
Proof.
  cbn zeta. unfold get_reflexive_address.
  destruct (servers s) as [|server rest] eqn:E; [rewrite <- E; repeat split|].
  destruct (server_address server); repeat split; cbn; auto.
Qed.

(** The destinations read from some server strings: the default port,
    a port with white space before and text after the digits, a port
    reduced to 16 bits, and three port texts [std::stoi] rejects. *)
Lemma server_address_examples :
  server_address "stun.example.org" = Some (mkSocketAddress "stun.example.org" 3478)
  /\ server_address "10.0.0.1: 19302x" = Some (mkSocketAddress "10.0.0.1" 19302)
  /\ server_address "h:70000" = Some (mkSocketAddress "h" 4464)
  /\ server_address "h:-1" = Some (mkSocketAddress "h" 65535)
  /\ server_address "h:" = None
  /\ server_address "h:abc" = None
  /\ server_address "h:99999999999" = None.
Proof. repeat split; vm_compute; reflexivity. Qed.

(** One request, one answer.  [get_reflexive_address] records the
    callback, the transaction id and the time, and then: with no server
    configured it sends nothing; with a first server whose port text
    [std::stoi] converts (or that has no colon, port 3478) it sends one
    20-byte binding request carrying the transaction id to that host
    and port; with a first server whose port text does not convert the
    call is left by the exception and nothing is sent.  A binding
    response with the pending id is accepted; with a callback installed
    it is reported once, as a success with the elapsed milliseconds as
    round-trip time, and without one nothing is reported.  A datagram
    with another id, or one that is not STUN, is refused.  Whatever
    arrives afterwards, the callback is invoked at most once per
    request. *)
Theorem binding_handshake (callback : bool) (txid : list Z) (t0 t1 : Z) (s : Impl)
    (packets : list (list Z * Z)) :
  length txid = 12%nat ->
  let out := get_reflexive_address callback txid t0 s in
  let s1 := state_of out in
  let request := serialize (mkStunMessage BINDING_REQUEST txid []) in
  let response := serialize (mkStunMessage BINDING_RESPONSE txid []) in
  length request = 20%nat
  /\ parse request = Some (mkStunMessage BINDING_REQUEST txid [])
  /\ match servers s with
     | [] => out = Returned s1 /\ sent s1 = sent s
     | server :: _ =>
         match server_address server with
         | Some addr => out = Returned s1 /\ sent s1 = sent s ++ [(request, addr)]
         | None => out = Threw s1 /\ sent s1 = sent s
         end
     end
  /\ fst (process_packet response t1 s1) = true
  /\ results (snd (process_packet response t1 s1))
     = results s
       ++ (if callback
           then [mkStunResult true (mkSocketAddress "" 0) ""
                              (Z.quot (t1 - t0) 1000000)]
           else [])
  /\ (forall other now, length other = 12%nat -> other <> txid ->
        process_packet (serialize (mkStunMessage BINDING_RESPONSE other [])) now s1
        = (false, s1))
  /\ (forall data now, parse data = None -> process_packet data now s1 = (false, s1))
  /\ (length (results (feed s1 packets))
      <= length (results s) + (if callback then 1 else 0))%nat.
Proof.
  intros Hid. cbn zeta.
  assert (Hparse : forall ty id, 0 <= ty < 2 ^ 16 -> length id = 12%nat ->
            parse (serialize (mkStunMessage ty id [])) = Some (mkStunMessage ty id [])).
  { intros ty id Hty Hlen.
    apply (proj1 (stun_parse_serialize (mkStunMessage ty id []) Hty Hlen)). }
  destruct (pending_after_request callback txid t0 s) as (Pc & Pt & Pr & Pres & _).
  cbn zeta in Pc, Pt, Pr, Pres.
  set (s1 := state_of (get_reflexive_address callback txid t0 s)) in *.
  split; [|split; [|split; [|split; [|split; [|split; [|split]]]]]].
  - unfold serialize. cbn [transaction_id_]. rewrite length_app, Hid. reflexivity.
  - apply Hparse; [unfold BINDING_REQUEST; lia|exact Hid].
  - subst s1. unfold get_reflexive_address.
    destruct (servers s) as [|server rest]; [split; reflexivity|].
    destruct (server_address server); split; reflexivity.
  - unfold process_packet. rewrite Hparse by (exact Hid || (unfold BINDING_RESPONSE; lia)).
    cbn [transaction_id_]. rewrite Pt.
    rewrite bool_decide_eq_true_2 by reflexivity. reflexivity.
  - unfold process_packet. rewrite Hparse by (exact Hid || (unfold BINDING_RESPONSE; lia)).
    cbn [transaction_id_ type_]. rewrite Pt, Pc, Pr, Pres.
    rewrite bool_decide_eq_true_2 by reflexivity. cbn [snd].
    destruct callback; [reflexivity|]. rewrite app_nil_r. exact Pres.
  - intros other now Hlen Hne. unfold process_packet.
    rewrite Hparse by (exact Hlen || (unfold BINDING_RESPONSE; lia)).
    cbn [transaction_id_]. rewrite Pt.
    rewrite bool_decide_eq_false_2 by exact Hne. reflexivity.
  - intros data now Hnone. unfold process_packet. rewrite Hnone. reflexivity.
  - assert (Hinv : forall pks st,
              (length (results (feed st pks))
               <= length (results st) + (if pending_callback st then 1 else 0))%nat).
    { induction pks as [|pk pks IH]; intros st; [cbn; lia|].
      cbn [feed fold_left]. fold (feed (snd (process_packet (fst pk) (snd pk) st)) pks).
      specialize (IH (snd (process_packet (fst pk) (snd pk) st))).
      destruct (process_packet_results (fst pk) (snd pk) st)
        as [[[A B]|(A & B & r & C)] _].
      - rewrite A, B in IH. exact IH.
      - rewrite B, C, length_app in IH. rewrite A. cbn [length] in IH. lia. }
    specialize (Hinv packets s1). rewrite Pc, Pres in Hinv. exact Hinv.
Qed.

Definition idle_client : Impl :=
  mkImpl ["stun.example.org:3478"] false (replicate 12 0) 0 [] [].

Definition misconfigured_client : Impl :=
  mkImpl ["stun.example.org:abc"] false (replicate 12 0) 0 [] [].

Lemma binding_handshake_witness :
  results (snd (process_packet
                  (serialize (mkStunMessage BINDING_RESPONSE sample_id []))
                  42000000
                  (state_of (get_reflexive_address true sample_id 2000000 idle_client))))
  = [mkStunResult true (mkSocketAddress "" 0) "" 40]
  /\ sent (state_of (get_reflexive_address true sample_id 2000000 idle_client))
     = [(serialize (mkStunMessage BINDING_REQUEST sample_id []),
         mkSocketAddress "stun.example.org" 3478)]
  /\ get_reflexive_address true sample_id 2000000 misconfigured_client
     = Threw (mkImpl ["stun.example.org:abc"] true sample_id 2000000 [] []).
Proof.
  split; [|split; vm_compute; reflexivity].
  apply (proj1 (proj2 (proj2 (proj2 (proj2
           (binding_handshake true sample_id 2000000 42000000 idle_client []
              eq_refl)))))).
Defined.

End StunLaws.

(** * ICE agent: what the interface can reach *)

Module IceAgentLaws.
Import Ice.
Import IceAgent.

Definition unconnected (a : Agent) : Prop :=
  selected_pair a = None
  /\ connection_state a <> CS_CONNECTED
  /\ datagrams a = [].

Lemma step_unconnected (a : Agent) (c : Call) :
  unconnected a ->
  unconnected (fst (step a c)) /\ (snd (step a c) = None \/ snd (step a c) = Some false).
Proof.
  intros (Hp & Hs & Hd). destruct c; cbn [step fst snd].
  - split; [|left; reflexivity]. repeat split; assumption.
  - split; [|left; reflexivity]. unfold gather_candidates.
    destruct (gather_host_candidates a), (socket a); repeat split; assumption.
  - split; [|left; reflexivity]. repeat split; assumption.
  - split; [|left; reflexivity]. repeat split; try assumption. discriminate.
  - unfold send. rewrite Hp. split; [|right; reflexivity]. repeat split; assumption.
  - split; [|left; reflexivity]. repeat split; assumption.
  - split; [|left; reflexivity]. repeat split; assumption.
  - split; [|left; reflexivity]. repeat split; try assumption. discriminate.
Qed.

(** No sequence of calls of the agent's interface selects a candidate
    pair or reaches [CONNECTED] (no code writes either), so [send] never
    succeeds: every [send] returns false and nothing is handed to the
    socket. *)
Theorem send_never_succeeds
    (r : IceRole) (gather_host : bool) (sock : option SocketAddress)
    (calls : list Call) :
  let out := run (initial r gather_host sock) calls in
  selected_pair (fst out) = None
  /\ connection_state (fst out) <> CS_CONNECTED
  /\ datagrams (fst out) = []
  /\ Forall (fun b => b = false) (snd out).
Proof.
  cbn zeta.
  assert (H : forall a, unconnected a ->
            unconnected (fst (run a calls))
            /\ Forall (fun b => b = false) (snd (run a calls))).
  { induction calls as [|c calls IH]; intros a Ha; cbn [run].
    - split; [exact Ha|constructor].
    - destruct (step_unconnected a c Ha) as [Hstep Hres].
      destruct (step a c) as [a1 res]. cbn [fst snd] in Hstep, Hres.
      destruct (IH a1 Hstep) as [Hrun Hall].
      destruct (run a1 calls) as [a2 rs]. cbn [fst snd] in *.
      split; [exact Hrun|].
      destruct Hres as [->| ->]; [exact Hall|]. constructor; [reflexivity|exact Hall]. }
  destruct (H (initial r gather_host sock)) as [(A & B & C) D].
  { repeat split; try reflexivity. discriminate. }
  repeat split; assumption.
Qed.

End IceAgentLaws.
